(** * The retrieval-and-generation core of the counselling chatbot, in Rocq

    A shallow embedding of [src/core/safety.py], [src/core/semantic_cache.py]
    and [src/services/rag_service.py], with the properties the specification
    states about them.

    Conventions of the embedding:
    - a Python [str] is the list of its code points ([str]);
    - Python numbers ([float] scores, distances, clock readings, and the
      [int] literals mixed with them) live in one type [F] whose arithmetic
      and comparison are the operations of the interface [PyNum];
    - a function that can raise returns an [outcome]; a function that reads
      or writes module globals, instance attributes, Redis or the document
      store runs in the monad [M] over the record [world];
    - the third-party libraries (the Unicode tables behind [str.lower],
      [str.split], [\w] and [\s]; [rank_bm25]; [json]; [hashlib]; ChromaDB;
      the Gemini client) are interfaces whose operations are parameters. *)

From Stdlib Require Import ZArith NArith Ascii String QArith.
From stdpp Require Import gmap strings list sorting pretty.

Local Open Scope N_scope.
Local Open Scope list_scope.

(** ** Python values *)

Module Py.

(** A code point, and a string of them. *)
Abbreviation char := N.
Abbreviation str := (list N).

(** Decoder for the UTF-8 bytes of a literal of this file, so that the
    Vietnamese constants of the source can be written as they are. *)
Fixpoint utf8_decode (bs : list N) : str :=
  match bs with
  | [] => []
  | b :: r =>
    if b <? 128 then b :: utf8_decode r
    else if b <? 224 then
      match r with
      | c1 :: r1 => ((b - 192) * 64 + (c1 - 128)) :: utf8_decode r1
      | _ => []
      end
    else if b <? 240 then
      match r with
      | c1 :: c2 :: r2 =>
        ((b - 224) * 4096 + (c1 - 128) * 64 + (c2 - 128)) :: utf8_decode r2
      | _ => []
      end
    else
      match r with
      | c1 :: c2 :: c3 :: r3 =>
        ((b - 240) * 262144 + (c1 - 128) * 4096 + (c2 - 128) * 64 + (c3 - 128))
          :: utf8_decode r3
      | _ => []
      end
  end.

Definition lit (s : string) : str :=
  utf8_decode (map N_of_ascii (list_ascii_of_string s)).

(** [str(n)] for an [int]. *)
Definition str_of_Z (z : Z) : str := lit (pretty z).

(** The result of a call that can raise: the value, or the exception. *)
Inductive exn : Type :=
| VectorStoreError (msg : str)
| Exception (msg : str).

Inductive outcome (A : Type) : Type :=
| Ok (a : A)
| Raise (e : exn).
Arguments Ok {A} a.
Arguments Raise {A} e.

(** Python numbers: the arithmetic and the comparison the code uses. *)
Class PyNum (F : Type) : Type := {
  fadd : F -> F -> F;
  fsub : F -> F -> F;
  fmul : F -> F -> F;
  fdiv : F -> F -> F;
  flt : F -> F -> bool;
  of_Z : Z -> F
}.

(** [x > y] is [y < x]; [x <= y] for numbers that are comparable (no NaN)
    is [not (y < x)]. *)
Definition fgt `{PyNum F} (x y : F) : bool := flt y x.
Definition fle `{PyNum F} (x y : F) : bool := negb (flt y x).

(** What the code needs of the numbers, and what Python floats other than
    NaN give: the comparison is a strict weak order, dividing by 1 changes
    nothing, and a quotient of a number between 0 and a positive divisor
    lies between 0 and 1. *)
Class PyNumLaws (F : Type) `{PyNum F} : Prop := {
  flt_asym : forall x y : F, flt x y = true -> flt y x = false;
  fle_trans : forall x y z : F, fle x y = true -> fle y z = true -> fle x z = true;
  zero_le_one : fle (of_Z 0) (of_Z 1) = true;
  fdiv_one : forall x : F, fdiv x (of_Z 1) = x;
  fdiv_nonneg : forall x m : F,
    fle (of_Z 0) x = true -> flt (of_Z 0) m = true -> fle (of_Z 0) (fdiv x m) = true;
  fdiv_le_one : forall x m : F,
    fle x m = true -> flt (of_Z 0) m = true -> fle (fdiv x m) (of_Z 1) = true
}.

(** The Unicode tables of the interpreter. *)
Class Unicode : Type := {
  is_word : char -> bool;   (* \w of the re module on str *)
  is_space : char -> bool;  (* \s, and what str.strip and str.split cut at *)
  lower : str -> str;       (* str.lower *)
  split : str -> list str   (* str.split() *)
}.

(** *** The fragment of the [re] module the code uses

    A pattern is a sequence of items, each a test on one character, with
    [?], [*] or [+] on it, or the boundary [\b]. Matching is greedy with
    backtracking, as in [re]: the first alternative that lets the rest of
    the pattern match wins. *)
Inductive item : Type :=
| One (p : char -> bool)
| Opt (p : char -> bool)
| Star (p : char -> bool)
| Plus (p : char -> bool)
| WordBoundary.

Section Regex.
Context `{Unicode}.

Definition word_at (c : option char) : bool :=
  match c with Some c => is_word c | None => false end.

(** [\b] between the character before the position and the one at it. *)
Definition at_boundary (prev : option char) (t : str) : bool :=
  xorb (word_at prev) (word_at (head t)).

(** Greedy [p*] followed by the continuation [k]. *)
Fixpoint star_then (p : char -> bool) (k : option char -> str -> option nat)
  (prev : option char) (t : str) : option nat :=
  match t with
  | c :: t' =>
    if p c then
      match star_then p k (Some c) t' with
      | Some n => Some (S n)
      | None => k prev t
      end
    else k prev t
  | [] => k prev t
  end.

(** [match_here its prev t]: the length of the match of [its] at the start
    of [t], where [prev] is the character before it. *)
Fixpoint match_here (its : list item) (prev : option char) (t : str) : option nat :=
  match its with
  | [] => Some O
  | One p :: its' =>
    match t with
    | c :: t' => if p c then S <$> match_here its' (Some c) t' else None
    | [] => None
    end
  | Opt p :: its' =>
    match t with
    | c :: t' =>
      if p c then
        match match_here its' (Some c) t' with
        | Some n => Some (S n)
        | None => match_here its' prev t
        end
      else match_here its' prev t
    | [] => match_here its' prev t
    end
  | Star p :: its' => star_then p (match_here its') prev t
  | Plus p :: its' =>
    match t with
    | c :: t' =>
      if p c then S <$> star_then p (match_here its') (Some c) t' else None
    | [] => None
    end
  | WordBoundary :: its' =>
    if at_boundary prev t then match_here its' prev t else None
  end.

(** [re.search(its, t)] as a truth value: some position matches. *)
Fixpoint search_from (its : list item) (prev : option char) (t : str) : bool :=
  match match_here its prev t with
  | Some _ => true
  | None =>
    match t with
    | [] => false
    | c :: t' => search_from its (Some c) t'
    end
  end.

Definition re_search (its : list item) (t : str) : bool := search_from its None t.

(** [re.sub(its, '', t)]: the leftmost matches, one after the other, are
    cut out; [skip] counts the characters of the current match still to
    drop. *)
Fixpoint sub_from (its : list item) (skip : nat) (prev : option char) (t : str) : str :=
  match t with
  | [] => []
  | c :: t' =>
    match skip with
    | S k => sub_from its k (Some c) t'
    | O =>
      match match_here its prev t with
      | Some (S k) => sub_from its k (Some c) t'
      | _ => c :: sub_from its O (Some c) t'
      end
    end
  end.

Definition re_sub_empty (its : list item) (t : str) : str := sub_from its O None t.

(** [re.escape(k)]: every character of [k] stands for itself. *)
Definition re_escape (k : str) : list item := map (fun c => One (N.eqb c)) k.

(** [str.strip()]. *)
Fixpoint lstrip (t : str) : str :=
  match t with
  | c :: t' => if is_space c then lstrip t' else t
  | [] => []
  end.

Definition strip (t : str) : str := reverse (lstrip (reverse (lstrip t))).

End Regex.

End Py.

Import Py.

(** ** [src/core/safety.py] *)

Module Safety.
Section Safety.
Context `{Unicode}.

Definition DEFAULT_SOS_KEYWORDS : list str :=
  [ lit "tự tử"; lit "tự sát"; lit "chết"; lit "tự hại"; lit "kết thúc cuộc đời";
    lit "không muốn sống"; lit "muốn chết"; lit "giết mình"; lit "tự kết liễu";
    lit "nhảy lầu"; lit "cắt tay"; lit "uống thuốc"; lit "tự vẫn" ].

(** [r'\b' + re.escape(keyword.lower()) + r'\b'] *)
Definition keyword_pattern (keyword : str) : list item :=
  [WordBoundary] ++ re_escape (lower keyword) ++ [WordBoundary].

(** The loop over the keywords, which returns at the first match. *)
Fixpoint check_loop (text_lower : str) (keywords : list str) : bool :=
  match keywords with
  | [] => false
  | keyword :: rest =>
    if re_search (keyword_pattern keyword) text_lower then true
    else check_loop text_lower rest
  end.

Definition check_sos_keywords (text : str) (keywords : option (list str)) : bool :=
  let keywords :=
    match keywords with None => DEFAULT_SOS_KEYWORDS | Some ks => ks end in
  let text_lower := lower text in
  check_loop text_lower keywords.

(** What the specification asks for, in its words: the lowered text holds
    the lowered keyword with no word character right before or right after
    the occurrence. *)
Definition whole_word_in (k t : str) : Prop :=
  exists pre post : str,
    t = pre ++ k ++ post /\ word_at (last pre) = false /\ word_at (head post) = false.

Definition contains_keyword (text : str) (keywords : list str) : Prop :=
  exists k : str, k ∈ keywords /\ whole_word_in (lower k) (lower text).

(** A keyword whose lowered form begins and ends with a word character. *)
Definition word_edged (k : str) : Prop :=
  word_at (head (lower k)) = true /\ word_at (last (lower k)) = true.

End Safety.
End Safety.

(** The tables restricted to ASCII, where they are these. *)
Module Ascii7.

Definition is_upper (c : char) : bool := (65 <=? c) && (c <=? 90).
Definition is_alpha (c : char) : bool := is_upper c || ((97 <=? c) && (c <=? 122)).
Definition is_digit (c : char) : bool := (48 <=? c) && (c <=? 57).
Definition ascii_is_word (c : char) : bool := is_alpha c || is_digit c || (c =? 95).
Definition ascii_is_space (c : char) : bool :=
  (c =? 32) || ((9 <=? c) && (c <=? 13)) || ((28 <=? c) && (c <=? 31)).
Definition ascii_lower (t : str) : str :=
  map (fun c => if is_upper c then c + 32 else c) t.

(** [str.split()]: the maximal runs of characters that are not spaces;
    [cur] is the run being read, reversed. *)
Fixpoint split_go (cur : str) (t : str) : list str :=
  match t with
  | [] => match cur with [] => [] | _ => [reverse cur] end
  | c :: t' =>
    if ascii_is_space c then
      match cur with [] => split_go [] t' | _ => reverse cur :: split_go [] t' end
    else split_go (c :: cur) t'
  end.

Definition ascii_split (t : str) : list str := split_go [] t.

Definition ascii_unicode : Unicode := {|
  is_word := ascii_is_word;
  is_space := ascii_is_space;
  lower := ascii_lower;
  split := ascii_split
|}.

End Ascii7.

(** ** The world the services run in *)

Module Runtime.

(** One entry of [sources]: the dict [{"title", "page", "content_snippet"}]. *)
Record source_entry : Type := {
  title : str;
  source_page : Z;
  content_snippet : str
}.

(** The metadata dict of a chunk, by the two keys the code reads. *)
Record metadata : Type := {
  md_source : option str;
  md_page : option Z
}.

Definition empty_metadata : metadata := {| md_source := None; md_page := None |}.

(** A [where] filter of the document store. *)
Abbreviation where_filter := (gmap str str).

Section Runtime.
Context {F : Type} `{PyNum F}.

(** [rank_bm25]: the index type, its constructor and its scoring. *)
Class Bm25Lib : Type := {
  bm25 : Type;
  BM25Okapi : list (list str) -> outcome bm25;
  get_scores : bm25 -> list str -> outcome (list F)
}.

(** [json] and [hashlib], at the types the cache uses them. *)
Class CodecLib : Type := {
  dumps_embedding : list F -> str;
  sha256_hexdigest : str -> str;
  dumps_cache_data : str * list source_entry -> str;
  loads_cache_data : str -> outcome (str * list source_entry)
}.

Context `{Bm25Lib}.

(** What [collection.get] and [collection.query] answer. *)
Record get_result : Type := {
  get_ids : list str;
  get_documents : list str;
  get_metadatas : list metadata
}.

Record query_result : Type := {
  query_ids : list (list str);
  query_documents : list (list str);
  query_distances : list (list F)
}.

Record collection : Type := {
  coll_get : option where_filter -> outcome get_result;
  coll_query : list F -> Z -> option where_filter -> outcome query_result
}.

(** The services outside the process, as they answer during one call. *)
Record env : Type := {
  now : F;
  get_collection : outcome collection;
  embed_content : str -> outcome (list F);
  generate_content : str -> str -> outcome str;
  generate_content_stream : str -> str -> outcome (list (outcome str));
  redis_reachable : bool
}.

(** The calls that leave the process, in the order they are made. *)
Inductive event : Type :=
| CollectionGet (filter : option where_filter)
| CollectionQuery (n_results : Z) (filter : option where_filter)
| EmbedContent (text : str)
| GenerateContent (model prompt : str)
| GenerateContentStream (model prompt : str)
| RedisGet (key : str)
| RedisSetex (key : str) (ttl : F) (value : str).

(** The attributes of the [RAGService] instance that change. *)
Record rag_service : Type := {
  _bm25_cache : option bm25;
  _bm25_cache_time : option F;
  _bm25_cache_ttl : F;
  _corpus_cache : option (list str);
  _corpus_metadatas : option (list metadata)
}.

(** Instance attributes, module globals, the Redis client with its keys
    (each with its value and the instant it expires), and the calls made. *)
Record world : Type := {
  rag : rag_service;
  _last_working_model : option str;
  _sys_prompt_cache : option str;
  _sys_prompt_cache_time : option F;
  redis_client : option (gmap str (str * F));
  trace : list event
}.

Definition set_rag (r : rag_service) (w : world) : world :=
  {| rag := r; _last_working_model := _last_working_model w;
     _sys_prompt_cache := _sys_prompt_cache w;
     _sys_prompt_cache_time := _sys_prompt_cache_time w;
     redis_client := redis_client w; trace := trace w |}.

Definition set_last_working_model (m : option str) (w : world) : world :=
  {| rag := rag w; _last_working_model := m;
     _sys_prompt_cache := _sys_prompt_cache w;
     _sys_prompt_cache_time := _sys_prompt_cache_time w;
     redis_client := redis_client w; trace := trace w |}.

Definition set_sys_prompt_cache (c : option str) (t : option F) (w : world) : world :=
  {| rag := rag w; _last_working_model := _last_working_model w;
     _sys_prompt_cache := c; _sys_prompt_cache_time := t;
     redis_client := redis_client w; trace := trace w |}.

Definition set_redis (r : option (gmap str (str * F))) (w : world) : world :=
  {| rag := rag w; _last_working_model := _last_working_model w;
     _sys_prompt_cache := _sys_prompt_cache w;
     _sys_prompt_cache_time := _sys_prompt_cache_time w;
     redis_client := r; trace := trace w |}.

Definition add_event (e : event) (w : world) : world :=
  {| rag := rag w; _last_working_model := _last_working_model w;
     _sys_prompt_cache := _sys_prompt_cache w;
     _sys_prompt_cache_time := _sys_prompt_cache_time w;
     redis_client := redis_client w; trace := trace w ++ [e] |}.

(** Computations that read and write the world and can raise; what was
    written before an exception stays written. *)
Definition M (A : Type) : Type := world -> outcome A * world.

Definition ret {A : Type} (a : A) : M A := fun w => (Ok a, w).

Definition bind {A B : Type} (m : M A) (k : A -> M B) : M B :=
  fun w => match m w with
           | (Ok a, w') => k a w'
           | (Raise e, w') => (Raise e, w')
           end.

Definition raise {A : Type} (e : exn) : M A := fun w => (Raise e, w).

Definition lift {A : Type} (o : outcome A) : M A := fun w => (o, w).

Definition try_except {A : Type} (m : M A) (handler : exn -> M A) : M A :=
  fun w => match m w with
           | (Ok a, w') => (Ok a, w')
           | (Raise e, w') => handler e w'
           end.

Definition gets {A : Type} (f : world -> A) : M A := fun w => (Ok (f w), w).

Definition modify (f : world -> world) : M unit := fun w => (Ok tt, f w).

(** An outside call: it is recorded, then it answers. *)
Definition call {A : Type} (e : event) (answer : outcome A) : M A :=
  fun w => (answer, add_event e w).

End Runtime.

Arguments Bm25Lib F : clear implicits.
Arguments CodecLib F : clear implicits.
Arguments world F {_}.
Arguments rag_service F {_}.
Arguments env F : clear implicits.
Arguments event F : clear implicits.
Arguments collection F : clear implicits.
Arguments query_result F : clear implicits.
Arguments M F {_} A.

#[global] Instance M_ret {F : Type} `{Bm25Lib F} : MRet (M F) := @ret F _.
#[global] Instance M_bind {F : Type} `{Bm25Lib F} : MBind (M F) :=
  fun A B k m => bind m k.

End Runtime.

Import Runtime.


(** ** [src/core/semantic_cache.py] *)

Module SemanticCache.
Section SemanticCache.
Context {F : Type} `{PyNum F} `{Bm25Lib F} `{CodecLib F}.

Record SemanticCache : Type := {
  ttl : F;
  cache_prefix : str
}.

Definition init (ttl : F) : SemanticCache :=
  {| ttl := ttl; cache_prefix := lit "rag_cache:" |}.

Definition _generate_cache_key (self : SemanticCache) (query_embedding : list F) : str :=
  let embedding_bytes := dumps_embedding query_embedding in
  let hash_digest := take 16 (sha256_hexdigest embedding_bytes) in
  cache_prefix self ++ hash_digest.

(** [await get_redis()]: the client, or a [TypeError] when there is none. *)
Definition get_redis : M F (gmap str (str * F)) :=
  fun w => match redis_client w with
           | Some db => (Ok db, w)
           | None => (Raise (Exception (lit "TypeError")), w)
           end.

(** Redis's [GET]: the value of a key that has not expired. *)
Definition redis_get (e : env F) (db : gmap str (str * F)) (key : str) : M F (option str) :=
  call (RedisGet key)
    (if redis_reachable e then
       Ok (match db !! key with
           | Some (value, expiry) => if flt (now e) expiry then Some value else None
           | None => None
           end)
     else Raise (Exception (lit "ConnectionError"))).

(** Redis's [SETEX]: the key holds the value for [ttl] seconds from now. *)
Definition redis_setex (e : env F) (db : gmap str (str * F)) (key : str) (ttl : F)
  (value : str) : M F unit :=
  call (RedisSetex key ttl value)
    (if redis_reachable e then Ok tt else Raise (Exception (lit "ConnectionError"))) ;;
  modify (set_redis (Some (<[key := (value, fadd (now e) ttl)]> db))).

Definition get (self : SemanticCache) (e : env F) (query_embedding : list F)
  : M F (option (str * list source_entry)) :=
  try_except
    (redis ← get_redis;
     let cache_key := _generate_cache_key self query_embedding in
     cached_data ← redis_get e redis cache_key;
     match cached_data with
     | Some (c :: cs) =>
       data ← lift (loads_cache_data (c :: cs));
       ret (Some data)
     | _ => ret None
     end)
    (fun _ => ret None).

Definition set (self : SemanticCache) (e : env F) (query_embedding : list F)
  (response : str) (sources : list source_entry) : M F bool :=
  try_except
    (redis ← get_redis;
     let cache_key := _generate_cache_key self query_embedding in
     let cache_data := (response, sources) in
     redis_setex e redis cache_key (ttl self) (dumps_cache_data cache_data) ;;
     ret true)
    (fun _ => ret false).

(** The global instance, [SemanticCache(ttl=3600)]. *)
Definition semantic_cache : SemanticCache := init (of_Z 3600).

End SemanticCache.
End SemanticCache.


(** ** [src/services/rag_service.py] *)

Module Rag.

(** The dataclass [SearchResult]. *)
Record SearchResult (F : Type) : Type := {
  content : str;
  source : str;
  page : Z;
  distance : F;
  score : option F
}.
Arguments content {F} _.
Arguments source {F} _.
Arguments page {F} _.
Arguments distance {F} _.
Arguments score {F} _.

(** One message of the chat history, by the keys the code reads. *)
Record message : Type := {
  msg_role : option str;
  msg_content : option str
}.

(** *** Lists the way Python handles them *)

(** [l[:k]] for an [int] [k]: a negative [k] counts from the end. *)
Definition slice_to {A : Type} (l : list A) (k : Z) : list A :=
  if (0 <=? k)%Z then take (Z.to_nat k) l
  else take (length l - Z.to_nat (- k))%nat l.

(** [l[-5:]] *)
Definition last_five {A : Type} (l : list A) : list A :=
  drop (length l - 5)%nat l.

(** [l[i]], which raises [IndexError] out of range. *)
Definition index {A : Type} (l : list A) (i : nat) : outcome A :=
  match l !! i with
  | Some x => Ok x
  | None => Raise (Exception (lit "IndexError"))
  end.

(** [sep.join(parts)] *)
Fixpoint join (sep : str) (parts : list str) : str :=
  match parts with
  | [] => []
  | [p] => p
  | p :: rest => p ++ sep ++ join sep rest
  end.

(** The stable sort of [list.sort] and [sorted]: [x] is put after the
    elements that must come [before] it and before the first that need not,
    so elements that compare equal keep their order. *)
Fixpoint insert_sorted {A : Type} (before : A -> A -> bool) (x : A) (l : list A) : list A :=
  match l with
  | [] => [x]
  | y :: l' => if before y x then y :: insert_sorted before x l' else x :: y :: l'
  end.

Definition stable_sort {A : Type} (before : A -> A -> bool) (l : list A) : list A :=
  foldr (insert_sorted before) [] l.

Section Numbers.
Context {F : Type} `{PyNum F}.

(** [bool(x)] of a number. *)
Definition truthy (x : F) : bool := flt x (of_Z 0) || flt (of_Z 0) x.

(** [l.sort(key=key, reverse=True)] and [sorted(l, key=key)]. *)
Definition sort_reverse {A : Type} (key : A -> F) (l : list A) : list A :=
  stable_sort (fun y x => flt (key x) (key y)) l.

Definition sorted_by {A : Type} (key : A -> F) (l : list A) : list A :=
  stable_sort (fun y x => flt (key y) (key x)) l.

(** [max(l)]: the first of the greatest elements; [ValueError] on []. *)
Definition py_max (l : list F) : outcome F :=
  match l with
  | [] => Raise (Exception (lit "ValueError"))
  | x :: l' => Ok (foldl (fun m y => if fgt y m then y else m) x l')
  end.

(** [min(a, b)] of two [int]s. *)
Definition py_min (a b : Z) : Z := if (b <? a)%Z then b else a.

End Numbers.

(** *** The service *)

Section Service.
Context {F : Type} `{PyNum F} `{Bm25Lib F} `{CodecLib F} `{Unicode}.

Definition new_rag_service : rag_service F :=
  {| _bm25_cache := None; _bm25_cache_time := None; _bm25_cache_ttl := of_Z 300;
     _corpus_cache := None; _corpus_metadatas := None |}.

(** [generate_embedding]: the error is logged and raised again. *)
Definition generate_embedding (e : env F) (text : str) : M F (list F) :=
  call (EmbedContent text) (embed_content e text).

(** [x or []] *)
Definition or_empty {A : Type} (x : option (list A)) : list A :=
  match x with
  | Some (a :: l) => a :: l
  | _ => []
  end.

(** The test [self._bm25_cache is not None and self._bm25_cache_time is
    not None and current_time - self._bm25_cache_time < self._bm25_cache_ttl]. *)
Definition bm25_cache_valid (current_time : F) (self : rag_service F) : bool :=
  match _bm25_cache self, _bm25_cache_time self with
  | Some _, Some t => flt (fsub current_time t) (_bm25_cache_ttl self)
  | _, _ => false
  end.

Definition _get_bm25_index (e : env F) (coll : collection F)
  (filter_metadata : option where_filter)
  : M F (option bm25 * list str * list metadata) :=
  let current_time := now e in
  self ← gets rag;
  if bm25_cache_valid current_time self then
    ret (_bm25_cache self, or_empty (_corpus_cache self), or_empty (_corpus_metadatas self))
  else
    all_results ← call (CollectionGet filter_metadata) (coll_get coll filter_metadata);
    match get_documents all_results with
    | [] => ret (None, [], [])
    | _ :: _ =>
      let documents := get_documents all_results in
      let metadatas := get_metadatas all_results in
      let tokenized_corpus := map (fun doc => split (lower doc)) documents in
      bm25_index ← lift (BM25Okapi tokenized_corpus);
      modify (set_rag
        {| _bm25_cache := Some bm25_index;
           _bm25_cache_time := Some current_time;
           _bm25_cache_ttl := _bm25_cache_ttl self;
           _corpus_cache := Some documents;
           _corpus_metadatas := Some metadatas |}) ;;
      ret (Some bm25_index, documents, metadatas)
    end.

Definition invalidate_bm25_cache : M F unit :=
  self ← gets rag;
  modify (set_rag
    {| _bm25_cache := None; _bm25_cache_time := None;
       _bm25_cache_ttl := _bm25_cache_ttl self;
       _corpus_cache := None; _corpus_metadatas := None |}).

(** The lookup dict of the vector similarities, keyed by the text of the
    document: a later result with the same text replaces an earlier one. *)
Fixpoint vector_distance_loop (docs : list str) (distances : list (list F)) (i : nat)
  (m : gmap str F) : outcome (gmap str F) :=
  match docs with
  | [] => Ok m
  | doc :: docs' =>
    match index distances 0 with
    | Raise e => Raise e
    | Ok distances0 =>
      match index distances0 i with
      | Raise e => Raise e
      | Ok distance =>
        let similarity := fsub (of_Z 1) (fdiv distance (of_Z 2)) in
        vector_distance_loop docs' distances (S i) (<[doc := similarity]> m)
      end
    end
  end.

Definition vector_distance_map (vector_results : query_result F) : outcome (gmap str F) :=
  match query_documents vector_results with
  | [] => Ok ∅
  | docs0 :: _ => vector_distance_loop docs0 (query_distances vector_results) 0 ∅
  end.

(** The loop that scores every document of the corpus. *)
Fixpoint combine_loop (alpha : F) (documents : list str) (metadatas : list metadata)
  (bm25_scores_norm : list F) (dmap : gmap str F) (i : nat)
  : outcome (list (SearchResult F)) :=
  match documents with
  | [] => Ok []
  | doc :: rest =>
    match (match metadatas with [] => Ok empty_metadata | _ => index metadatas i end) with
    | Raise e => Raise e
    | Ok metadata =>
      match index bm25_scores_norm i with
      | Raise e => Raise e
      | Ok bm25_score =>
        let vector_score := default (of_Z 0) (dmap !! doc) in
        let hybrid_score :=
          fadd (fmul alpha vector_score) (fmul (fsub (of_Z 1) alpha) bm25_score) in
        let r :=
          {| content := doc;
             source := default (lit "Unknown") (md_source metadata);
             page := default 0%Z (md_page metadata);
             distance := fsub (of_Z 1) hybrid_score;
             score := Some hybrid_score |} in
        match combine_loop alpha rest metadatas bm25_scores_norm dmap (S i) with
        | Raise e => Raise e
        | Ok rs => Ok (r :: rs)
        end
      end
    end
  end.

(** The key of the final sort, [x.score if x.score else 0]. *)
Definition score_key (x : SearchResult F) : F :=
  match score x with
  | Some s => if truthy s then s else of_Z 0
  | None => of_Z 0
  end.

Definition hybrid_search_body (e : env F) (query : str) (top_k : Z)
  (filter_metadata : option where_filter) (alpha : F)
  (query_embedding : option (list F)) : M F (list (SearchResult F)) :=
  coll ← lift (get_collection e);
  '(bm25_index, documents, metadatas) ← _get_bm25_index e coll filter_metadata;
  match bm25_index, documents with
  | Some bm25_index, _ :: _ =>
    let tokenized_query := split (lower query) in
    bm25_scores ← lift (get_scores bm25_index tokenized_query);
    m ← lift (py_max bm25_scores);
    let max_bm25 := if fgt m (of_Z 0) then m else of_Z 1 in
    let bm25_scores_norm := map (fun score => fdiv score max_bm25) bm25_scores in
    query_embedding ←
      match query_embedding with
      | None => generate_embedding e query
      | Some q => ret q
      end;
    let n_results := py_min (top_k * 2) (Z.of_nat (length documents)) in
    vector_results ←
      call (CollectionQuery n_results filter_metadata)
           (coll_query coll query_embedding n_results filter_metadata);
    dmap ← lift (vector_distance_map vector_results);
    combined_results ←
      lift (combine_loop alpha documents metadatas bm25_scores_norm dmap 0);
    let combined_results := sort_reverse score_key combined_results in
    ret (slice_to combined_results top_k)
  | _, _ => ret []
  end.

(** Both handlers log and return []. *)
Definition hybrid_search (e : env F) (query : str) (top_k : Z)
  (filter_metadata : option where_filter) (alpha : F)
  (query_embedding : option (list F)) : M F (list (SearchResult F)) :=
  try_except
    (hybrid_search_body e query top_k filter_metadata alpha query_embedding)
    (fun _ => ret []).

Definition rerank_results (query : str) (results : list (SearchResult F)) (top_k : Z)
  : list (SearchResult F) :=
  match results with
  | [] => []
  | _ => slice_to (sorted_by distance results) top_k
  end.

(** *** Context and prompt *)

Definition nl : str := [10].

(** The [content_snippet] of a source. *)
Definition snippet (content : str) : str :=
  if (200 <? length content)%nat then take 200 content ++ lit "..." else content.

(** One block of the context, from the f-string of [build_context]. *)
Definition context_part (i : nat) (result : SearchResult F) : str :=
  lit "[" ++ str_of_Z (Z.of_nat i) ++ lit "] " ++ content result ++ nl ++
  lit "(Nguồn: " ++ source result ++ lit ", trang " ++ str_of_Z (page result) ++ lit ")".

Definition source_of (result : SearchResult F) : source_entry :=
  {| title := source result;
     source_page := page result;
     content_snippet := snippet (content result) |}.

(** The loop [for i, result in enumerate(results, 1)]. *)
Fixpoint build_loop (i : nat) (results : list (SearchResult F))
  : list str * list source_entry :=
  match results with
  | [] => ([], [])
  | result :: rest =>
    let '(context_parts, sources) := build_loop (S i) rest in
    (context_part i result :: context_parts, source_of result :: sources)
  end.

Definition build_context (results : list (SearchResult F)) : str * list source_entry :=
  match results with
  | [] => ([], [])
  | _ =>
    let '(context_parts, sources) := build_loop 1 results in
    (join (nl ++ nl) context_parts, sources)
  end.

Definition DEFAULT_SYSTEM_PROMPT : str :=
  lit "Bạn là một chuyên gia tư vấn tâm lý AI nhân ái, thấu cảm và chuyên nghiệp.

Nhiệm vụ của bạn:
1. Sử dụng thông tin trong [CONTEXT] để trả lời câu hỏi của người dùng.
2. Luôn lắng nghe và xác nhận cảm xúc trước khi đưa lời khuyên.
3. Chỉ trả lời dựa trên kiến thức tâm lý học và context được cung cấp.
4. KHÔNG bịa đặt thông tin không có trong context.

**QUAN TRỌNG - Cách trích dẫn nguồn:**
- Khi sử dụng thông tin từ context, BẮT BUỘC trích dẫn nguồn theo format: "
  ++ [34] ++
  lit "Theo [Tên nguồn], trang X..."
  ++ [34] ++
  lit "
- Ví dụ: "
  ++ [34] ++
  lit "Theo Sổ tay Sơ cứu Tâm lý, trang 45, kỹ thuật thở sâu giúp giảm lo âu..."
  ++ [34] ++
  lit "
- Nếu nguồn không có trang cụ thể, dùng: "
  ++ [34] ++
  lit "Theo [Tên nguồn]..."
  ++ [34] ++
  lit "
- LUÔN trích dẫn ít nhất 1 nguồn khi có thông tin từ context.

6. Trả lời bằng tiếng Việt tự nhiên, ấm áp và dễ hiểu.
7. Nếu không có đủ thông tin trong context, hãy thừa nhận và đề xuất người dùng tìm kiếm chuyên gia.
8. KHÔNG sử dụng HTML tags (như <blockquote>, <p>, <br>, v.v.). Chỉ dùng plain text.

Giọng điệu: Thấu cảm, nhẹ nhàng, không phán xét.".

Definition history_line (msg : message) : str :=
  let role :=
    if bool_decide (msg_role msg = Some (lit "user")) then lit "Người dùng"
    else lit "Trợ lý" in
  role ++ lit ": " ++ default [] (msg_content msg) ++ nl.

Definition build_prompt (system_prompt : option str) (context : str)
  (chat_history : option (list message)) (query : str) : str :=
  let system_prompt := default DEFAULT_SYSTEM_PROMPT system_prompt in
  let prompt :=
    system_prompt ++ nl ++ nl ++ lit "[CONTEXT - Thông tin tham khảo]" ++ nl ++
    context ++ nl ++ nl ++ lit "[LỊCH SỬ HỘI THOẠI]" ++ nl in
  let prompt :=
    match chat_history with
    | Some (m :: ms) =>
      foldl (fun prompt msg => prompt ++ history_line msg) prompt (last_five (m :: ms))
    | _ => prompt
    end in
  prompt ++ nl ++ lit "[CÂU HỎI HIỆN TẠI]" ++ nl ++ lit "Người dùng: " ++ query ++
  nl ++ nl ++ lit "Trợ lý:".

(** *** Generation *)

Definition APOLOGY : str :=
  lit "Xin lỗi, tôi gặp sự cố khi xử lý câu hỏi của bạn. Vui lòng thử lại sau.".

Definition CANDIDATE_MODELS : list str :=
  [ lit "gemini-2.0-flash-exp"; lit "gemini-flash-latest"; lit "gemini-1.5-flash";
    lit "gemini-pro" ].

Definition STREAM_CANDIDATE_MODELS : list str :=
  [ lit "gemini-2.0-flash-exp"; lit "gemini-flash-latest"; lit "gemini-1.5-flash" ].

(** [l.remove(x)]: the first occurrence goes. *)
Fixpoint remove_first (x : str) (l : list str) : list str :=
  match l with
  | [] => []
  | y :: l' => if bool_decide (y = x) then l' else y :: remove_first x l'
  end.

(** The remembered model, when it is a candidate, moves to the front. *)
Definition prioritize (last_working_model : option str) (candidate_models : list str)
  : list str :=
  match last_working_model with
  | Some (c :: m) =>
    if bool_decide ((c :: m) ∈ candidate_models)
    then (c :: m) :: remove_first (c :: m) candidate_models
    else candidate_models
  | _ => candidate_models
  end.

Definition is_char (c : N) : char -> bool := N.eqb c.
Definition ascii_letter (c : char) : bool :=
  ((65 <=? c) && (c <=? 90)) || ((97 <=? c) && (c <=? 122)).
Definition ascii_alnum (c : char) : bool := ascii_letter c || ((48 <=? c) && (c <=? 57)).
Definition not_gt (c : char) : bool := negb (c =? 62).

(** [</?[a-zA-Z][a-zA-Z0-9]*[^>]*/?>] *)
Definition TAG_PATTERN : list item :=
  [ One (is_char 60); Opt (is_char 47); One ascii_letter; Star ascii_alnum;
    Star not_gt; Opt (is_char 47); One (is_char 62) ].

(** [</?\s*\w+\s*>] *)
Definition LOOSE_TAG_PATTERN : list item :=
  [ One (is_char 60); Opt (is_char 47); Star is_space; Plus is_word; Star is_space;
    One (is_char 62) ].

Definition sanitize (generated_text : str) : str :=
  let generated_text := re_sub_empty TAG_PATTERN generated_text in
  let generated_text := re_sub_empty LOOSE_TAG_PATTERN generated_text in
  strip generated_text.

(** The loop over the candidate models: the first that answers is
    remembered and its sanitized text returned; [None] when all failed. *)
Fixpoint try_models (e : env F) (prompt : str) (candidate_models : list str)
  : M F (option str) :=
  match candidate_models with
  | [] => ret None
  | model_name :: rest =>
    try_except
      (generated_text ←
         call (GenerateContent model_name prompt) (generate_content e model_name prompt);
       let generated_text := sanitize generated_text in
       modify (set_last_working_model (Some model_name)) ;;
       ret (Some generated_text))
      (fun _ => try_models e prompt rest)
  end.

Definition generate_response (e : env F) (query context : str)
  (chat_history : option (list message)) (system_prompt : option str) : M F str :=
  try_except
    (let prompt := build_prompt system_prompt context chat_history query in
     last ← gets _last_working_model;
     let candidate_models := prioritize last CANDIDATE_MODELS in
     r ← try_models e prompt candidate_models;
     match r with
     | Some generated_text => ret generated_text
     | None => ret APOLOGY
     end)
    (fun _ => ret APOLOGY).

(** The loop that connects: the iterator of the first model that answers. *)
Fixpoint connect_stream (e : env F) (prompt : str) (candidate_models : list str)
  : M F (option (list (outcome str))) :=
  match candidate_models with
  | [] => ret None
  | model_name :: rest =>
    try_except
      (response_iterator ←
         call (GenerateContentStream model_name prompt)
              (generate_content_stream e model_name prompt);
       ret (Some response_iterator))
      (fun _ => connect_stream e prompt rest)
  end.

(** The loop over the iterator: the texts yielded, and the exception that
    ended the loop when one did. An element of the iterator is the [text]
    of a chunk, or the exception raised on the way to it. *)
Fixpoint stream_chunks (it : list (outcome str)) : list str * option exn :=
  match it with
  | [] => ([], None)
  | Raise ex :: _ => ([], Some ex)
  | Ok text :: rest =>
    let '(yielded, ex) := stream_chunks rest in
    (match text with [] => yielded | _ => text :: yielded end, ex)
  end.

(** The generator, as the list of what it yields. *)
Definition generate_response_stream (e : env F) (query context : str)
  (chat_history : option (list message)) (system_prompt : option str)
  : M F (list str) :=
  let prompt := build_prompt system_prompt context chat_history query in
  response_iterator ← connect_stream e prompt STREAM_CANDIDATE_MODELS;
  match response_iterator with
  | None => ret [APOLOGY]
  | Some it =>
    let '(yielded, ex) := stream_chunks it in
    match ex with
    | None => ret yielded
    | Some _ => ret (yielded ++ [APOLOGY])
    end
  end.

(** *** The system prompt of the configuration store *)

(** A database session, by what its query for [sys_prompt] answers: the
    value of the row, no row, or an exception. *)
Definition db_session : Type := outcome (option str).

Definition load_sys_prompt (e : env F) (db : db_session) : M F (option str) :=
  let current_time := now e in
  cache ← gets _sys_prompt_cache;
  cache_time ← gets _sys_prompt_cache_time;
  let valid :=
    match cache, cache_time with
    | Some _, Some t => flt (fsub current_time t) (of_Z 300)
    | _, _ => false
    end in
  if valid then ret cache
  else
    try_except
      (setting ← lift db;
       match setting with
       | Some (c :: v) =>
         modify (set_sys_prompt_cache (Some (c :: v)) (Some current_time)) ;;
         ret (Some (c :: v))
       | _ =>
         modify (set_sys_prompt_cache cache (Some current_time)) ;;
         ret None
       end)
      (fun _ => ret None).

(** *** The pipeline *)

Definition NO_CONTEXT_RESPONSE : str :=
  lit "Xin lỗi, tôi không tìm thấy thông tin phù hợp trong cơ sở kiến thức của mình để trả lời câu hỏi này.

Tôi khuyến khích bạn:
- Liên hệ với chuyên gia tâm lý để được tư vấn trực tiếp
- Đặt câu hỏi khác hoặc diễn đạt lại câu hỏi
- Chia sẻ thêm về tình huống của bạn để tôi có thể hỗ trợ tốt hơn".

Definition PIPELINE_APOLOGY : str := lit "Xin lỗi, có lỗi xảy ra. Vui lòng thử lại.".

Definition rag_query (e : env F) (query : str) (chat_history : option (list message))
  (top_k : Z) (use_cache : bool) (db : option db_session)
  : M F (str * list source_entry) :=
  try_except
    (query_embedding ← generate_embedding e query;
     cached_result ←
       (if use_cache
        then SemanticCache.get SemanticCache.semantic_cache e query_embedding
        else ret None);
     match cached_result with
     | Some (response_text, sources) => ret (response_text, sources)
     | None =>
       search_results ←
         hybrid_search e query 10 None (fdiv (of_Z 1) (of_Z 2)) (Some query_embedding);
       let top_results := rerank_results query search_results top_k in
       let '(context, sources) := build_context top_results in
       custom_sys_prompt ←
         match db with
         | Some session => load_sys_prompt e session
         | None => ret None
         end;
       '(response, sources) ←
         match context with
         | _ :: _ =>
           response ← generate_response e query context chat_history custom_sys_prompt;
           ret (response, sources)
         | [] => ret (NO_CONTEXT_RESPONSE, [])
         end;
       (match use_cache, context with
        | true, _ :: _ =>
          SemanticCache.set SemanticCache.semantic_cache e query_embedding response sources ;;
          ret tt
        | _, _ => ret tt
        end) ;;
       ret (response, sources)
     end)
    (fun _ => ret (PIPELINE_APOLOGY, [])).

End Service.
End Rag.

(** * The specification, in its words

    The notions the properties are stated with: what the specification
    asks of a result, and what a run leaves behind. *)

Module Spec.
Import Rag.

Section Words.
Context `{Unicode}.

(** The character before the position that follows [l], when [prev] is the
    character before [l]. *)
Definition last_or (prev : option char) (l : str) : option char :=
  match last l with
  | Some c => Some c
  | None => prev
  end.

End Words.

Section Assembler.
Context {F : Type}.

(** The block of the specification for the [i]-th result, with the two
    labels left open: [[i] <chunk text>\n(<Source>: <source>, <page> <page>)]. *)
Definition labelled_block (source_label page_label : str) (i : nat)
  (r : SearchResult F) : str :=
  lit "[" ++ str_of_Z (Z.of_nat i) ++ lit "] " ++ content r ++ [10] ++
  lit "(" ++ source_label ++ lit ": " ++ source r ++ lit ", " ++ page_label ++ lit " " ++
  str_of_Z (page r) ++ lit ")".

(** The snippet of the specification: the text when it has at most 200
    characters, else its first 200 characters and the ellipsis. *)
Definition spec_snippet (text : str) : str :=
  if bool_decide (length text <= 200)%nat then text else take 200 text ++ lit "...".

Definition spec_source (r : SearchResult F) : source_entry :=
  {| title := source r; source_page := page r;
     content_snippet := spec_snippet (content r) |}.

(** The context of the specification: the blocks, numbered from 1, with a
    blank line between two of them, and the parallel list of sources. *)
Definition spec_context (source_label page_label : str)
  (results : list (SearchResult F)) : str * list source_entry :=
  (join [10; 10] (imap (fun i => labelled_block source_label page_label (S i)) results),
   map spec_source results).

End Assembler.

(** [x] need not come [before] [y]: the order a sorted list keeps. *)
Definition in_order {A : Type} (before : A -> A -> bool) (x y : A) : Prop :=
  before y x = false.

Section Effects.
Context {F : Type} `{PyNum F} `{Bm25Lib F}.

Definition is_setex (ev : event F) : bool :=
  match ev with
  | RedisSetex _ _ _ => true
  | _ => false
  end.

(** [w'] comes after [w] with no cache entry written in between: the
    keys of Redis are what they were, and no [SETEX] is among the calls
    made since. *)
Definition cache_untouched (w w' : world F) : Prop :=
  redis_client w' = redis_client w /\
  exists new, trace w' = trace w ++ new /\ Forall (fun ev => is_setex ev = false) new.

(** A computation that writes no cache entry. *)
Definition writes_no_cache {A : Type} (m : M F A) : Prop :=
  forall w, cache_untouched w (m w).2.

(** The world after the calls to the models [ms], in this order. *)
Definition after_attempts (prompt : str) (ms : list str) (w : world F) : world F :=
  foldl (fun w m => add_event (GenerateContent m prompt) w) w ms.

Definition after_connections (prompt : str) (ms : list str) (w : world F) : world F :=
  foldl (fun w m => add_event (GenerateContentStream m prompt) w) w ms.

Definition fails {A : Type} (o : outcome A) : Prop := exists ex, o = Raise ex.

End Effects.

Section Retrieval.
Context {F : Type} `{PyNum F} `{Bm25Lib F} `{Unicode}.

(** [m] is a greatest element of [l]. *)
Definition is_maximum (m : F) (l : list F) : Prop :=
  m ∈ l /\ forall x, x ∈ l -> fle x m = true.

(** [doc.lower().split()] over the corpus. *)
Definition tokenize_corpus (documents : list str) : list (list str) :=
  map (fun doc => split (lower doc)) documents.

(** The world after a rebuild at [current_time] that fetched [res]. *)
Definition rebuilt (current_time : F) (filter_metadata : option where_filter)
  (res : get_result) (index : bm25) (w : world F) : world F :=
  set_rag
    {| _bm25_cache := Some index;
       _bm25_cache_time := Some current_time;
       _bm25_cache_ttl := _bm25_cache_ttl (rag w);
       _corpus_cache := Some (get_documents res);
       _corpus_metadatas := Some (get_metadatas res) |}
    (add_event (CollectionGet filter_metadata) w).

(** The fused score of the specification. *)
Definition fused (alpha vector_similarity lexical_similarity : F) : F :=
  fadd (fmul alpha vector_similarity) (fmul (fsub (of_Z 1) alpha) lexical_similarity).

(** The similarity of a distance, [1 - d/2]. *)
Definition similarity (d : F) : F := fsub (of_Z 1) (fdiv d (of_Z 2)).

(** The divisor of the normalisation: the maximum when it is positive,
    else 1. *)
Definition norm_divisor (m : F) : F := if flt (of_Z 0) m then m else of_Z 1.

(** The documents and the distances of the answer to the one query. *)
Definition result_documents (vres : query_result F) : list str :=
  default [] (head (query_documents vres)).

Definition result_distances (vres : query_result F) : list F :=
  default [] (head (query_distances vres)).

(** The vector similarity of a chunk, by its text: that of the last result
    of the vector query with this text, and 0 when no result has it. *)
Definition text_similarity (vdocs : list str) (vdists : list F) (doc : str) : F :=
  match last (filter (fun p => p.1 = doc) (zip vdocs vdists)) with
  | Some p => similarity p.2
  | None => of_Z 0
  end.

Definition metadata_at (metadatas : list metadata) (i : nat) : metadata :=
  match metadatas with
  | [] => empty_metadata
  | _ => default empty_metadata (metadatas !! i)
  end.

(** The result for one chunk of the corpus. *)
Definition scored_chunk (alpha : F) (vector_similarity : str -> F)
  (doc : str) (md : metadata) (lexical_similarity : F) : SearchResult F :=
  let s := fused alpha (vector_similarity doc) lexical_similarity in
  {| content := doc;
     source := default (lit "Unknown") (md_source md);
     page := default 0%Z (md_page md);
     distance := fsub (of_Z 1) s;
     score := Some s |}.

(** Every chunk of the corpus with its fused score, in corpus order. *)
Definition scored_corpus (alpha : F) (vector_similarity : str -> F)
  (documents : list str) (metadatas : list metadata) (lexical : list F)
  : list (SearchResult F) :=
  imap (fun i doc =>
          scored_chunk alpha vector_similarity doc (metadata_at metadatas i)
                       (default (of_Z 0) (lexical !! i)))
       documents.

Definition fused_score (r : SearchResult F) : F := default (of_Z 0) (score r).

(** The retrieval of the specification, in its words, where a chunk is in
    the vector result set when its id is among the ids of the results: its
    vector similarity is then [1 - d/2] for its distance there, and 0
    otherwise. *)
Definition id_similarity (result_ids : list str) (vdists : list F) (chunk_id : str) : F :=
  match last (filter (fun p => p.1 = chunk_id) (zip result_ids vdists)) with
  | Some p => similarity p.2
  | None => of_Z 0
  end.

Definition spec_hybrid_search (alpha : F) (top_k : nat) (corpus : get_result)
  (vres : query_result F) (scores : list F) : list (SearchResult F) :=
  match py_max scores with
  | Raise _ => []
  | Ok m =>
    let result_ids := default [] (head (query_ids vres)) in
    let scored :=
      imap (fun i doc =>
              scored_chunk alpha
                (fun _ => id_similarity result_ids (result_distances vres)
                                        (default [] (get_ids corpus !! i)))
                doc (metadata_at (get_metadatas corpus) i)
                (fdiv (default (of_Z 0) (scores !! i)) (norm_divisor m)))
           (get_documents corpus) in
    take top_k (sort_reverse fused_score scored)
  end.

End Retrieval.

End Spec.

Import Spec.

(** ** Stand-ins for the libraries

    Exact rationals for the numbers, a term-count scorer for [rank_bm25]
    and a length-prefixed encoding for [json]: enough to run the services
    on concrete inputs. *)

Module Standin.

#[global] Instance Q_num : PyNum Q := {|
  fadd := Qplus;
  fsub := Qminus;
  fmul := Qmult;
  fdiv := Qdiv;
  flt x y := negb (Qle_bool y x);
  of_Z z := inject_Z z
|}.

(** The score of a document: how many of its tokens are query tokens. *)
Definition count_scores (corpus : list (list str)) (query : list str) : list Q :=
  map (fun doc =>
         inject_Z (Z.of_nat (length (filter (fun t => t ∈ query) doc))))
      corpus.

#[global] Instance count_bm25 : Bm25Lib Q := {|
  bm25 := list (list str);
  BM25Okapi corpus := Ok corpus;
  get_scores index query := Ok (count_scores index query)
|}.

Definition enc_str (s : str) : str := N.of_nat (length s) :: s.

Definition enc_Z (z : Z) : str := [if (z <? 0)%Z then 1 else 0; Z.abs_N z].

Definition enc_entry (x : source_entry) : str :=
  enc_str (title x) ++ enc_Z (source_page x) ++ enc_str (content_snippet x).

Definition enc_cache_data (d : str * list source_entry) : str :=
  enc_str (fst d) ++ N.of_nat (length (snd d)) :: concat (map enc_entry (snd d)).

Definition dec_str (t : str) : option (str * str) :=
  match t with
  | n :: r =>
    if (N.to_nat n <=? length r)%nat then Some (take (N.to_nat n) r, drop (N.to_nat n) r)
    else None
  | [] => None
  end.

Definition dec_Z (t : str) : option (Z * str) :=
  match t with
  | sign :: a :: r => Some (if sign =? 1 then (- Z.of_N a)%Z else Z.of_N a, r)
  | _ => None
  end.

Definition dec_entry (t : str) : option (source_entry * str) :=
  '(ti, r) ← dec_str t;
  '(pg, r) ← dec_Z r;
  '(sn, r) ← dec_str r;
  Some ({| title := ti; source_page := pg; content_snippet := sn |}, r).

Fixpoint dec_entries (n : nat) (t : str) : option (list source_entry) :=
  match n with
  | O => match t with [] => Some [] | _ => None end
  | S n' =>
    '(x, r) ← dec_entry t;
    xs ← dec_entries n' r;
    Some (x :: xs)
  end.

Definition dec_cache_data (t : str) : outcome (str * list source_entry) :=
  match dec_str t with
  | Some (response, n :: r) =>
    match dec_entries (N.to_nat n) r with
    | Some sources => Ok (response, sources)
    | None => Raise (Exception (lit "JSONDecodeError"))
    end
  | _ => Raise (Exception (lit "JSONDecodeError"))
  end.

(** The digest stand-in is the text itself, the embedding dump its
    numerators and denominators. *)
#[global] Instance plain_codec : CodecLib Q := {|
  dumps_embedding e :=
    concat (map (fun q : Q => [Z.abs_N (Qnum q); if (Qnum q <? 0)%Z then 1 else 0; Npos (Qden q)]) e);
  sha256_hexdigest t := t;
  dumps_cache_data := enc_cache_data;
  loads_cache_data := dec_cache_data
|}.

#[global] Existing Instance Ascii7.ascii_unicode.

End Standin.

(** ** Concrete inputs *)

Module Inputs.
Import Standin Rag.

Definition fresh_world : world Q :=
  {| rag := new_rag_service; _last_working_model := None;
     _sys_prompt_cache := None; _sys_prompt_cache_time := None;
     redis_client := Some ∅; trace := [] |}.

Definition md (s : string) (p : Z) : metadata :=
  {| md_source := Some (lit s); md_page := Some p |}.

(** A corpus of five chunks, the first two with the same text, from two
    files. *)
Definition corpus5 : get_result :=
  {| get_ids := [lit "d1_0"; lit "d2_0"; lit "d3_0"; lit "d4_0"; lit "d5_0"];
     get_documents := [lit "a x"; lit "a x"; lit "b y"; lit "c z"; lit "x y"];
     get_metadatas := [md "d1" 1; md "d2" 1; md "d3" 1; md "d4" 1; md "d5" 1] |}.

(** The four nearest chunks of the query. The first chunk is the fourth of
    them; its twin is as far from the query, and the limit of four results
    leaves it out. *)
Definition nearest4 : query_result Q :=
  {| query_ids := [[lit "d3_0"; lit "d4_0"; lit "d5_0"; lit "d1_0"]];
     query_documents := [[lit "b y"; lit "c z"; lit "x y"; lit "a x"]];
     query_distances := [[0; 1 # 5; 2 # 5; 1]%Q] |}.

Definition index5 : @bm25 Q count_bm25 := tokenize_corpus (get_documents corpus5).

Definition store5 : collection Q :=
  {| coll_get _ := Ok corpus5; coll_query _ _ _ := Ok nearest4 |}.

Definition env5 (t : Q) : env Q :=
  {| now := t;
     get_collection := Ok store5;
     embed_content _ := Ok [1 # 2]%Q;
     generate_content _ _ := Raise (Exception (lit "503"));
     generate_content_stream _ _ := Raise (Exception (lit "503"));
     redis_reachable := true |}.

(** An empty store, and a call of the pipeline on it. *)
Definition store0 : collection Q :=
  {| coll_get _ := Ok {| get_ids := []; get_documents := []; get_metadatas := [] |};
     coll_query _ _ _ := Ok {| query_ids := [[]]; query_documents := [[]];
                               query_distances := [[]] |} |}.

Definition env0 (t : Q) : env Q :=
  {| now := t;
     get_collection := Ok store0;
     embed_content _ := Ok [1 # 2]%Q;
     generate_content _ _ := Ok (lit "ok");
     generate_content_stream _ _ := Ok [Ok (lit "ok")];
     redis_reachable := true |}.

Definition entry1 : source_entry :=
  {| title := lit "d1"; source_page := 3%Z; content_snippet := lit "a x" |}.

Definition only_category (c : string) : option where_filter :=
  Some {[ lit "category" := lit c ]}.

(** A store that holds nothing of the category [B]. *)
Definition store_without_b : collection Q :=
  {| coll_get f :=
       if bool_decide (f = only_category "B")
       then Ok {| get_ids := []; get_documents := []; get_metadatas := [] |}
       else Ok corpus5;
     coll_query _ _ _ := Ok nearest4 |}.

(** A model that answers with markup, at once and as a stream. *)
Definition env_tags : env Q :=
  {| now := 100%Q;
     get_collection := Ok store5;
     embed_content _ := Ok [1 # 2]%Q;
     generate_content _ _ := Ok (lit "<p>Xin <b>chao</b></p>");
     generate_content_stream _ _ := Ok [Ok (lit "<p>Xin "); Ok (lit "<b>chao</b></p>")];
     redis_reachable := true |}.

End Inputs.

(** * The rest of the services

    The functions around the ones above: the settings of the safety gate
    and their validation, the emotion tagger, the clearing of the result
    cache and the connection to the document store. *)
(** ** JSON values, as [json.loads] builds them *)

Module Json.

(** [None], [bool], numbers (by their literal), [str], [list] and [dict]
    (its items in insertion order). *)
#[warnings="-register-all"]
Inductive json : Type :=
| JNull
| JBool (b : bool)
| JNumber (literal : str)
| JString (s : str)
| JArray (items : list json)
| JObject (members : list (str * json)).

(** What [json.loads] does with a text: the value, a [JSONDecodeError]
    with its message, or another exception. *)
Inductive loads_result : Type :=
| Loaded (value : json)
| JSONDecodeError (msg : str)
| LoadsError (e : exn).

Class JsonLib : Type := {
  json_loads : str -> loads_result
}.

(** [len(x)], a [TypeError] on [None], [bool] and numbers. *)
Definition py_len (x : json) : outcome nat :=
  match x with
  | JString s => Ok (length s)
  | JArray items => Ok (length items)
  | JObject members => Ok (length members)
  | _ => Raise (Exception (lit "TypeError"))
  end.

(** [key in d] for a dict [d]. *)
Definition has_key (key : str) (members : list (str * json)) : bool :=
  bool_decide (key ∈ members.*1).

(** [isinstance(x, dict)] *)
Definition is_dict (x : json) : bool :=
  match x with JObject _ => true | _ => false end.

End Json.

Import Json.

(** ** More of the strings *)

Module PyStr.

(** [t.split(sep)] for a separator of one character: the pieces between
    the separators, empty pieces included. *)
Fixpoint split_on (sep : char) (t : str) : list str :=
  match t with
  | [] => [[]]
  | c :: t' =>
    if c =? sep then [] :: split_on sep t'
    else match split_on sep t' with
         | piece :: pieces => (c :: piece) :: pieces
         | [] => [[c]]
         end
  end.

(** [k in t] for two strings: [k] stands somewhere in [t]. *)
Fixpoint contains (t k : str) : bool :=
  bool_decide (k `prefix_of` t) ||
  match t with
  | [] => false
  | _ :: t' => contains t' k
  end.

(** [str(e)] of an exception. *)
Definition exn_str (e : exn) : str :=
  match e with
  | VectorStoreError msg => msg
  | Exception msg => msg
  end.

End PyStr.

Import PyStr.

(** ** [src/core/safety.py]: the settings of the safety gate *)

Module SafetySettings.
Section SafetySettings.
Context {F : Type} `{PyNum F} `{Unicode} `{JsonLib}.

Definition DEFAULT_CRISIS_HOTLINES : json :=
  JArray [
    JObject [(lit "name", JString (lit "Đường dây nóng tâm lý - Trung tâm Phòng chống Tự tử")); (lit "number", JString (lit "1800 599 913")); (lit "available", JString (lit "24/7"))];
    JObject [(lit "name", JString (lit "Cấp cứu khẩn cấp")); (lit "number", JString (lit "115")); (lit "available", JString (lit "24/7"))];
    JObject [(lit "name", JString (lit "Tổng đài tư vấn tâm lý")); (lit "number", JString (lit "1800 599 913")); (lit "available", JString (lit "24/7"))] ].

Definition _SOS_CACHE_TTL : F := of_Z 300.
Definition _HOTLINES_CACHE_TTL : F := of_Z 300.

(** The database session, by what its query for the setting of a key
    answers: the value of the row, no row, or an exception. *)
Definition settings_db : Type := str -> outcome (option str).

(** The globals of the module, and the keys asked of the database so far.
    [None] in [_crisis_hotlines_cache] is [JNull]. *)
Record safety_state : Type := {
  _sos_keywords_cache : option (list str);
  _sos_keywords_cache_time : option F;
  _crisis_hotlines_cache : json;
  _crisis_hotlines_cache_time : option F;
  asked : list str
}.

Definition set_sos_keywords_cache (keywords : list str) (t : F) (s : safety_state)
  : safety_state :=
  {| _sos_keywords_cache := Some keywords; _sos_keywords_cache_time := Some t;
     _crisis_hotlines_cache := _crisis_hotlines_cache s;
     _crisis_hotlines_cache_time := _crisis_hotlines_cache_time s;
     asked := asked s |}.

Definition set_crisis_hotlines_cache (hotlines : json) (t : F) (s : safety_state)
  : safety_state :=
  {| _sos_keywords_cache := _sos_keywords_cache s;
     _sos_keywords_cache_time := _sos_keywords_cache_time s;
     _crisis_hotlines_cache := hotlines; _crisis_hotlines_cache_time := Some t;
     asked := asked s |}.

Definition ask (key : str) (s : safety_state) : safety_state :=
  {| _sos_keywords_cache := _sos_keywords_cache s;
     _sos_keywords_cache_time := _sos_keywords_cache_time s;
     _crisis_hotlines_cache := _crisis_hotlines_cache s;
     _crisis_hotlines_cache_time := _crisis_hotlines_cache_time s;
     asked := asked s ++ [key] |}.

Definition load_sos_keywords (current_time : F) (db : settings_db) (s : safety_state)
  : list str * safety_state :=
  let cached :=
    match _sos_keywords_cache s, _sos_keywords_cache_time s with
    | Some cache, Some t =>
      if flt (fsub current_time t) _SOS_CACHE_TTL then Some cache else None
    | _, _ => None
    end in
  match cached with
  | Some cache => (cache, s)
  | None =>
    let s := ask (lit "sos_keywords") s in
    match db (lit "sos_keywords") with
    | Ok setting =>
      let keywords :=
        match setting with
        | Some (c :: value) =>
          map strip (filter (fun kw => strip kw <> []) (split_on 44 (c :: value)))
        | _ => Safety.DEFAULT_SOS_KEYWORDS
        end in
      (keywords, set_sos_keywords_cache keywords current_time s)
    | Raise _ => (Safety.DEFAULT_SOS_KEYWORDS, s)
    end
  end.

Definition load_crisis_hotlines (current_time : F) (db : settings_db) (s : safety_state)
  : json * safety_state :=
  let cached :=
    match _crisis_hotlines_cache s, _crisis_hotlines_cache_time s with
    | JNull, _ => None
    | cache, Some t =>
      if flt (fsub current_time t) _HOTLINES_CACHE_TTL then Some cache else None
    | _, None => None
    end in
  match cached with
  | Some cache => (cache, s)
  | None =>
    let s := ask (lit "crisis_hotlines") s in
    match db (lit "crisis_hotlines") with
    | Ok (Some (c :: value)) =>
      match json_loads (c :: value) with
      | Loaded hotlines =>
        let s := set_crisis_hotlines_cache hotlines current_time s in
        (* the log line takes [len(hotlines)] *)
        match py_len hotlines with
        | Ok _ => (hotlines, s)
        | Raise _ => (DEFAULT_CRISIS_HOTLINES, s)
        end
      | JSONDecodeError _ => (DEFAULT_CRISIS_HOTLINES, s)
      | LoadsError _ => (DEFAULT_CRISIS_HOTLINES, s)
      end
    | Ok _ =>
      (DEFAULT_CRISIS_HOTLINES, set_crisis_hotlines_cache DEFAULT_CRISIS_HOTLINES current_time s)
    | Raise _ => (DEFAULT_CRISIS_HOTLINES, s)
    end
  end.

(** The dict [get_crisis_response] returns. *)
Record crisis_response : Type := {
  is_crisis : bool;
  message : str;
  hotlines : json;
  additional_resources : list str
}.

Definition CRISIS_MESSAGE : str :=
  lit "Chúng tôi rất lo lắng cho bạn. Những suy nghĩ này có thể rất đau đớn, nhưng xin hãy nhớ rằng bạn không đơn độc và có những người sẵn sàng hỗ trợ bạn. " ++ [10] ++ [10] ++ lit "Chúng tôi khuyến khích bạn liên hệ ngay với các đường dây nóng chuyên nghiệp bên dưới. Họ có chuyên gia được đào tạo để lắng nghe và giúp đỡ bạn vượt qua giai đoạn khó khăn này.".

Definition ADDITIONAL_RESOURCES : list str :=
  [ lit "Hãy nói chuyện với người thân, bạn bè mà bạn tin tưởng";
    lit "Tìm đến bác sĩ tâm lý hoặc bệnh viện có khoa tâm thần gần nhất";
    lit "Không tự ý ngừng dùng thuốc nếu đang điều trị" ].

Definition get_crisis_response (hotlines : json) : crisis_response :=
  let hotlines :=
    match hotlines with
    | JNull => DEFAULT_CRISIS_HOTLINES
    | _ => hotlines
    end in
  {| is_crisis := true; message := CRISIS_MESSAGE; hotlines := hotlines;
     additional_resources := ADDITIONAL_RESOURCES |}.

End SafetySettings.

Arguments safety_state F : clear implicits.

End SafetySettings.

(** ** [src/api/v1/admin/config.py]: the validation of a setting *)

Module AdminConfig.
Section AdminConfig.
Context `{Unicode} `{JsonLib}.

(** How a handler ends: it returns, it raises [HTTPException], or another
    exception escapes. *)
Inductive http_result (A : Type) : Type :=
| Returns (a : A)
| HTTPException (status_code : Z) (detail : str)
| Escapes (e : exn).
Arguments Returns {A} a.
Arguments HTTPException {A} status_code detail.
Arguments Escapes {A} e.

(** The loop over the hotlines: the message of the first [ValueError]. *)
Fixpoint check_hotlines (hotlines : list json) : option str :=
  match hotlines with
  | [] => None
  | hotline :: rest =>
    match hotline with
    | JObject members =>
      if negb (has_key (lit "name") members) || negb (has_key (lit "number") members)
      then Some (lit "Each hotline must have 'name' and 'number' fields")
      else check_hotlines rest
    | _ => Some (lit "Each hotline must be an object")
    end
  end.

Definition _validate_config_value (key value : str) : http_result unit :=
  if bool_decide (key = lit "crisis_hotlines") then
    match json_loads value with
    | Loaded hotlines =>
      match hotlines with
      | JArray items =>
        match check_hotlines items with
        | None => Returns tt
        | Some msg => HTTPException 400 (lit "Invalid crisis_hotlines format: " ++ msg)
        end
      | _ =>
        HTTPException 400
          (lit "Invalid crisis_hotlines format: " ++ lit "Must be a JSON array")
      end
    | JSONDecodeError msg =>
      HTTPException 400 (lit "Invalid crisis_hotlines format: " ++ msg)
    | LoadsError e => Escapes e
    end
  else if bool_decide (key = lit "sos_keywords") then
    match value, strip value with
    | _ :: _, _ :: _ =>
      let keywords := map strip (split_on 44 value) in
      if (length keywords <? 3)%nat
      then HTTPException 400 (lit "Must have at least 3 SOS keywords for safety")
      else Returns tt
    | _, _ => HTTPException 400 (lit "SOS keywords cannot be empty")
    end
  else if bool_decide (key = lit "sys_prompt") then
    match value with
    | [] => HTTPException 400 (lit "System prompt must be at least 50 characters")
    | _ :: _ =>
      if (length (strip value) <? 50)%nat
      then HTTPException 400 (lit "System prompt must be at least 50 characters")
      else if (5000 <? length value)%nat
      then HTTPException 400 (lit "System prompt too long (max 5000 characters)")
      else Returns tt
    end
  else Returns tt.

End AdminConfig.

Arguments Returns {A} a.
Arguments HTTPException {A} status_code detail.
Arguments Escapes {A} e.

End AdminConfig.

(** ** [src/api/v1/chat.py]: the keywords named in the audit record *)

Module Chat.
Section Chat.
Context `{Unicode}.

(** [[kw for kw in sos_keywords if kw.lower() in body.content.lower()]] *)
Definition detected_keywords (sos_keywords : list str) (content : str) : list str :=
  filter (fun kw => contains (lower content) (lower kw) = true) sos_keywords.

End Chat.
End Chat.

(** ** [src/core/emotion.py] *)

Module Emotion.
Section Emotion.
Context `{Unicode}.

Definition EMOTION_KEYWORDS : list (str * list str) :=
  [
    (lit "sad",
     [lit "buồn"; lit "chán"; lit "thất vọng"; lit "tuyệt vọng"; lit "cô đơn"; lit "mệt mỏi"; lit "kiệt sức"; lit "chán nản"; lit "sầu"; lit "u buồn"; lit "đau khổ"; lit "khổ tâm"; lit "nước mắt"; lit "khóc"]);
    (lit "angry",
     [lit "tức"; lit "giận"; lit "phẫn nộ"; lit "bực"; lit "cáu"; lit "ghét"; lit "khó chịu"; lit "bực mình"; lit "điên tiết"; lit "nổi điên"]);
    (lit "anxious",
     [lit "lo lắng"; lit "lo âu"; lit "sợ"; lit "sợ hãi"; lit "hoảng sợ"; lit "căng thẳng"; lit "áp lực"; lit "stress"; lit "bồn chồn"; lit "hồi hộp"; lit "run rẩy"; lit "hoang mang"; lit "bất an"; lit "day dứt"]);
    (lit "happy",
     [lit "vui"; lit "hạnh phúc"; lit "vui vẻ"; lit "phấn khởi"; lit "hài lòng"; lit "sướng"; lit "thoải mái"; lit "tốt"; lit "vui mừng"; lit "hân hoan"; lit "tuyệt vời"; lit "tích cực"]);
    (lit "neutral",
     []) ].

(** [len(re.findall(its, t))]: the matches are counted from left to right,
    each starting where the one before ended; [skip] counts the characters
    of the current match still to pass. *)
Fixpoint count_from (its : list item) (skip : nat) (prev : option char) (t : str) : nat :=
  match t with
  | [] =>
    match skip, match_here its prev [] with
    | O, Some _ => 1
    | _, _ => 0
    end
  | c :: t' =>
    match skip with
    | S k => count_from its k (Some c) t'
    | O =>
      match match_here its prev t with
      | Some (S k) => S (count_from its k (Some c) t')
      | Some O => S (count_from its O (Some c) t')
      | None => count_from its O (Some c) t'
      end
    end
  end.

Definition findall_count (its : list item) (t : str) : nat := count_from its O None t.

(** The inner loop: the matches of all the keywords of one emotion. *)
Definition emotion_score (keywords : list str) (text_lower : str) : nat :=
  foldl (fun score keyword =>
           let pattern := [WordBoundary] ++ re_escape keyword ++ [WordBoundary] in
           let matches := findall_count pattern text_lower in
           (score + matches)%nat)
        0%nat keywords.

(** The outer loop: the dict [emotion_scores], in the order of insertion. *)
Fixpoint score_emotions (table : list (str * list str)) (text_lower : str)
  : list (str * nat) :=
  match table with
  | [] => []
  | (emotion, keywords) :: rest =>
    if bool_decide (emotion = lit "neutral") then score_emotions rest text_lower
    else
      let score := emotion_score keywords text_lower in
      if (0 <? score)%nat then (emotion, score) :: score_emotions rest text_lower
      else score_emotions rest text_lower
  end.

(** [max(d, key=d.get)]: the first key of the greatest value. *)
Definition max_by_value (d : list (str * nat)) : option str :=
  match d with
  | [] => None
  | first :: rest =>
    Some (foldl (fun best x => if (best.2 <? x.2)%nat then x else best) first rest).1
  end.

Definition detect_emotion (text : str) : option str :=
  match text with
  | [] => None
  | _ :: _ =>
    let text_lower := lower text in
    let emotion_scores := score_emotions EMOTION_KEYWORDS text_lower in
    max_by_value emotion_scores
  end.

End Emotion.
End Emotion.

(** ** [src/core/semantic_cache.py]: clearing the cache *)

Module CacheAdmin.

(** Redis's matching of a key against a glob pattern. *)
Class RedisLib : Type := {
  glob_match : str -> str -> bool
}.

Section CacheAdmin.
Context {F : Type} `{PyNum F} `{Bm25Lib F} `{CodecLib F} `{RedisLib}.
Import SemanticCache.

(** An entry that has not expired. *)
Definition live (e : env F) (entry : str * F) : bool := flt (now e) entry.2.

(** Redis's [KEYS]: the keys that match and have not expired. *)
Definition redis_keys (e : env F) (db : gmap str (str * F)) (pattern : str)
  : M F (list str) :=
  lift (if redis_reachable e then
          Ok (filter (fun kv => live e kv.2 = true /\ glob_match pattern kv.1 = true)
                     (map_to_list db)).*1
        else Raise (Exception (lit "ConnectionError"))).

(** The keys go one after the other; a key counts when it was there and
    had not expired. *)
Fixpoint delete_keys (e : env F) (keys : list str) (db : gmap str (str * F))
  : Z * gmap str (str * F) :=
  match keys with
  | [] => (0%Z, db)
  | key :: rest =>
    let n := match db !! key with
             | Some entry => if live e entry then 1%Z else 0%Z
             | None => 0%Z
             end in
    let '(m, db') := delete_keys e rest (delete key db) in
    ((n + m)%Z, db')
  end.

(** Redis's [DEL]: the number of keys removed. *)
Definition redis_delete (e : env F) (db : gmap str (str * F)) (keys : list str) : M F Z :=
  if redis_reachable e then
    let '(deleted, db') := delete_keys e keys db in
    modify (set_redis (Some db')) ;;
    ret deleted
  else raise (Exception (lit "ConnectionError")).

Definition clear_all (self : @SemanticCache F) (e : env F) : M F Z :=
  try_except
    (redis ← get_redis;
     let pattern := cache_prefix self ++ lit "*" in
     keys ← redis_keys e redis pattern;
     match keys with
     | _ :: _ =>
       deleted ← redis_delete e redis keys;
       ret deleted
     | [] => ret 0%Z
     end)
    (fun _ => ret 0%Z).

End CacheAdmin.
End CacheAdmin.

(** ** [src/core/vector_store.py] *)

Module VectorStore.

(** The calls to the ChromaDB server and to the clock, in their order. *)
Inductive chroma_event : Type :=
| HttpClient
| Heartbeat
| Sleep (seconds : Z)
| GetOrCreateCollection (name : str)
| Count
| CollectionGetWhere (source : str)
| CollectionDeleteWhere (source : str).

Section VectorStore.
Context {F : Type} `{PyNum F}.
Context {client coll : Type}.

(** The server during one call: what the constructor of the client
    answers at each attempt, the heartbeat of the client that was cached
    and of the one made at each attempt, and the operations on a
    collection. *)
Record chroma_env : Type := {
  time : F;
  new_client : nat -> outcome client;
  heartbeat_cached : client -> outcome unit;
  heartbeat_new : nat -> client -> outcome unit;
  get_or_create_collection : client -> str -> outcome coll;
  count : coll -> outcome Z;
  get_where_source : coll -> str -> outcome (list str);
  delete_where_source : coll -> str -> outcome unit
}.

(** The globals of the module, and the calls made. *)
Record chroma_state : Type := {
  _chroma_client : option client;
  _chroma_client_last_check : F;
  calls : list chroma_event
}.

Definition _CHROMA_HEARTBEAT_INTERVAL : F := of_Z 60.

Definition set_client (c : option client) (s : chroma_state) : chroma_state :=
  {| _chroma_client := c; _chroma_client_last_check := _chroma_client_last_check s;
     calls := calls s |}.

Definition set_last_check (t : F) (s : chroma_state) : chroma_state :=
  {| _chroma_client := _chroma_client s; _chroma_client_last_check := t;
     calls := calls s |}.

Definition record (ev : chroma_event) (s : chroma_state) : chroma_state :=
  {| _chroma_client := _chroma_client s;
     _chroma_client_last_check := _chroma_client_last_check s;
     calls := calls s ++ [ev] |}.

(** The body of the [try] of one attempt: the client is made and kept,
    then its heartbeat is taken. *)
Definition attempt_once (e : chroma_env) (attempt : nat) (s : chroma_state)
  : outcome client * chroma_state :=
  let s := record HttpClient s in
  match new_client e attempt with
  | Ok c =>
    let s := record Heartbeat (set_client (Some c) s) in
    match heartbeat_new e attempt c with
    | Ok _ => (Ok c, set_last_check (time e) s)
    | Raise ex => (Raise ex, s)
    end
  | Raise ex => (Raise ex, s)
  end.

(** The loop [for attempt in range(max_retries)], from [attempt] on, with
    [left] attempts after this one. *)
Fixpoint connect_attempts (e : chroma_env) (attempt left : nat) (retry_delay : Z)
  (s : chroma_state) : outcome client * chroma_state :=
  match attempt_once e attempt s with
  | (Ok c, s) => (Ok c, s)
  | (Raise ex, s) =>
    match left with
    | S left' =>
      connect_attempts e (S attempt) left' (retry_delay * 2) (record (Sleep retry_delay) s)
    | O =>
      (Raise (VectorStoreError
                (lit "ChromaDB connection failed after 3 attempts: " ++ exn_str ex)), s)
    end
  end.

Definition get_chroma_client (e : chroma_env) (s : chroma_state)
  : outcome client * chroma_state :=
  let current_time := time e in
  match _chroma_client s with
  | Some c =>
    if flt (fsub current_time (_chroma_client_last_check s)) _CHROMA_HEARTBEAT_INTERVAL
    then (Ok c, s)
    else
      let s := record Heartbeat s in
      match heartbeat_cached e c with
      | Ok _ => (Ok c, set_last_check current_time s)
      | Raise _ => connect_attempts e 0 2 2 (set_client None s)
      end
  | None => connect_attempts e 0 2 2 s
  end.

(** [get_collection(name)]; the log line takes [collection.count()]. *)
Definition get_collection (e : chroma_env) (name : str) (s : chroma_state)
  : outcome coll * chroma_state :=
  let failed (ex : exn) :=
    Raise (VectorStoreError (lit "Collection operation failed: " ++ exn_str ex)) in
  match get_chroma_client e s with
  | (Ok c, s) =>
    let s := record (GetOrCreateCollection name) s in
    match get_or_create_collection e c name with
    | Ok collection =>
      let s := record Count s in
      match count e collection with
      | Ok _ => (Ok collection, s)
      | Raise ex => (failed ex, s)
      end
    | Raise ex => (failed ex, s)
    end
  | (Raise ex, s) => (failed ex, s)
  end.

Definition delete_document (e : chroma_env) (filename collection_name : str)
  (s : chroma_state) : outcome Z * chroma_state :=
  let failed (ex : exn) :=
    Raise (VectorStoreError (lit "Document deletion failed: " ++ exn_str ex)) in
  match get_collection e collection_name s with
  | (Ok collection, s) =>
    let s := record (CollectionGetWhere filename) s in
    let count :=
      match get_where_source e collection filename with
      | Ok ids => Z.of_nat (length ids)
      | Raise _ => 0%Z
      end in
    let s := record (CollectionDeleteWhere filename) s in
    match delete_where_source e collection filename with
    | Ok _ => (Ok count, s)
    | Raise ex => (failed ex, s)
    end
  | (Raise ex, s) => (failed ex, s)
  end.

End VectorStore.

Arguments chroma_env F client coll : clear implicits.
Arguments chroma_state F client : clear implicits.

End VectorStore.


(** ** [src/middleware/prompt_injection.py] *)

Module PromptInjection.

(** [re.compile(pattern, re.IGNORECASE).search(text)], as a truth value. *)
Class RegexLib : Type := {
  search_ignorecase : str -> str -> bool
}.

Section PromptInjection.
Context `{RegexLib}.

Definition INJECTION_PATTERNS : list str :=
  [ lit "ignore\s+(previous|all|above)\s+instructions?";
    lit "disregard\s+(previous|all)\s+instructions?";
    lit "system\s+prompt";
    lit "you\s+are\s+now";
    lit "act\s+as\s+(DAN|DEV|developer|admin)";
    lit "jailbreak";
    lit "reveal\s+(your|the)\s+(prompt|system|instructions?)";
    lit "forget\s+(everything|all|previous)";
    lit "<\s*script";
    lit "javascript:";
    lit "onerror\s*=";
    lit "eval\s*\(" ].

(** The loop over the compiled patterns: the first that is found. *)
Fixpoint first_match (patterns : list str) (text : str) : option str :=
  match patterns with
  | [] => None
  | pattern :: rest =>
    if search_ignorecase pattern text then Some pattern else first_match rest text
  end.

Definition detect_prompt_injection (text : str) : bool * option str :=
  match text with
  | [] => (true, Some (lit "Input too long (max 5000 characters)"))
  | _ :: _ =>
    if (5000 <? length text)%nat
    then (true, Some (lit "Input too long (max 5000 characters)"))
    else
      match first_match INJECTION_PATTERNS text with
      | Some pattern => (true, Some pattern)
      | None => (false, None)
      end
  end.

(** How [validate_prompt_injection] ends: it returns the body, or raises
    [HTTPException] with the three fields of its detail. *)
Inductive validation : Type :=
| Accepted (content : str)
| Refused (status_code : Z) (error message pattern : str).

Definition validate_prompt_injection (content : str) : validation :=
  let '(is_malicious, pattern) := detect_prompt_injection content in
  if is_malicious then
    Refused 400 (lit "INVALID_INPUT")
      (lit "Đầu vào không hợp lệ. Vui lòng không cố gắng thao túng hệ thống.")
      (match pattern with
       | Some (c :: p) => c :: p
       | _ => lit "Input validation failed"
       end)
  else Accepted content.

End PromptInjection.
End PromptInjection.

(** ** [src/scripts/ingest.py] *)

Module Ingest.

(** [unicodedata.normalize('NFC', _)] and the class [\d]. *)
Class UnicodeData : Type := {
  normalize_nfc : str -> str;
  is_digit : char -> bool
}.

(** The metadata dict of a chunk that is stored. *)
Record chunk_metadata : Type := {
  cm_source : str;
  cm_page : nat;
  cm_category : str;
  cm_chunk_index : nat
}.

Section Ingest.
Context {F : Type} `{Unicode} `{UnicodeData}.

(** [re.sub(its, repl, t)]: the leftmost matches, one after the other, are
    replaced by [repl]; [skip] counts the characters of the current match
    still to pass. *)
Fixpoint sub_with (its : list item) (repl : str) (skip : nat) (prev : option char)
  (t : str) : str :=
  match t with
  | [] =>
    match skip, match_here its prev [] with
    | O, Some _ => repl
    | _, _ => []
    end
  | c :: t' =>
    match skip with
    | S k => sub_with its repl k (Some c) t'
    | O =>
      match match_here its prev t with
      | Some (S k) => repl ++ sub_with its repl k (Some c) t'
      | Some O => repl ++ c :: sub_with its repl O (Some c) t'
      | None => c :: sub_with its repl O (Some c) t'
      end
    end
  end.

Definition re_sub (its : list item) (repl : str) (t : str) : str :=
  sub_with its repl O None t.

Definition dot : char -> bool := N.eqb 46.
Definition newline : char -> bool := N.eqb 10.

(** [\.{3,}] *)
Definition DOTS : list item := [One dot; One dot; One dot; Star dot].
(** [\s+] *)
Definition WHITESPACE : list item := [Plus is_space].
(** [\n\s*\n] *)
Definition BLANK_LINES : list item := [One newline; Star is_space; One newline].
(** [\n\s*\d+\s*\n] *)
Definition PAGE_NUMBER : list item :=
  [One newline; Star is_space; Plus is_digit; Star is_space; One newline].
(** [\n\s*Trang\s+\d+\s*/\s*\d+\s*\n] *)
Definition PAGE_HEADER : list item :=
  [One newline; Star is_space] ++ re_escape (lit "Trang") ++
  [Plus is_space; Plus is_digit; Star is_space; One (N.eqb 47); Star is_space;
   Plus is_digit; Star is_space; One newline].

Definition clean_text (text : str) : str :=
  let text := normalize_nfc text in
  let text := re_sub DOTS [] text in
  let text := re_sub WHITESPACE (lit " ") text in
  let text := re_sub BLANK_LINES [10; 10] text in
  let text := re_sub PAGE_NUMBER [10] text in
  let text := re_sub PAGE_HEADER [10] text in
  strip text.

(** The services of one ingestion: the pages of the file with what
    [extract_text] gives for each, the text splitter, the embedding of a
    chunk as a document, and the upsert of a batch. *)
Record ingest_env : Type := {
  read_pdf : str -> outcome (list (outcome str));
  split_text : str -> outcome (list str);
  embed_document : str -> outcome (list F);
  upsert : list str -> list str -> list (list F) -> list chunk_metadata -> outcome unit
}.

(** The calls to the embedding model and to the store. *)
Inductive ingest_event : Type :=
| EmbedDocument (chunk : str)
| Upsert (ids documents : list str) (embeddings : list (list F))
         (metadatas : list chunk_metadata).

(** The loop over the pages: the texts that are not empty. *)
Fixpoint page_texts (pages : list (outcome str)) : outcome (list str) :=
  match pages with
  | [] => Ok []
  | Raise ex :: _ => Raise ex
  | Ok page_text :: rest =>
    match page_texts rest with
    | Ok text_parts =>
      Ok match page_text with
         | [] => text_parts
         | _ :: _ => page_text :: text_parts
         end
    | Raise ex => Raise ex
    end
  end.

Definition extract_text_from_pdf (e : ingest_env) (pdf_path : str) : outcome (str * nat) :=
  match read_pdf e pdf_path with
  | Ok pages =>
    let num_pages := length pages in
    match page_texts pages with
    | Ok text_parts =>
      let full_text := Rag.join [10] text_parts in
      let cleaned_text := clean_text full_text in
      Ok (cleaned_text, num_pages)
    | Raise ex => Raise ex
    end
  | Raise ex => Raise ex
  end.

(** [os.path.basename] of a POSIX path. *)
Definition basename (path : str) : str := default [] (last (split_on 47 path)).

(** [range(0, stop, step)] *)
Definition range_step (stop step : nat) : list nat :=
  map (fun b => b * step)%nat (seq 0 ((stop + step - 1) / step)).

(** The three lists of a batch. *)
Record batch : Type := {
  batch_ids : list str;
  batch_embeddings : list (list F);
  batch_metadatas : list chunk_metadata
}.

(** The inner loop, from the chunk of index [j] of the batch on. *)
Fixpoint embed_batch (e : ingest_env) (filename category : str) (num_pages i j : nat)
  (batch_chunks : list str) (b : batch) (tr : list ingest_event)
  : batch * list ingest_event :=
  match batch_chunks with
  | [] => (b, tr)
  | chunk :: rest =>
    let chunk_id := filename ++ lit "_" ++ str_of_Z (Z.of_nat (i + j)) in
    let tr := tr ++ [EmbedDocument chunk] in
    match embed_document e chunk with
    | Ok embedding =>
      let metadata :=
        {| cm_source := filename; cm_page := Nat.min ((i + j) / 2) num_pages;
           cm_category := category; cm_chunk_index := (i + j)%nat |} in
      embed_batch e filename category num_pages i (S j) rest
        {| batch_ids := batch_ids b ++ [chunk_id];
           batch_embeddings := batch_embeddings b ++ [embedding];
           batch_metadatas := batch_metadatas b ++ [metadata] |}
        tr
    | Raise _ => embed_batch e filename category num_pages i (S j) rest b tr
    end
  end.

(** One round of the outer loop. *)
Definition ingest_batch (e : ingest_env) (filename category : str) (num_pages : nat)
  (chunks : list str) (state : nat * list ingest_event) (i : nat)
  : nat * list ingest_event :=
  let '(total_ingested, tr) := state in
  let batch_chunks := take 10 (drop i chunks) in
  let '(b, tr) :=
    embed_batch e filename category num_pages i 0 batch_chunks
      {| batch_ids := []; batch_embeddings := []; batch_metadatas := [] |} tr in
  match batch_ids b with
  | [] => (total_ingested, tr)
  | _ :: _ =>
    let documents := take (length (batch_ids b)) batch_chunks in
    let tr :=
      tr ++ [Upsert (batch_ids b) documents (batch_embeddings b) (batch_metadatas b)] in
    match upsert e (batch_ids b) documents (batch_embeddings b) (batch_metadatas b) with
    | Ok _ => ((total_ingested + length (batch_ids b))%nat, tr)
    | Raise _ => (total_ingested, tr)
    end
  end.

Definition ingest_pdf (e : ingest_env) (pdf_path category : str) (tr : list ingest_event)
  : nat * list ingest_event :=
  let filename := basename pdf_path in
  match extract_text_from_pdf e pdf_path with
  | Ok (text, num_pages) =>
    if (length text <? 100)%nat then (0%nat, tr)
    else
      match split_text e text with
      | Ok [] => (0%nat, tr)
      | Ok chunks =>
        foldl (ingest_batch e filename category num_pages chunks) (0%nat, tr)
              (range_step (length chunks) 10)
      | Raise _ => (0%nat, tr)
      end
  | Raise _ => (0%nat, tr)
  end.

End Ingest.

Arguments ingest_env F : clear implicits.
Arguments ingest_event F : clear implicits.
Arguments batch F : clear implicits.

End Ingest.

(** ** The notions of the further properties *)

Module Further.
Import Rag.

(** Subtracting from 1 reverses the order, as it does on Python floats
    other than NaN, where rounding is monotone. *)
Class PyNumMonotone (F : Type) `{PyNumLaws F} : Prop := {
  one_minus_anti : forall x y : F,
    fle x y = true -> fle (fsub (of_Z 1) y) (fsub (of_Z 1) x) = true
}.

Section Settings.
Context {F : Type} `{PyNum F}.
Import SafetySettings.

(** The tests of the two loaders on their caches. *)
Definition sos_keywords_fresh (current_time : F) (s : safety_state F) : bool :=
  match _sos_keywords_cache s, _sos_keywords_cache_time s with
  | Some _, Some t => flt (fsub current_time t) _SOS_CACHE_TTL
  | _, _ => false
  end.

Definition crisis_hotlines_fresh (current_time : F) (s : safety_state F) : bool :=
  match _crisis_hotlines_cache s, _crisis_hotlines_cache_time s with
  | JNull, _ => false
  | _, Some t => flt (fsub current_time t) _HOTLINES_CACHE_TTL
  | _, None => false
  end.

(** A hotline as the validation wants it: an object with a name and a
    number. *)
Definition well_formed_hotline (hotline : json) : Prop :=
  exists members, hotline = JObject members /\
    has_key (lit "name") members = true /\ has_key (lit "number") members = true.

End Settings.

(** The pauses among the calls to the server, in seconds, and the number
    of clients made. *)
Definition sleeps (evs : list VectorStore.chroma_event) : list Z :=
  omap (fun ev => match ev with VectorStore.Sleep d => Some d | _ => None end) evs.

Definition connections (evs : list VectorStore.chroma_event) : nat :=
  length (omap (fun ev => match ev with VectorStore.HttpClient => Some tt | _ => None end) evs).

(** The ids and the documents of the batches sent to the store. *)
Definition upserted_ids {F : Type} (evs : list (Ingest.ingest_event F)) : list (list str) :=
  omap (fun ev => match ev with Ingest.Upsert ids _ _ _ => Some ids | _ => None end) evs.

Definition upserted_documents {F : Type} (evs : list (Ingest.ingest_event F))
  : list (list str) :=
  omap (fun ev => match ev with Ingest.Upsert _ documents _ _ => Some documents | _ => None end)
       evs.

(** The id of the chunk of index [k] of a file. *)
Definition chunk_id (filename : str) (k : nat) : str :=
  filename ++ lit "_" ++ str_of_Z (Z.of_nat k).

Section Calls.
Context {F : Type} `{PyNum F} `{Bm25Lib F}.

(** [w'] comes after [w] with only calls that are [allowed] made in
    between. *)
Definition calls_only (allowed : event F -> bool) (w w' : world F) : Prop :=
  exists new, trace w' = trace w ++ new /\ Forall (fun ev => allowed ev = true) new.

(** A computation that makes only [allowed] calls and leaves the Redis
    keys, the remembered model and the cached system prompt as they were. *)
Definition keeps_globals (w w' : world F) : Prop :=
  redis_client w' = redis_client w /\
  _last_working_model w' = _last_working_model w /\
  _sys_prompt_cache w' = _sys_prompt_cache w /\
  _sys_prompt_cache_time w' = _sys_prompt_cache_time w.

Definition confined (allowed : event F -> bool) {A : Type} (m : M F A) : Prop :=
  forall w, calls_only allowed w (m w).2 /\ keeps_globals w (m w).2.

(** The calls of a retrieval under the filter [f]: the two of the
    document store, with this filter, and the embedding of [query] when
    [embeds] is set. *)
Definition retrieval_call (f : option where_filter) (query : str) (embeds : bool)
  (ev : event F) : bool :=
  match ev with
  | CollectionGet f' => bool_decide (f' = f)
  | CollectionQuery _ f' => bool_decide (f' = f)
  | EmbedContent text => embeds && bool_decide (text = query)
  | _ => false
  end.

(** A computation whose runs are all related by [R]: what [R] keeps, the
    computation keeps. *)
Definition respects (R : world F -> world F -> Prop) {A : Type} (m : M F A) : Prop :=
  forall w, R w (m w).2.

(** The Redis keys are what they were. *)
Definition same_keys (w w' : world F) : Prop := redis_client w' = redis_client w.

(** The test of [load_sys_prompt] on its cache. *)
Definition sys_prompt_fresh (current_time : F) (w : world F) : bool :=
  match _sys_prompt_cache w, _sys_prompt_cache_time w with
  | Some _, Some t => flt (fsub current_time t) (of_Z 300)
  | _, _ => false
  end.

Definition is_redis_call (ev : event F) : bool :=
  match ev with
  | RedisGet _ | RedisSetex _ _ _ => true
  | _ => false
  end.

End Calls.

End Further.

Import Further.

(** ** More stand-ins and inputs *)

Module MoreInputs.
Import Standin Inputs Rag.

(** A glob matcher for the patterns that end with a star and hold no other
    special character: the key begins with what stands before the star. *)
#[global] Instance prefix_glob : CacheAdmin.RedisLib := {|
  CacheAdmin.glob_match pattern key :=
    match last pattern with
    | Some 42 => bool_decide (take (length pattern - 1) pattern `prefix_of` key)
    | _ => bool_decide (pattern = key)
    end
|}.

(** The text of two hotlines, and what [json.loads] makes of it. *)
Definition two_hotlines_text : str :=
  lit "[{" ++ [34] ++ lit "name" ++ [34] ++ lit ": " ++ [34] ++ lit "A" ++ [34] ++ lit ", "
  ++ [34] ++ lit "number" ++ [34] ++ lit ": " ++ [34] ++ lit "115" ++ [34] ++ lit "}, {"
  ++ [34] ++ lit "name" ++ [34] ++ lit ": " ++ [34] ++ lit "B" ++ [34] ++ lit ", "
  ++ [34] ++ lit "number" ++ [34] ++ lit ": " ++ [34] ++ lit "113" ++ [34] ++ lit "}]".

Definition two_hotlines : list json :=
  [ JObject [(lit "name", JString (lit "A")); (lit "number", JString (lit "115"))];
    JObject [(lit "name", JString (lit "B")); (lit "number", JString (lit "113"))] ].

(** A reader that knows this one text. *)
#[global] Instance one_text_json : JsonLib := {|
  json_loads t :=
    if bool_decide (t = two_hotlines_text) then Loaded (JArray two_hotlines)
    else JSONDecodeError (lit "Expecting value")
|}.

(** The globals of the safety gate at the start, and three databases. *)
Definition fresh_safety : SafetySettings.safety_state Q :=
  {| SafetySettings._sos_keywords_cache := None;
     SafetySettings._sos_keywords_cache_time := None;
     SafetySettings._crisis_hotlines_cache := JNull;
     SafetySettings._crisis_hotlines_cache_time := None;
     SafetySettings.asked := [] |}.

Definition db_with (key value : str) : SafetySettings.settings_db :=
  fun k => if bool_decide (k = key) then Ok (Some value) else Ok None.

Definition db_down : SafetySettings.settings_db :=
  fun _ => Raise (Exception (lit "OperationalError")).

(** A model that answers, over the store of five chunks. *)
Definition env_reply (t : Q) : env Q :=
  {| now := t;
     get_collection := Ok store5;
     embed_content _ := Ok [1 # 2]%Q;
     generate_content _ _ := Ok (lit " Xin chao ");
     generate_content_stream _ _ := Ok [Ok (lit "Xin "); Ok []; Ok (lit "chao")];
     redis_reachable := true |}.

(** Redis with an entry of the cache, an expired one and a key of another
    application. *)
Definition world_with_keys : world Q :=
  set_redis
    (Some (<[lit "rag_cache:aa" := (lit "x", 500%Q)]>
             (<[lit "rag_cache:bb" := (lit "y", 50%Q)]>
                (<[lit "session:1" := (lit "z", 500%Q)]> ∅))))
    fresh_world.

Definition three_results : list (SearchResult Q) :=
  [ {| content := lit "a"; source := lit "d1"; page := 1%Z;
       distance := (3 # 4)%Q; score := None |};
    {| content := lit "b"; source := lit "d2"; page := 2%Z;
       distance := (1 # 4)%Q; score := None |};
    {| content := lit "c"; source := lit "d3"; page := 3%Z;
       distance := (1 # 2)%Q; score := None |} ].

Definition said (role content : string) : message :=
  {| msg_role := Some (lit role); msg_content := Some (lit content) |}.

Definition five_messages : list message :=
  [ said "user" "1"; said "assistant" "2"; said "user" "3"; said "assistant" "4";
    said "user" "5" ].

(** The tables of [unicodedata] on ASCII, where a text is its own NFC
    form. *)
#[global] Instance ascii_data : Ingest.UnicodeData := {|
  Ingest.normalize_nfc t := t;
  Ingest.is_digit := Ascii7.is_digit
|}.

(** A splitter that cuts a text into pieces of [size] characters. *)
Fixpoint pieces_of (size fuel : nat) (t : str) : list str :=
  match fuel, t with
  | S fuel', _ :: _ => take size t :: pieces_of size fuel' (drop size t)
  | _, _ => []
  end.

(** A file of three pages, the second one without text. *)
Definition page_one : str :=
  lit "Lo au la mot phan ung tu nhien cua co the ...... truoc ap luc.
".

Definition page_three : str :=
  lit "Hit tho   sau va   cham giup co the thu gian.

 12 
Ngu du giac moi dem.".

Definition three_pages : list (outcome str) := [Ok page_one; Ok []; Ok page_three].

(** An embedding that fails on the chunks listed in [broken]. *)
Definition ingest_with (broken : list str) : Ingest.ingest_env Q := {|
  Ingest.read_pdf _ := Ok three_pages;
  Ingest.split_text t := Ok (pieces_of 10 (length t) t);
  Ingest.embed_document chunk :=
    if bool_decide (chunk ∈ broken) then Raise (Exception (lit "quota"))
    else Ok [inject_Z (Z.of_nat (length chunk))];
  Ingest.upsert _ _ _ _ := Ok tt
|}.

End MoreInputs.

(** * Properties *)

(** ** The pattern matcher on literal patterns *)

Section RegexFacts.
Context `{Unicode}.

Lemma last_or_cons prev c l : last_or prev (c :: l) = last_or (Some c) l.
Proof.
  unfold last_or. destruct l as [|d l]; [reflexivity|].
  change (last (c :: d :: l)) with (last (d :: l)).
  destruct (last (d :: l)) eqn:E; [reflexivity|].
  apply last_None in E. discriminate.
Qed.

(** An escaped keyword matches exactly itself, and hands the position
    after it to the rest of the pattern. *)
Lemma match_here_escape k its prev t n :
  match_here (re_escape k ++ its) prev t = Some n <->
  exists post m, t = k ++ post /\ match_here its (last_or prev k) post = Some m
                 /\ n = (length k + m)%nat.
Proof.
  revert prev t n. induction k as [|c k IH]; intros prev t n; simpl.
  - split.
    + intros E. exists t, n. auto.
    + intros (post & m & -> & E & ->). exact E.
  - destruct t as [|c' t].
    + split; [discriminate|]. intros (post & m & E & _). discriminate.
    + destruct (N.eqb_spec c c') as [<-|Hne].
      * destruct (match_here (re_escape k ++ its) (Some c) t) as [n'|] eqn:E; simpl.
        -- apply IH in E as (post & m & -> & E & ->). split.
           ++ intros [= <-]. exists post, m. rewrite last_or_cons. auto.
           ++ intros (post' & m' & E1 & E2 & ->).
              injection E1 as E1%app_inv_head. subst post'.
              rewrite last_or_cons in E2. congruence.
        -- split; [discriminate|].
           intros (post & m & E1 & E2 & ->). injection E1 as ->.
           rewrite last_or_cons in E2.
           assert (match_here (re_escape k ++ its) (Some c) (k ++ post)
                   = Some (length k + m)%nat) as E' by (apply IH; eauto).
           congruence.
      * split; [discriminate|]. intros (post & m & E & _). congruence.
Qed.

(** Searching tries every split of the text. *)
Lemma search_from_true its prev t :
  search_from its prev t = true <->
  exists pre post, t = pre ++ post /\ is_Some (match_here its (last_or prev pre) post).
Proof.
  revert prev. induction t as [|c t IH]; intros prev; cbn [search_from].
  - destruct (match_here its prev []) eqn:E.
    + split; [|reflexivity]. intros _. exists [], [].
      split; [reflexivity|]. change (last_or prev []) with prev. rewrite E. eauto.
    + split; [discriminate|]. intros (pre & post & E1 & E2).
      symmetry in E1. apply app_eq_nil in E1 as [-> ->].
      change (last_or prev []) with prev in E2.
      rewrite E in E2. destruct E2; discriminate.
  - destruct (match_here its prev (c :: t)) eqn:E.
    + split; [|reflexivity]. intros _. exists [], (c :: t).
      split; [reflexivity|]. change (last_or prev []) with prev. rewrite E. eauto.
    + rewrite IH. split.
      * intros (pre & post & -> & E2). exists (c :: pre), post.
        rewrite last_or_cons. auto.
      * intros (pre & post & E1 & E2). destruct pre as [|c' pre].
        -- simpl in E1. subst post. change (last_or prev []) with prev in E2.
           rewrite E in E2. destruct E2; discriminate.
        -- injection E1 as <- ->. exists pre, post. rewrite last_or_cons in E2. auto.
Qed.

End RegexFacts.

(** ** The safety gate *)

Section SafetyFacts.
Context `{Unicode}.
Import Safety.

(** The pattern of a keyword matches at a position exactly when the
    keyword stands there between two word boundaries. *)
Lemma match_here_keyword k prev t :
  is_Some (match_here ([WordBoundary] ++ re_escape k ++ [WordBoundary]) prev t) <->
  at_boundary prev t = true /\
  exists post, t = k ++ post /\ at_boundary (last_or prev k) post = true.
Proof.
  simpl. destruct (at_boundary prev t) eqn:B.
  - split.
    + intros [n E]. apply match_here_escape in E as (post & m & -> & E & _).
      simpl in E. destruct (at_boundary (last_or prev k) post) eqn:B'; [|discriminate].
      eauto.
    + intros (_ & post & -> & B'). exists (length k + 0)%nat.
      apply match_here_escape. exists post, O. simpl. rewrite B'. auto.
  - split; [intros [? ?]; discriminate | intros [? _]; discriminate].
Qed.

(** For a keyword that begins and ends with a word character, the search
    finds it exactly where it stands as a whole word. *)
Lemma re_search_word_edged k t :
  word_at (head k) = true -> word_at (last k) = true ->
  re_search ([WordBoundary] ++ re_escape k ++ [WordBoundary]) t = true <->
  whole_word_in k t.
Proof.
  intros Hh Hl. unfold re_search, whole_word_in. rewrite search_from_true.
  assert (forall post, head (k ++ post) = head k) as Hhead.
  { intros post. destruct k; [discriminate|reflexivity]. }
  assert (forall p, last_or p k = last k) as Hlast.
  { intros p. unfold last_or. destruct (last k); [reflexivity|discriminate]. }
  split.
  - intros (pre & post' & -> & E). apply match_here_keyword in E as (B & post & -> & B').
    exists pre, post. split; [reflexivity|].
    unfold at_boundary in B, B'. rewrite Hhead, Hh in B. rewrite Hlast, Hl in B'.
    unfold last_or in B. split.
    + destruct (last pre) as [c|]; simpl in *; [|reflexivity].
      destruct (is_word c); [discriminate|reflexivity].
    + destruct (word_at (head post)); [discriminate|reflexivity].
  - intros (pre & post & -> & Bpre & Bpost). exists pre, (k ++ post).
    split; [reflexivity|]. apply match_here_keyword. split.
    + unfold at_boundary. rewrite Hhead, Hh. unfold last_or.
      destruct (last pre); simpl in *; [rewrite Bpre|]; reflexivity.
    + exists post. split; [reflexivity|]. unfold at_boundary.
      rewrite Hlast, Hl, Bpost. reflexivity.
Qed.

Lemma check_loop_true text_lower keywords :
  check_loop text_lower keywords = true <->
  exists k, k ∈ keywords /\ re_search (keyword_pattern k) text_lower = true.
Proof.
  induction keywords as [|k ks IH]; simpl.
  - split; [discriminate|]. intros (k & Hk & _). inversion Hk.
  - destruct (re_search (keyword_pattern k) text_lower) eqn:E.
    + split; [|reflexivity]. intros _. exists k. split; [left|exact E].
    + rewrite IH. split.
      * intros (k' & Hk' & E'). exists k'. split; [right; exact Hk'|exact E'].
      * intros (k' & Hk' & E'). inversion Hk'; subst; [congruence|]. eauto.
Qed.

(** On keywords that begin and end with a word character the gate is the
    whole-word, case-insensitive test of the specification. *)
Lemma check_sos_keywords_word_edged (text : str) (keywords : list str) :
  Forall word_edged keywords ->
  check_sos_keywords text (Some keywords) = true <-> contains_keyword text keywords.
Proof.
  intros Hall. unfold check_sos_keywords, contains_keyword.
  rewrite check_loop_true. rewrite Forall_forall in Hall.
  split; intros (k & Hk & E); exists k; (split; [exact Hk|]);
    destruct (Hall k Hk) as [Hh Hl];
    apply (re_search_word_edged (lower k) (lower text) Hh Hl); exact E.
Qed.

End SafetyFacts.

(** C1 (the safety gate matches keywords as whole words, whatever the
    characters around them). The gate fails on a keyword that ends with a
    character that is not a word character: with the keyword [help!]
    configured, neither the message [help!] nor the message [ help! ] (the
    keyword between two spaces) is reported, although both contain the
    keyword as a whole word in the sense of the specification. The
    boundary [\b] after [!] asks for a word character to follow. *)
Theorem check_sos_keywords_misses_punctuated_keyword :
  let U := Ascii7.ascii_unicode in
  @Safety.check_sos_keywords U (lit "help!") (Some [lit "help!"]) = false /\
  @Safety.check_sos_keywords U (lit " help! ") (Some [lit "help!"]) = false /\
  @Safety.check_sos_keywords U (lit "help!x") (Some [lit "help!"]) = true /\
  @Safety.contains_keyword U (lit "help!") [lit "help!"] /\
  @Safety.contains_keyword U (lit " help! ") [lit "help!"].
Proof.
  intros U. split; [reflexivity|]. split; [reflexivity|]. split; [reflexivity|].
  split.
  - exists (lit "help!"). split; [left|]. exists [], []. repeat split.
  - exists (lit "help!"). split; [left|]. exists (lit " "), (lit " "). repeat split.
Qed.

(** ** The context assembler *)

Section ContextFacts.
Context {F : Type}.
Import Rag.

Lemma snippet_spec (text : str) : snippet text = spec_snippet text.
Proof.
  unfold snippet, spec_snippet.
  destruct (Nat.ltb_spec 200 (length text)); case_bool_decide; (reflexivity || lia).
Qed.

Lemma context_part_labelled (i : nat) (r : SearchResult F) :
  context_part i r = labelled_block (lit "Nguồn") (lit "trang") i r.
Proof.
  unfold context_part, labelled_block, nl.
  change (lit "(Nguồn: ") with (lit "(" ++ lit "Nguồn" ++ lit ": ").
  change (lit ", trang ") with (lit ", " ++ lit "trang" ++ lit " ").
  rewrite <- !app_assoc. reflexivity.
Qed.

Lemma build_loop_spec (i : nat) (results : list (SearchResult F)) :
  build_loop i results =
  (imap (fun j => labelled_block (lit "Nguồn") (lit "trang") (i + j)) results,
   map spec_source results).
Proof.
  revert i. induction results as [|r rs IH]; intros i; [reflexivity|].
  cbn [build_loop]. rewrite IH. cbn [imap map]. f_equal.
  - f_equal.
    + rewrite context_part_labelled. f_equal. lia.
    + apply imap_ext. intros j x _. simpl. f_equal. lia.
  - f_equal. unfold source_of, spec_source. f_equal. apply snippet_spec.
Qed.

(** C8, as the code has it: the context is the one of the specification
    with the labels [Nguồn] and [trang]; the snippet keeps a text of at most
    200 characters and cuts a longer one to 200 characters and [...]; the
    empty list gives the empty string and the empty list. *)
Theorem build_context_spec (results : list (SearchResult F)) :
  build_context results = spec_context (lit "Nguồn") (lit "trang") results /\
  build_context (@nil (SearchResult F)) = ([], []).
Proof.
  split; [|reflexivity].
  destruct results as [|r rs]; [reflexivity|].
  unfold build_context, spec_context. rewrite build_loop_spec. reflexivity.
Qed.

End ContextFacts.

(** C8, as the specification words it, fails: for the one result with
    text [abc], source [doc1] and page 3 the code writes
    [(Nguồn: doc1, trang 3)] where the specification has
    [(Source: doc1, page 3)]. *)
Lemma build_context_labels_differ :
  let r := {| Rag.content := lit "abc"; Rag.source := lit "doc1"; Rag.page := 3%Z;
              Rag.distance := 0%Q; Rag.score := None |} in
  fst (Rag.build_context [r]) = lit "[1] abc" ++ [10] ++ lit "(Nguồn: doc1, trang 3)" /\
  fst (spec_context (lit "Source") (lit "page") [r])
    = lit "[1] abc" ++ [10] ++ lit "(Source: doc1, page 3)" /\
  Rag.build_context [r] <> spec_context (lit "Source") (lit "page") [r].
Proof.
  intros r. split; [reflexivity|]. split; [reflexivity|].
  intros E. apply (f_equal fst) in E. vm_compute in E. discriminate.
Qed.

(** ** What a computation leaves of the cache *)

Section Frames.
Context {F : Type} `{PyNum F} `{Bm25Lib F} `{CodecLib F} `{Unicode}.

Lemma cache_untouched_refl w : cache_untouched w w.
Proof. split; [reflexivity|]. exists []. rewrite app_nil_r. auto. Qed.

Lemma cache_untouched_trans w1 w2 w3 :
  cache_untouched w1 w2 -> cache_untouched w2 w3 -> cache_untouched w1 w3.
Proof.
  intros (E1 & new1 & E2 & N1) (E3 & new2 & E4 & N2). split; [congruence|].
  exists (new1 ++ new2). rewrite E4, E2, app_assoc. split; [reflexivity|].
  apply Forall_app; auto.
Qed.

Lemma writes_no_cache_run {A : Type} (m : M F A) w r w' :
  writes_no_cache m -> m w = (r, w') -> cache_untouched w w'.
Proof. intros Hm E. specialize (Hm w). rewrite E in Hm. exact Hm. Qed.

Lemma quiet_ret {A : Type} (a : A) : writes_no_cache (ret a).
Proof. intros w. apply cache_untouched_refl. Qed.

Lemma quiet_lift {A : Type} (o : outcome A) : writes_no_cache (lift o).
Proof. intros w. apply cache_untouched_refl. Qed.

Lemma quiet_gets {A : Type} (f : world F -> A) : writes_no_cache (gets f).
Proof. intros w. apply cache_untouched_refl. Qed.

Lemma quiet_call {A : Type} (ev : event F) (o : outcome A) :
  is_setex ev = false -> writes_no_cache (call ev o).
Proof. intros E w. split; [reflexivity|]. exists [ev]. split; [reflexivity|]. auto. Qed.

Lemma quiet_modify (f : world F -> world F) :
  (forall w, redis_client (f w) = redis_client w /\ trace (f w) = trace w) ->
  writes_no_cache (modify f).
Proof.
  intros Hf w. destruct (Hf w) as [E1 E2]. split; [exact E1|].
  exists []. rewrite app_nil_r. split; [exact E2|constructor].
Qed.

Lemma quiet_bind {A B : Type} (m : M F A) (k : A -> M F B) :
  writes_no_cache m -> (forall a, writes_no_cache (k a)) -> writes_no_cache (bind m k).
Proof.
  intros Hm Hk w. unfold bind. specialize (Hm w).
  destruct (m w) as [[a|ex] w1]; simpl in Hm; [|exact Hm].
  eapply cache_untouched_trans; [exact Hm|apply Hk].
Qed.

Lemma quiet_mbind {A B : Type} (m : M F A) (k : A -> M F B) :
  writes_no_cache m -> (forall a, writes_no_cache (k a)) -> writes_no_cache (m ≫= k).
Proof. apply quiet_bind. Qed.

Lemma quiet_try_except {A : Type} (m : M F A) (h : exn -> M F A) :
  writes_no_cache m -> (forall ex, writes_no_cache (h ex)) ->
  writes_no_cache (try_except m h).
Proof.
  intros Hm Hh w. unfold try_except. specialize (Hm w).
  destruct (m w) as [[a|ex] w1]; simpl in Hm; [exact Hm|].
  eapply cache_untouched_trans; [exact Hm|apply Hh].
Qed.

End Frames.

Ltac quiet_step :=
  match goal with
  | |- writes_no_cache (match ?x with _ => _ end) => destruct x
  | |- writes_no_cache (if ?b then _ else _) => destruct b
  | |- writes_no_cache (let '(_, _) := ?x in _) => destruct x
  | |- forall _, _ => intro
  | |- writes_no_cache (_ ≫= _) => apply quiet_mbind
  | |- writes_no_cache (try_except _ _) => apply quiet_try_except
  | |- writes_no_cache (ret _) => apply quiet_ret
  | |- writes_no_cache (mret _) => apply quiet_ret
  | |- writes_no_cache (lift _) => apply quiet_lift
  | |- writes_no_cache (gets _) => apply quiet_gets
  | |- writes_no_cache (call _ _) => apply quiet_call; reflexivity
  | |- writes_no_cache (modify _) => apply quiet_modify; intros ?; split; reflexivity
  end.

Section PipelineFrames.
Context {F : Type} `{PyNum F} `{Bm25Lib F} `{CodecLib F} `{Unicode}.
Import Rag.

Lemma quiet_get_bm25_index e coll f : writes_no_cache (_get_bm25_index e coll f).
Proof. unfold _get_bm25_index. repeat quiet_step. Qed.

Lemma quiet_hybrid_search e q k f a qe : writes_no_cache (hybrid_search e q k f a qe).
Proof.
  unfold hybrid_search, hybrid_search_body, generate_embedding.
  repeat (quiet_step || apply quiet_get_bm25_index).
Qed.

Lemma quiet_cache_get self e qe : writes_no_cache (SemanticCache.get self e qe).
Proof.
  unfold SemanticCache.get, SemanticCache.redis_get. repeat quiet_step.
  intros w. unfold SemanticCache.get_redis.
  destruct (redis_client w) eqn:E; apply cache_untouched_refl.
Qed.

Lemma quiet_load_sys_prompt e db : writes_no_cache (load_sys_prompt e db).
Proof. unfold load_sys_prompt. repeat quiet_step. Qed.

(** C3: when the retrieval of a call of [rag_query] ends with an empty
    context (the embedding was computed, the cache did not answer, and the
    reranked results give no context), the call returns the fixed message
    with no sources, and writes no cache entry, whatever [use_cache] is. *)
Theorem rag_query_empty_context (e : env F) (query : str)
  (chat_history : option (list message)) (top_k : Z) (use_cache : bool)
  (db : option db_session) (w w1 w2 w3 : world F) (query_embedding : list F) (search_results : list (SearchResult F)) :
  generate_embedding e query w = (Ok query_embedding, w1) ->
  (if use_cache return M F (option (str * list source_entry))
   then SemanticCache.get SemanticCache.semantic_cache e query_embedding
   else ret None) w1 = (Ok None, w2) ->
  hybrid_search e query 10 None (fdiv (of_Z 1) (of_Z 2)) (Some query_embedding) w2
    = (Ok search_results, w3) ->
  (build_context (rerank_results query search_results top_k)).1 = [] ->
  exists w',
    rag_query e query chat_history top_k use_cache db w
      = (Ok (NO_CONTEXT_RESPONSE, []), w') /\
    cache_untouched w w'.
Proof.
  intros Hemb Hget Hsearch Hctx.
  assert (cache_untouched w w3) as Hframe.
  { eapply cache_untouched_trans; [|eapply cache_untouched_trans].
    - eapply writes_no_cache_run; [|exact Hemb].
      unfold generate_embedding. quiet_step.
    - eapply writes_no_cache_run; [|exact Hget].
      destruct use_cache; [apply quiet_cache_get|apply quiet_ret].
    - eapply writes_no_cache_run; [|exact Hsearch]. apply quiet_hybrid_search. }
  unfold rag_query, try_except. unfold mbind, M_bind, bind.
  rewrite Hemb, Hget, Hsearch.
  destruct (build_context (rerank_results query search_results top_k))
    as [context sources] eqn:Hbc.
  simpl in Hctx. subst context.
  set (load := match db with
               | Some session => load_sys_prompt e session
               | None => ret None
               end).
  assert (writes_no_cache load) as Hload.
  { subst load. destruct db; [apply quiet_load_sys_prompt|apply quiet_ret]. }
  specialize (Hload w3). 
  destruct (load w3) as [[custom|ex] w4] eqn:Hl; simpl in Hload.
  - exists w4. split.
    + destruct use_cache; reflexivity.
    + eapply cache_untouched_trans; eassumption.
  - exfalso. subst load. destruct db as [session|]; [|discriminate].
    unfold load_sys_prompt, try_except in Hl. unfold mbind, M_bind, bind, gets in Hl.
    simpl in Hl.
    repeat match type of Hl with
           | context [if ?b then _ else _] => destruct b
           | context [match ?x with _ => _ end] => destruct x
           end; discriminate.
Qed.

(** C4: [hybrid_search] never raises: whatever is raised inside it ends in
    the empty list; and an error of the document store at any of its three
    uses (getting the collection, fetching the corpus for the index, the
    vector query) makes it return the empty list. *)
Theorem hybrid_search_store_error (e : env F) (query : str) (top_k : Z)
  (filter_metadata : option where_filter) (alpha : F)
  (query_embedding : option (list F)) (w : world F) :
  let run := hybrid_search e query top_k filter_metadata alpha query_embedding w in
  (exists results, run.1 = Ok results) /\
  (forall ex w',
      hybrid_search_body e query top_k filter_metadata alpha query_embedding w
        = (Raise ex, w') ->
      run = (Ok [], w')) /\
  (forall ex, get_collection e = Raise ex -> run = (Ok [], w)) /\
  (forall coll ex,
      get_collection e = Ok coll ->
      bm25_cache_valid (now e) (rag w) = false ->
      coll_get coll filter_metadata = Raise ex ->
      run = (Ok [], add_event (CollectionGet filter_metadata) w)) /\
  (forall coll,
      get_collection e = Ok coll ->
      (forall q n, exists ex, coll_query coll q n filter_metadata = Raise ex) ->
      run.1 = Ok []).
Proof.
  intros run. subst run. unfold hybrid_search, try_except. repeat split.
  - destruct (hybrid_search_body e query top_k filter_metadata alpha query_embedding w)
      as [[results|ex] w']; eauto.
  - intros ex w' ->. reflexivity.
  - intros ex Hc. unfold hybrid_search_body, mbind, M_bind, bind, lift.
    rewrite Hc. reflexivity.
  - intros coll ex Hc Hvalid Hget.
    unfold hybrid_search_body, _get_bm25_index, mbind, M_bind, bind, lift, gets, call.
    rewrite Hc, Hvalid, Hget. reflexivity.
  - intros coll Hc Hquery.
    unfold hybrid_search_body, mbind, M_bind, bind, lift. rewrite Hc.
    destruct (_get_bm25_index e coll filter_metadata w)
      as [[[[[bm25_index|] [|doc documents]] metadatas]|ex] w1]; try reflexivity.
    destruct (get_scores bm25_index (split (lower query))) as [bm25_scores|ex];
      [|reflexivity].
    destruct (py_max bm25_scores) as [m|ex]; [|reflexivity].
    set (n := py_min (top_k * 2) (Z.of_nat (length (doc :: documents)))).
    destruct query_embedding as [q|].
    + unfold ret, call. destruct (Hquery q n) as [ex ->]. reflexivity.
    + unfold generate_embedding, call.
      destruct (embed_content e query) as [q|ex]; [|reflexivity].
      destruct (Hquery q n) as [ex ->]. reflexivity.
Qed.

End PipelineFrames.

(** ** The response generator *)

Section GenerationFacts.
Context {F : Type} `{PyNum F} `{Bm25Lib F} `{CodecLib F} `{Unicode}.
Import Rag.


Lemma try_models_all_fail e prompt ms w :
  (forall m, m ∈ ms -> fails (generate_content e m prompt)) ->
  try_models e prompt ms w = (Ok None, after_attempts prompt ms w).
Proof.
  revert w. induction ms as [|m ms IH]; intros w Hfail; [reflexivity|].
  destruct (Hfail m) as [ex Hex]; [left|].
  simpl. unfold try_except at 1. unfold mbind, M_bind, bind, call.
  rewrite Hex. apply IH. intros m' Hin. apply Hfail. right. exact Hin.
Qed.


Lemma remove_first_elem x y l : y ∈ remove_first x l -> y ∈ l.
Proof.
  induction l as [|z l IH]; simpl; [auto|].
  case_bool_decide; intros Hy; [right; exact Hy|].
  inversion Hy; subst; [left|right; auto].
Qed.

Lemma prioritize_elem last candidates m :
  m ∈ prioritize last candidates -> m ∈ candidates.
Proof.
  unfold prioritize. destruct last as [[|c l]|]; auto.
  case_bool_decide as Hin; auto.
  intros Hm. inversion Hm; subst; [exact Hin|]. eapply remove_first_elem; eauto.
Qed.




End GenerationFacts.

(** ** The result cache *)

Section CacheFacts.
Context {F : Type} `{PyNum F} `{Bm25Lib F} `{CodecLib F}.
Import SemanticCache.

(** C6: with a Redis client that answers, [set] of an entry that [json]
    can dump and load back, followed by [get] for the same embedding
    before the entry expires, returns the response and the sources that
    were set. Both calls address the key [_generate_cache_key] computes
    from the embedding alone: the prefix and the first 16 characters of
    the digest of the dumped embedding. *)
Theorem cache_set_get_roundtrip (self : SemanticCache) (e1 e2 : env F)
  (query_embedding : list F) (response : str) (sources : list source_entry)
  (w : world F) (db : gmap str (str * F)) :
  redis_client w = Some db ->
  redis_reachable e1 = true ->
  redis_reachable e2 = true ->
  flt (now e2) (fadd (now e1) (ttl self)) = true ->
  loads_cache_data (dumps_cache_data (response, sources)) = Ok (response, sources) ->
  dumps_cache_data (response, sources) <> [] ->
  let key := _generate_cache_key self query_embedding in
  let w1 := (set self e1 query_embedding response sources w).2 in
  set self e1 query_embedding response sources w = (Ok true, w1) /\
  trace w1 = trace w ++ [RedisSetex key (ttl self) (dumps_cache_data (response, sources))] /\
  (get self e2 query_embedding w1).1 = Ok (Some (response, sources)) /\
  trace (get self e2 query_embedding w1).2 = trace w1 ++ [RedisGet key] /\
  key = cache_prefix self ++ take 16 (sha256_hexdigest (dumps_embedding query_embedding)).
Proof.
  intros Hdb Hup1 Hup2 Hfresh Hround Hne key w1.
  assert (set self e1 query_embedding response sources w =
          (Ok true,
           set_redis
             (Some (<[key := (dumps_cache_data (response, sources),
                              fadd (now e1) (ttl self))]> db))
             (add_event (RedisSetex key (ttl self) (dumps_cache_data (response, sources)))
                        w))) as Hset.
  { unfold set, try_except, redis_setex, get_redis.
    unfold mbind, M_bind, bind, call, modify, ret.
    rewrite Hdb, Hup1. reflexivity. }
  subst w1. rewrite Hset. cbn [snd].
  split; [reflexivity|]. split; [reflexivity|].
  set (w1 := set_redis _ _).
  assert (get self e2 query_embedding w1 =
          (Ok (Some (response, sources)), add_event (RedisGet key) w1)) as Hget.
  { unfold get, try_except, redis_get, get_redis.
    unfold mbind, M_bind, bind, call, lift, ret.
    subst w1. cbn [redis_client set_redis]. fold key.
    rewrite Hup2, lookup_insert_eq, Hfresh.
    destruct (dumps_cache_data (response, sources)) as [|c cs] eqn:Hd; [congruence|].
    rewrite Hround. reflexivity. }
  rewrite Hget. repeat split.
Qed.

End CacheFacts.

(** ** Sorting and maximum *)

Section SortFacts.
Context {A : Type} (before : A -> A -> bool).
Import Rag.

Lemma insert_sorted_perm x l : insert_sorted before x l ≡ₚ x :: l.
Proof.
  induction l as [|y l IH]; simpl; [reflexivity|].
  destruct (before y x); [|reflexivity].
  rewrite IH. apply Permutation_swap.
Qed.

Lemma stable_sort_perm l : stable_sort before l ≡ₚ l.
Proof.
  induction l as [|x l IH]; simpl; [reflexivity|].
  rewrite insert_sorted_perm. f_equiv. exact IH.
Qed.

Hypothesis before_asym : forall x y, before x y = true -> before y x = false.
Hypothesis in_order_trans :
  forall x y z, in_order before x y -> in_order before y z -> in_order before x z.

Lemma insert_sorted_sorted x l :
  StronglySorted (in_order before) l -> StronglySorted (in_order before) (insert_sorted before x l).
Proof.
  induction 1 as [|y l Hs IH Hy]; simpl.
  - repeat constructor.
  - destruct (before y x) eqn:E.
    + constructor; [exact IH|].
      rewrite insert_sorted_perm. constructor; [|exact Hy].
      apply before_asym, E.
    + constructor; [constructor; assumption|].
      constructor; [exact E|].
      eapply Forall_impl; [exact Hy|]. intros z Hz. eapply in_order_trans; eauto.
Qed.

Lemma stable_sort_sorted l : StronglySorted (in_order before) (stable_sort before l).
Proof.
  induction l as [|x l IH]; simpl; [constructor|]. apply insert_sorted_sorted, IH.
Qed.

End SortFacts.

Lemma StronglySorted_weaken {A : Type} (R R' : A -> A -> Prop) (l : list A) :
  (forall a b, R a b -> R' a b) -> StronglySorted R l -> StronglySorted R' l.
Proof.
  intros HR. induction 1 as [|x l Hs IH Hx]; constructor; [exact IH|].
  eapply Forall_impl; [exact Hx|]. intros y. apply HR.
Qed.

Section NumberFacts.
Context {F : Type} `{PyNumLaws F}.
Import Rag.

Lemma fle_refl (x : F) : fle x x = true.
Proof.
  unfold fle. destruct (flt x x) eqn:E; [|reflexivity].
  pose proof (flt_asym x x E). congruence.
Qed.

Lemma flt_fle (x y : F) : flt x y = true -> fle x y = true.
Proof. intros E. unfold fle. rewrite (flt_asym x y E). reflexivity. Qed.

(** A list sorted with [reverse=True] descends along its key. *)
Lemma sort_reverse_sorted {A : Type} (key : A -> F) (l : list A) :
  StronglySorted (fun a b => fle (key b) (key a) = true) (sort_reverse key l).
Proof.
  unfold sort_reverse.
  pose proof (stable_sort_sorted (fun y x => flt (key x) (key y))) as Hs.
  eapply StronglySorted_weaken; [|apply Hs].
  - intros a b Hab. unfold in_order in Hab. unfold fle. rewrite Hab. reflexivity.
  - intros x y E. apply flt_asym, E.
  - intros x y z. unfold in_order. intros E1 E2.
    assert (fle (key z) (key x) = true) as E3.
    { apply (fle_trans _ (key y)); unfold fle; [rewrite E2|rewrite E1]; reflexivity. }
    unfold fle in E3. destruct (flt (key x) (key z)); [discriminate|reflexivity].
Qed.

Lemma foldl_max_spec (l : list F) (x : F) :
  let m := foldl (fun m y => if fgt y m then y else m) x l in
  m ∈ x :: l /\ fle x m = true /\ forall y, y ∈ l -> fle y m = true.
Proof.
  revert x. induction l as [|y l IH]; intros x; simpl.
  - split; [left|]. split; [apply fle_refl|]. intros y Hy. inversion Hy.
  - destruct (fgt y x) eqn:E; unfold fgt in E.
    + destruct (IH y) as (Hin & Hle & Hall). split; [right; exact Hin|]. split.
      * eapply fle_trans; [apply flt_fle, E|exact Hle].
      * intros z Hz. apply elem_of_cons in Hz as [->|Hz]; auto.
    + destruct (IH x) as (Hin & Hle & Hall). split.
      * apply elem_of_cons in Hin as [Hin|Hin]; [rewrite Hin; left|right; right; exact Hin].
      * split; [exact Hle|]. intros z Hz. apply elem_of_cons in Hz as [->|Hz]; auto.
        eapply fle_trans; [|exact Hle]. unfold fle. rewrite E. reflexivity.
Qed.

Lemma py_max_spec (l : list F) (m : F) : py_max l = Ok m -> is_maximum m l.
Proof.
  destruct l as [|x l]; [discriminate|]. intros [= <-].
  destruct (foldl_max_spec l x) as (Hin & Hle & Hall). split; [exact Hin|].
  intros y Hy. apply elem_of_cons in Hy as [->|Hy]; auto.
Qed.

Lemma py_max_nonempty (l : list F) : l <> [] -> exists m, py_max l = Ok m.
Proof. destruct l; [congruence|]. intros _. eexists. reflexivity. Qed.

End NumberFacts.

(** ** The cache of the lexical index *)

Section IndexFacts.
Context {F : Type} `{PyNum F} `{Bm25Lib F} `{Unicode}.
Import Rag.

(** A valid cache answers, and nothing else happens. *)
Lemma get_bm25_index_hit e coll filter_metadata (w : world F) :
  bm25_cache_valid (now e) (rag w) = true ->
  _get_bm25_index e coll filter_metadata w =
  (Ok (_bm25_cache (rag w), or_empty (_corpus_cache (rag w)),
       or_empty (_corpus_metadatas (rag w))), w).
Proof.
  intros Hv. unfold _get_bm25_index, mbind, M_bind, bind, gets.
  rewrite Hv. reflexivity.
Qed.

(** Without a valid cache the corpus is fetched again, and the index
    built from what the store answers. *)
Lemma get_bm25_index_miss e coll filter_metadata (w : world F) :
  bm25_cache_valid (now e) (rag w) = false ->
  _get_bm25_index e coll filter_metadata w =
  match coll_get coll filter_metadata with
  | Raise ex => (Raise ex, add_event (CollectionGet filter_metadata) w)
  | Ok res =>
    match get_documents res with
    | [] => (Ok (None, [], []), add_event (CollectionGet filter_metadata) w)
    | _ :: _ =>
      match BM25Okapi (tokenize_corpus (get_documents res)) with
      | Raise ex => (Raise ex, add_event (CollectionGet filter_metadata) w)
      | Ok index =>
        (Ok (Some index, get_documents res, get_metadatas res),
         rebuilt (now e) filter_metadata res index w)
      end
    end
  end.
Proof.
  intros Hv. unfold _get_bm25_index, mbind, M_bind, bind, gets, call, lift, modify, ret.
  rewrite Hv. destruct (coll_get coll filter_metadata) as [res|ex]; [|reflexivity].
  unfold tokenize_corpus.
  destruct (get_documents res) as [|d ds] eqn:Hd; [reflexivity|].
  destruct (BM25Okapi _) as [index|ex]; [|reflexivity].
  unfold rebuilt. rewrite Hd. reflexivity.
Qed.

Lemma or_empty_Some {A : Type} (l : list A) : or_empty (Some l) = l.
Proof. destruct l; reflexivity. Qed.

(** After a call that returned an index, the cache holds what was returned. *)
Lemma get_bm25_index_cached e coll filter_metadata (w w1 : world F) index documents metadatas :
  _get_bm25_index e coll filter_metadata w = (Ok (Some index, documents, metadatas), w1) ->
  _bm25_cache (rag w1) = Some index /\
  or_empty (_corpus_cache (rag w1)) = documents /\
  or_empty (_corpus_metadatas (rag w1)) = metadatas /\
  is_Some (_bm25_cache_time (rag w1)).
Proof.
  destruct (bm25_cache_valid (now e) (rag w)) eqn:Hv.
  - rewrite get_bm25_index_hit by exact Hv. intros [= E1 E2 E3 <-].
    repeat split; auto. unfold bm25_cache_valid in Hv.
    destruct (_bm25_cache (rag w)); [|discriminate].
    destruct (_bm25_cache_time (rag w)); [eauto|discriminate].
  - rewrite get_bm25_index_miss by exact Hv.
    destruct (coll_get coll filter_metadata) as [res|ex]; [|discriminate].
    destruct (get_documents res) as [|d ds] eqn:Hd; [discriminate|].
    destruct (BM25Okapi _) as [index'|ex]; [|discriminate].
    intros [= <- <- <- <-]. unfold rebuilt. cbn [rag set_rag _bm25_cache _corpus_cache
      _corpus_metadatas _bm25_cache_time]. rewrite Hd, !or_empty_Some. eauto.
Qed.

Lemma invalidate_bm25_cache_invalid (w : world F) current_time :
  bm25_cache_valid current_time (rag (invalidate_bm25_cache w).2) = false /\
  trace (invalidate_bm25_cache w).2 = trace w.
Proof. split; reflexivity. Qed.

(** C7, as the code has it: after a call of [_get_bm25_index] that
    returned an index, a second call within the TTL of the instant the
    cached index was built returns the same index, documents and
    metadatas, whatever the store now holds, and leaves the world as it
    was: the store is not asked. After [invalidate_bm25_cache()] the cache
    is not valid at any time, and the next call asks the store for the
    corpus and returns the index built from its answer. A call that
    fetches an empty corpus caches nothing. *)
Theorem bm25_index_cached_until_invalidated (e1 e2 : env F) (coll1 coll2 : collection F)
  (f1 f2 : option where_filter) (w w1 : world F)
  (index : bm25) (documents : list str) (metadatas : list metadata) :
  _get_bm25_index e1 coll1 f1 w = (Ok (Some index, documents, metadatas), w1) ->
  (forall t, _bm25_cache_time (rag w1) = Some t ->
             flt (fsub (now e2) t) (_bm25_cache_ttl (rag w1)) = true) ->
  _get_bm25_index e2 coll2 f2 w1 = (Ok (Some index, documents, metadatas), w1) /\
  let w2 := (invalidate_bm25_cache w1).2 in
  bm25_cache_valid (now e2) (rag w2) = false /\
  trace (_get_bm25_index e2 coll2 f2 w2).2 = trace w1 ++ [CollectionGet f2] /\
  (forall res index',
      coll_get coll2 f2 = Ok res -> get_documents res <> [] ->
      BM25Okapi (tokenize_corpus (get_documents res)) = Ok index' ->
      (_get_bm25_index e2 coll2 f2 w2).1
        = Ok (Some index', get_documents res, get_metadatas res)) /\
  (forall (w' : world F) res,
      bm25_cache_valid (now e2) (rag w') = false ->
      coll_get coll2 f2 = Ok res -> get_documents res = [] ->
      _get_bm25_index e2 coll2 f2 w' = (Ok (None, [], []), add_event (CollectionGet f2) w')).
Proof.
  intros Hfirst Httl.
  destruct (get_bm25_index_cached _ _ _ _ _ _ _ _ Hfirst) as (Hc & Hd & Hm & [t Ht]).
  assert (bm25_cache_valid (now e2) (rag w1) = true) as Hvalid.
  { unfold bm25_cache_valid. rewrite Hc, Ht. apply Httl, Ht. }
  split.
  - rewrite get_bm25_index_hit by exact Hvalid. rewrite Hc, Hd, Hm. reflexivity.
  - intros w2. destruct (invalidate_bm25_cache_invalid w1 (now e2)) as [Hinv Htr].
    fold w2 in Hinv, Htr. split; [exact Hinv|].
    rewrite get_bm25_index_miss by exact Hinv. split.
    + destruct (coll_get coll2 f2) as [res|ex]; [|cbn; congruence].
      destruct (get_documents res); [cbn; congruence|].
      destruct (BM25Okapi _); cbn; congruence.
    + split.
      * intros res index' -> Hne Hbuild.
        destruct (get_documents res) eqn:Hdocs; [congruence|].
        rewrite Hbuild. reflexivity.
      * intros w' res Hinv' Hget Hempty.
        rewrite get_bm25_index_miss by exact Hinv'. rewrite Hget, Hempty. reflexivity.
Qed.

Lemma combine_loop_contents (alpha : F) (documents : list str)
  (metadatas : list metadata) (lexical : list F)
  (dmap : gmap str F) (i : nat) (results : list (SearchResult F)) :
  combine_loop alpha documents metadatas lexical dmap i = Ok results ->
  map content results = documents.
Proof.
  revert i results. induction documents as [|doc docs IH]; intros i results; simpl.
  - intros [= <-]. reflexivity.
  - destruct (match metadatas with [] => _ | _ => _ end) as [md|ex]; [|discriminate].
    destruct (index lexical i) as [l|ex]; [|discriminate].
    destruct (combine_loop alpha docs metadatas lexical dmap (S i)) as [rs|ex] eqn:E;
      [|discriminate].
    intros [= <-]. simpl. f_equal. eapply IH, E.
Qed.

Lemma slice_to_elem {A : Type} (l : list A) (k : Z) (x : A) : x ∈ slice_to l k -> x ∈ l.
Proof.
  unfold slice_to. destruct (0 <=? k)%Z; intros Hx.
  - rewrite <- (take_drop (Z.to_nat k) l). apply elem_of_app. left. exact Hx.
  - rewrite <- (take_drop (length l - Z.to_nat (- k)) l). apply elem_of_app. left. exact Hx.
Qed.

(** Whatever [hybrid_search] returns is a chunk of the corpus that
    [_get_bm25_index] handed to it. *)
Lemma hybrid_search_corpus (e : env F) (query : str) (top_k : Z)
  (filter_metadata : option where_filter) (alpha : F)
  (query_embedding : option (list F))
  (w : world F) (coll : collection F) (r : SearchResult F) :
  get_collection e = Ok coll ->
  match (hybrid_search e query top_k filter_metadata alpha query_embedding w).1 with
  | Ok results => r ∈ results
  | Raise _ => False
  end ->
  exists bm25_index documents metadatas w1,
    _get_bm25_index e coll filter_metadata w = (Ok (bm25_index, documents, metadatas), w1) /\
    content r ∈ documents.
Proof.
  intros Hcoll. unfold hybrid_search, try_except, hybrid_search_body.
  unfold mbind, M_bind, bind, lift. rewrite Hcoll.
  destruct (_get_bm25_index e coll filter_metadata w)
    as [[[[bm25_index documents] metadatas]|ex] w1] eqn:Hidx;
    [|cbn; intros Hr; inversion Hr].
  destruct bm25_index as [bm25_index|]; [|cbn; intros Hr; inversion Hr].
  destruct documents as [|doc documents]; [cbn; intros Hr; inversion Hr|].
  destruct (get_scores bm25_index (split (lower query))) as [scores|ex];
    [|cbn; intros Hr; inversion Hr].
  destruct (py_max scores) as [m|ex]; [|cbn; intros Hr; inversion Hr].
  destruct (match query_embedding with Some q => ret q | None => _ end w1)
    as [[q|ex] w2]; [|cbn; intros Hr; inversion Hr].
  unfold call. destruct (coll_query coll q _ filter_metadata) as [vres|ex];
    [|cbn; intros Hr; inversion Hr].
  destruct (vector_distance_map vres) as [dmap|ex]; [|cbn; intros Hr; inversion Hr].
  destruct (combine_loop alpha (doc :: documents) metadatas _ dmap 0)
    as [combined|ex] eqn:Hcomb; [|cbn; intros Hr; inversion Hr].
  cbn. intros Hr. apply slice_to_elem in Hr.
  unfold sort_reverse in Hr. rewrite stable_sort_perm in Hr.
  exists (Some bm25_index), (doc :: documents), metadatas, w1. split; [reflexivity|].
  rewrite <- (combine_loop_contents _ _ _ _ _ _ _ Hcomb).
  apply list_elem_of_In, in_map, list_elem_of_In, Hr.
Qed.

(** C10, as the code has it: the validity test of the cache does not look
    at the filter. When a first call rebuilds the index under the filter
    [f1], from a corpus that is not empty, a second call within the TTL
    returns that index, those documents and those metadatas whatever its
    own filter [f2] is, and does not ask the store, so that
    [hybrid_search] under [f2] returns chunks of the corpus of [f1]; a call
    finds the store's answer for its own filter only when it rebuilds, and
    a call whose filter matches no chunk leaves the cache as it was. *)
Theorem bm25_cache_ignores_filter (e1 e2 : env F) (coll1 coll2 : collection F)
  (f1 f2 : option where_filter) (w : world F) (res : get_result) (index : bm25) :
  bm25_cache_valid (now e1) (rag w) = false ->
  coll_get coll1 f1 = Ok res ->
  get_documents res <> [] ->
  BM25Okapi (tokenize_corpus (get_documents res)) = Ok index ->
  flt (fsub (now e2) (now e1)) (_bm25_cache_ttl (rag w)) = true ->
  let first := _get_bm25_index e1 coll1 f1 w in
  first.1 = Ok (Some index, get_documents res, get_metadatas res) /\
  _get_bm25_index e2 coll2 f2 first.2 = (first.1, first.2) /\
  (forall query top_k alpha query_embedding r,
      get_collection e2 = Ok coll2 ->
      match (hybrid_search e2 query top_k f2 alpha query_embedding first.2).1 with
      | Ok results => r ∈ results
      | Raise _ => False
      end ->
      content r ∈ get_documents res) /\
  (forall (w' : world F) res2 index2,
      bm25_cache_valid (now e2) (rag w') = false ->
      coll_get coll2 f2 = Ok res2 -> get_documents res2 <> [] ->
      BM25Okapi (tokenize_corpus (get_documents res2)) = Ok index2 ->
      (_get_bm25_index e2 coll2 f2 w').1
        = Ok (Some index2, get_documents res2, get_metadatas res2)) /\
  (forall (w' : world F) res2,
      bm25_cache_valid (now e2) (rag w') = false ->
      coll_get coll2 f2 = Ok res2 -> get_documents res2 = [] ->
      (_get_bm25_index e2 coll2 f2 w').1 = Ok (None, [], []) /\
      rag (_get_bm25_index e2 coll2 f2 w').2 = rag w').
Proof.
  intros Hinvalid Hget Hne Hbuild Httl first.
  assert (first = (Ok (Some index, get_documents res, get_metadatas res),
                   rebuilt (now e1) f1 res index w)) as Hfirst.
  { subst first. rewrite get_bm25_index_miss by exact Hinvalid. rewrite Hget.
    destruct (get_documents res) eqn:Hd; [congruence|]. rewrite Hbuild. reflexivity. }
  rewrite Hfirst. cbn [fst snd].
  assert (_get_bm25_index e2 coll2 f2 (rebuilt (now e1) f1 res index w)
          = (Ok (Some index, get_documents res, get_metadatas res),
             rebuilt (now e1) f1 res index w)) as Hsecond.
  { rewrite get_bm25_index_hit.
    - cbn [rag rebuilt set_rag _bm25_cache _corpus_cache _corpus_metadatas].
      rewrite !or_empty_Some. reflexivity.
    - unfold bm25_cache_valid. cbn. exact Httl. }
  split; [reflexivity|]. split; [exact Hsecond|]. split.
  - intros query top_k alpha query_embedding r Hcoll Hr.
    destruct (hybrid_search_corpus _ _ _ _ _ _ _ _ _ Hcoll Hr)
      as (i' & docs' & mds' & w1' & Hidx & Hin).
    rewrite Hsecond in Hidx. injection Hidx as <- <- <- <-. exact Hin.
  - split.
    + intros w' res2 index2 Hinv2 Hget2 Hne2 Hbuild2.
      rewrite get_bm25_index_miss by exact Hinv2. rewrite Hget2.
      destruct (get_documents res2) eqn:Hd; [congruence|]. rewrite Hbuild2. reflexivity.
    + intros w' res2 Hinv2 Hget2 Hempty.
      rewrite get_bm25_index_miss by exact Hinv2. rewrite Hget2, Hempty.
      split; reflexivity.
Qed.

End IndexFacts.

(** ** The hybrid retriever *)

Section RankingFacts.
Context {F : Type} `{PyNumLaws F} `{Bm25Lib F} `{Unicode}.
Import Rag.

Lemma drop_cons_inv {A : Type} (l : list A) (i : nat) (x : A) (l' : list A) :
  drop i l = x :: l' -> l !! i = Some x /\ drop (S i) l = l'.
Proof.
  intros E. assert (l !! i = Some x) as Hx.
  { rewrite <- (Nat.add_0_r i), <- lookup_drop, E. reflexivity. }
  split; [exact Hx|]. rewrite (drop_S _ _ _ Hx) in E. congruence.
Qed.

Lemma vector_distance_loop_spec (docs : list str) (distances0 : list F)
  (rest : list (list F)) (i : nat) (m : gmap str F) :
  (length docs <= length (drop i distances0))%nat ->
  exists m', vector_distance_loop docs (distances0 :: rest) i m = Ok m' /\
    forall doc, m' !! doc =
      match last (filter (fun p => p.1 = doc) (zip docs (drop i distances0))) with
      | Some p => Some (similarity p.2)
      | None => m !! doc
      end.
Proof.
  revert i m. induction docs as [|doc0 docs IH]; intros i m Hlen.
  - exists m. split; [reflexivity|]. intros doc. reflexivity.
  - destruct (drop i distances0) as [|d0 ds] eqn:Hd; [simpl in Hlen; lia|].
    apply drop_cons_inv in Hd as [Hi Hds].
    destruct (IH (S i) (<[doc0 := similarity d0]> m)) as (m' & Hrun & Hm').
    { rewrite Hds. simpl in Hlen. lia. }
    exists m'. split.
    + cbn [vector_distance_loop]. unfold index at 1 2. cbn [lookup list_lookup].
      rewrite Hi. exact Hrun.
    + intros doc. rewrite Hm', Hds. cbn [zip zip_with]. rewrite filter_cons.
      destruct (decide ((doc0, d0).1 = doc)) as [Heq|Hne]; simpl in *.
      * rewrite last_cons. 
        destruct (last (filter (fun p => p.1 = doc) (zip docs ds))); [reflexivity|].
        subst doc. rewrite lookup_insert_eq. reflexivity.
      * destruct (last (filter (fun p => p.1 = doc) (zip docs ds))); [reflexivity|].
        rewrite lookup_insert_ne by exact Hne. reflexivity.
Qed.

(** The lookup dict gives every text its [text_similarity]. *)
Lemma vector_distance_map_spec (vres : query_result F) :
  (length (result_documents vres) <= length (result_distances vres))%nat ->
  exists dmap, vector_distance_map vres = Ok dmap /\
    forall doc, default (of_Z 0) (dmap !! doc)
                = text_similarity (result_documents vres) (result_distances vres) doc.
Proof.
  unfold vector_distance_map, result_documents, result_distances, text_similarity.
  destruct (query_documents vres) as [|docs0 rest]; simpl.
  - intros _. exists ∅. split; [reflexivity|]. intros doc. reflexivity.
  - destruct (query_distances vres) as [|dists0 rest']; simpl; intros Hlen.
    + destruct docs0; [|simpl in Hlen; lia]. exists ∅. split; reflexivity.
    + destruct (vector_distance_loop_spec docs0 dists0 rest' 0 ∅) as (m' & Hrun & Hm').
      { rewrite drop_0. exact Hlen. }
      exists m'. split; [exact Hrun|]. intros doc. rewrite Hm', drop_0.
      destruct (last _); reflexivity.
Qed.

Lemma combine_loop_spec (alpha : F) (docs : list str) (metadatas : list metadata)
  (lexical : list F) (dmap : gmap str F) (i : nat) :
  (length docs + i <= length lexical)%nat ->
  metadatas = [] \/ (length docs + i <= length metadatas)%nat ->
  combine_loop alpha docs metadatas lexical dmap i =
  Ok (imap (fun j doc =>
              scored_chunk alpha (fun d => default (of_Z 0) (dmap !! d)) doc
                           (metadata_at metadatas (i + j)%nat)
                           (default (of_Z 0) (lexical !! (i + j)%nat)))
           docs).
Proof.
  revert i. induction docs as [|doc docs IH]; intros i Hlex Hmd; [reflexivity|].
  cbn [combine_loop imap]. simpl in Hlex.
  destruct (lookup_lt_is_Some_2 lexical i) as [l Hl]; [lia|].
  assert ((match metadatas with [] => Ok empty_metadata | _ => index metadatas i end)
          = Ok (metadata_at metadatas i)) as ->.
  { unfold metadata_at, index. destruct Hmd as [->|Hmd]; [reflexivity|].
    destruct (lookup_lt_is_Some_2 metadatas i) as [md Hm]; [simpl in Hmd; lia|].
    rewrite Hm. destruct metadatas; reflexivity. }
  unfold index at 1. rewrite Hl.
  rewrite (IH (S i)).
  - rewrite Nat.add_0_r, Hl. f_equal. f_equal.
    apply imap_ext. intros j x _. simpl. rewrite Nat.add_succ_r. reflexivity.
  - lia.
  - destruct Hmd as [->|Hmd]; [left; reflexivity|right; simpl in Hmd; lia].
Qed.

(** The key of the sort orders the results as their fused scores do. *)
Lemma score_key_equiv (r : SearchResult F) :
  fle (score_key r) (fused_score r) = true /\ fle (fused_score r) (score_key r) = true.
Proof.
  unfold score_key, fused_score. destruct (score r) as [s|]; simpl.
  - unfold truthy. destruct (flt s (of_Z 0)) eqn:E1; simpl.
    + split; apply fle_refl.
    + destruct (flt (of_Z 0) s) eqn:E2; [split; apply fle_refl|].
      unfold fle. rewrite E1, E2. split; reflexivity.
  - split; apply fle_refl.
Qed.

(** With non-negative raw scores the normalised scores lie in [0,1]. *)
Lemma normalised_range (scores : list F) (m : F) :
  is_maximum m scores ->
  Forall (fun s => fle (of_Z 0) s = true) scores ->
  Forall (fun l => fle (of_Z 0) l = true /\ fle l (of_Z 1) = true)
         (map (fun s => fdiv s (norm_divisor m)) scores).
Proof.
  intros [_ Hmax] Hpos. rewrite Forall_map, Forall_forall in *.
  intros s Hs. unfold norm_divisor. destruct (flt (of_Z 0) m) eqn:E.
  - split; [apply fdiv_nonneg|apply fdiv_le_one]; auto.
  - rewrite fdiv_one. split; [auto|].
    eapply fle_trans; [apply (Hmax s Hs)|].
    eapply fle_trans; [|apply zero_le_one]. unfold fle. rewrite E. reflexivity.
Qed.

(** C2, as the code has it. On a corpus that is not empty, with a store,
    an index and an embedding that answer, [hybrid_search] returns the
    first [top_k] of a list [ranked] that holds every chunk of the corpus
    exactly once with its fused score
    [alpha * vector_similarity + (1 - alpha) * lexical_similarity], sorted
    by descending fused score. The lexical similarity is the raw score
    divided by the maximum [m] of the raw scores, or by 1 when [m] is not
    positive, which lies in [0,1] when no raw score is negative. The vector
    similarity of a chunk is found by its text: [1 - d/2] for the distance
    [d] of the last result of the vector query that has the text of the
    chunk, and 0 when no result has it. *)
Theorem hybrid_search_ranking (e : env F) (query : str) (top_k : Z)
  (filter_metadata : option where_filter) (alpha : F)
  (query_embedding : option (list F)) (w w1 : world F) (coll : collection F)
  (index : bm25) (documents : list str) (metadatas : list metadata)
  (scores : list F) (q : list F) (vres : query_result F) :
  get_collection e = Ok coll ->
  _get_bm25_index e coll filter_metadata w = (Ok (Some index, documents, metadatas), w1) ->
  documents <> [] ->
  get_scores index (split (lower query)) = Ok scores ->
  length scores = length documents ->
  metadatas = [] \/ length metadatas = length documents ->
  match query_embedding with Some q => Ok q | None => embed_content e query end = Ok q ->
  coll_query coll q (py_min (top_k * 2) (Z.of_nat (length documents))) filter_metadata
    = Ok vres ->
  (length (result_documents vres) <= length (result_distances vres))%nat ->
  (0 <= top_k)%Z ->
  exists (ranked : list (SearchResult F)) (m : F),
    (hybrid_search e query top_k filter_metadata alpha query_embedding w).1
      = Ok (take (Z.to_nat top_k) ranked) /\
    is_maximum m scores /\
    ranked ≡ₚ
      scored_corpus alpha
        (text_similarity (result_documents vres) (result_distances vres))
        documents metadatas (map (fun s => fdiv s (norm_divisor m)) scores) /\
    StronglySorted (fun a b => fle (fused_score b) (fused_score a) = true) ranked /\
    (Forall (fun s => fle (of_Z 0) s = true) scores ->
     Forall (fun l => fle (of_Z 0) l = true /\ fle l (of_Z 1) = true)
            (map (fun s => fdiv s (norm_divisor m)) scores)).
Proof.
  intros Hcoll Hindex Hdocs Hscores Hlen Hmd Hemb Hquery Hvlen Htop.
  destruct (py_max_nonempty scores) as [m Hm].
  { destruct scores; [|discriminate]. destruct documents; [congruence|discriminate]. }
  destruct (vector_distance_map_spec vres Hvlen) as (dmap & Hdmap & Hsim).
  set (lexical := map (fun s => fdiv s (norm_divisor m)) scores).
  set (combined := scored_corpus alpha
         (text_similarity (result_documents vres) (result_distances vres))
         documents metadatas lexical).
  assert (combine_loop alpha documents metadatas lexical dmap 0 = Ok combined) as Hcomb.
  { rewrite combine_loop_spec.
    - f_equal. apply imap_ext. intros j doc _. simpl.
      unfold scored_chunk. rewrite Hsim. reflexivity.
    - subst lexical. rewrite length_map. lia.
    - destruct Hmd as [->|Hmd]; [left; reflexivity|right; lia]. }
  exists (sort_reverse score_key combined), m.
  split; [|split; [|split; [|split]]].
  - unfold hybrid_search, try_except, hybrid_search_body.
    unfold mbind, M_bind, bind, lift. rewrite Hcoll, Hindex.
    destruct documents as [|doc documents']; [congruence|].
    rewrite Hscores, Hm. fold (norm_divisor m). unfold fgt. fold (norm_divisor m).
    fold lexical.
    assert ((match query_embedding with
             | Some q0 => ret q0
             | None => generate_embedding e query
             end) w1
            = (Ok q, match query_embedding with
                     | Some _ => w1
                     | None => add_event (EmbedContent query) w1
                     end)) as ->.
    { destruct query_embedding as [q0|].
      - injection Hemb as ->. reflexivity.
      - unfold generate_embedding, call. rewrite Hemb. reflexivity. }
    unfold call. rewrite Hquery, Hdmap, Hcomb. unfold ret. cbn [fst].
    unfold slice_to. destruct (Z.leb_spec 0 top_k); [reflexivity|lia].
  - apply py_max_spec, Hm.
  - apply stable_sort_perm.
  - eapply StronglySorted_weaken; [|apply sort_reverse_sorted].
    intros a b Hab. cbv beta in Hab.
    destruct (score_key_equiv a) as [Ha1 Ha2]. destruct (score_key_equiv b) as [Hb1 Hb2].
    eapply fle_trans; [exact Hb2|]. eapply fle_trans; [exact Hab|exact Ha1].
  - apply normalised_range, py_max_spec, Hm.
Qed.

End RankingFacts.

(** ** The services on concrete inputs *)

Module Examples.
Import Standin Inputs Rag.

#[local] Existing Instance Q_num.
#[local] Existing Instance count_bm25.
#[local] Existing Instance plain_codec.

Lemma Qlt_flag (x y : Q) : negb (Qle_bool y x) = true <-> (x < y)%Q.
Proof.
  rewrite negb_true_iff, <- not_true_iff_false, Qle_bool_iff. split.
  - apply Qnot_le_lt.
  - apply Qlt_not_le.
Qed.

Lemma Qle_flag (x y : Q) : @fle Q Q_num x y = true <-> (x <= y)%Q.
Proof.
  unfold fle. cbn [flt Q_num]. rewrite negb_involutive. apply Qle_bool_iff.
Qed.

#[global] Instance Q_laws : PyNumLaws Q.
Proof.
  split.
  - intros x y E. cbn [flt Q_num] in *. apply Qlt_flag in E.
    apply negb_false_iff, Qle_bool_iff, Qlt_le_weak, E.
  - intros x y z. rewrite !Qle_flag. apply Qle_trans.
  - reflexivity.
  - intros [a b]. cbn. unfold Qdiv, Qmult, Qinv. cbn.
    rewrite Z.mul_1_r, Pos.mul_1_r. reflexivity.
  - intros x m. rewrite !Qle_flag. cbn [flt Q_num]. rewrite Qlt_flag.
    intros Hx Hm. apply Qle_shift_div_l; [exact Hm|]. 
    rewrite Qmult_0_l. exact Hx.
  - intros x m. rewrite !Qle_flag. cbn [flt Q_num]. rewrite Qlt_flag.
    intros Hx Hm. apply Qle_shift_div_r; [exact Hm|].
    rewrite Qmult_1_l. exact Hx.
Qed.

(** C2, as the specification words it, fails on chunks that share their
    text. The chunk [d2_0] has the text of [d1_0] and is not among the four
    results of the vector query; the code gives it the similarity of
    [d1_0], hence the fused score 3/4 and the second place, where the
    specification gives it the vector similarity 0, hence the fused score
    1/2, and returns the chunk of [d5] second. *)
Lemma hybrid_search_matches_by_text :
  let scores := count_scores (tokenize_corpus (get_documents corpus5))
                             (split (lower (lit "a x"))) in
  let by_code :=
    (hybrid_search (env5 100) (lit "a x") 2 None (1 # 2)%Q (Some [1 # 2]%Q) fresh_world).1 in
  let by_spec := spec_hybrid_search (1 # 2)%Q 2 corpus5 nearest4 scores in
  (lit "d2_0" ∉ default [] (head (query_ids nearest4))) /\
  match by_code with
  | Ok results => map source results = [lit "d1"; lit "d2"]
  | Raise _ => False
  end /\
  map source by_spec = [lit "d1"; lit "d5"] /\
  by_code <> Ok by_spec.
Proof.
  intros scores by_code by_spec. split; [|split; [|split]].
  - intros Hin. vm_compute in Hin.
    repeat (apply elem_of_cons in Hin as [Hin|Hin]; [discriminate Hin|]).
    inversion Hin.
  - vm_compute. reflexivity.
  - vm_compute. reflexivity.
  - intros E. assert (match by_code with
                      | Ok results => map source results
                      | Raise _ => []
                      end = map source by_spec) as E' by (rewrite E; reflexivity).
    vm_compute in E'. discriminate E'.
Qed.

(** The ranking on the corpus of five chunks, for the query [a x] and
    [top_k = 2]; the raw scores are 2, 2, 0, 0 and 1. *)
Lemma hybrid_search_ranking_witness :
  exists (ranked : list (SearchResult Q)) (m : Q),
    (hybrid_search (env5 100) (lit "a x") 2 None (1 # 2)%Q (Some [1 # 2]%Q) fresh_world).1
      = Ok (take 2 ranked) /\
    is_maximum m [2; 2; 0; 0; 1]%Q /\
    ranked ≡ₚ
      scored_corpus (1 # 2)%Q
        (text_similarity (result_documents nearest4) (result_distances nearest4))
        (get_documents corpus5) (get_metadatas corpus5)
        (map (fun s => fdiv s (norm_divisor m)) [2; 2; 0; 0; 1]%Q) /\
    StronglySorted (fun a b => fle (fused_score b) (fused_score a) = true) ranked /\
    (Forall (fun s => fle (of_Z 0) s = true) [2; 2; 0; 0; 1]%Q ->
     Forall (fun l => fle (of_Z 0) l = true /\ fle l (of_Z 1) = true)
            (map (fun s => fdiv s (norm_divisor m)) [2; 2; 0; 0; 1]%Q)).
Proof.
  apply (hybrid_search_ranking (env5 100) (lit "a x") 2 None (1 # 2)%Q
           (Some [1 # 2]%Q) fresh_world
           (rebuilt 100%Q None corpus5 index5 fresh_world)
           store5 index5
           (get_documents corpus5) (get_metadatas corpus5)
           [2; 2; 0; 0; 1]%Q [1 # 2]%Q nearest4).
  - reflexivity.
  - reflexivity.
  - discriminate.
  - reflexivity.
  - reflexivity.
  - right. reflexivity.
  - reflexivity.
  - reflexivity.
  - vm_compute. lia.
  - lia.
Defined.

(** The pipeline on an empty store, with the cache in use. *)
Lemma rag_query_empty_context_witness :
  exists w',
    rag_query (env0 100) (lit "x") None 3 true None fresh_world
      = (Ok (NO_CONTEXT_RESPONSE, []), w') /\
    cache_untouched fresh_world w'.
Proof.
  apply (rag_query_empty_context (env0 100) (lit "x") None 3 true None fresh_world
           (add_event (EmbedContent (lit "x")) fresh_world)
           (add_event
              (RedisGet (SemanticCache._generate_cache_key
                           SemanticCache.semantic_cache [1 # 2]%Q))
              (add_event (EmbedContent (lit "x")) fresh_world))
           (add_event (CollectionGet None)
              (add_event
                 (RedisGet (SemanticCache._generate_cache_key
                              SemanticCache.semantic_cache [1 # 2]%Q))
                 (add_event (EmbedContent (lit "x")) fresh_world)))
           [1 # 2]%Q []).
  - reflexivity.
  - reflexivity.
  - reflexivity.
  - reflexivity.
Defined.

(** An entry set at second 100 and read at second 200 (the TTL is 3600). *)
Lemma cache_set_get_roundtrip_witness :
  let self := SemanticCache.semantic_cache in
  let key := SemanticCache._generate_cache_key self [1 # 2]%Q in
  let w1 := (SemanticCache.set self (env5 100) [1 # 2]%Q (lit "hi") [entry1] fresh_world).2 in
  SemanticCache.set self (env5 100) [1 # 2]%Q (lit "hi") [entry1] fresh_world
    = (Ok true, w1) /\
  trace w1 = trace fresh_world ++
             [RedisSetex key (SemanticCache.ttl self) (dumps_cache_data (lit "hi", [entry1]))] /\
  (SemanticCache.get self (env5 200) [1 # 2]%Q w1).1 = Ok (Some (lit "hi", [entry1])) /\
  trace (SemanticCache.get self (env5 200) [1 # 2]%Q w1).2 = trace w1 ++ [RedisGet key] /\
  key = SemanticCache.cache_prefix self ++
        take 16 (sha256_hexdigest (dumps_embedding [1 # 2]%Q)).
Proof.
  apply (cache_set_get_roundtrip SemanticCache.semantic_cache (env5 100) (env5 200)
           [1 # 2]%Q (lit "hi") [entry1] fresh_world ∅).
  - reflexivity.
  - reflexivity.
  - reflexivity.
  - reflexivity.
  - reflexivity.
  - discriminate.
Defined.

(** The index built at second 100 from the five chunks, asked again at
    second 200 of a store that has become empty, under another filter. *)
Lemma bm25_index_cached_until_invalidated_witness :
  let w1 := rebuilt 100%Q None corpus5 index5 fresh_world in
  _get_bm25_index (env5 200) store0 (only_category "A") w1
    = (Ok (Some index5, get_documents corpus5, get_metadatas corpus5), w1) /\
  let w2 := (invalidate_bm25_cache w1).2 in
  bm25_cache_valid (now (env5 200)) (rag w2) = false /\
  trace (_get_bm25_index (env5 200) store0 (only_category "A") w2).2
    = trace w1 ++ [CollectionGet (only_category "A")] /\
  (forall res index',
      coll_get store0 (only_category "A") = Ok res -> get_documents res <> [] ->
      BM25Okapi (tokenize_corpus (get_documents res)) = Ok index' ->
      (_get_bm25_index (env5 200) store0 (only_category "A") w2).1
        = Ok (Some index', get_documents res, get_metadatas res)) /\
  (forall (w' : world Q) res,
      bm25_cache_valid (now (env5 200)) (rag w') = false ->
      coll_get store0 (only_category "A") = Ok res -> get_documents res = [] ->
      _get_bm25_index (env5 200) store0 (only_category "A") w'
        = (Ok (None, [], []), add_event (CollectionGet (only_category "A")) w')).
Proof.
  apply (bm25_index_cached_until_invalidated (env5 100) (env5 200) store5 store0
           None (only_category "A") fresh_world
           (rebuilt 100%Q None corpus5 index5 fresh_world)
           index5 (get_documents corpus5) (get_metadatas corpus5)).
  - reflexivity.
  - intros t [= <-]. reflexivity.
Defined.

(** The index built under the filter of category [A], asked again with
    no filter. *)
Lemma bm25_cache_ignores_filter_witness :
  let first := _get_bm25_index (env5 100) store5 (only_category "A") fresh_world in
  first.1 = Ok (Some index5, get_documents corpus5, get_metadatas corpus5) /\
  _get_bm25_index (env5 200) store0 None first.2 = (first.1, first.2) /\
  (forall query top_k alpha query_embedding r,
      get_collection (env5 200) = Ok store0 ->
      match (hybrid_search (env5 200) query top_k None alpha query_embedding first.2).1 with
      | Ok results => r ∈ results
      | Raise _ => False
      end ->
      content r ∈ get_documents corpus5) /\
  (forall (w' : world Q) res2 index2,
      bm25_cache_valid (now (env5 200)) (rag w') = false ->
      coll_get store0 None = Ok res2 -> get_documents res2 <> [] ->
      BM25Okapi (tokenize_corpus (get_documents res2)) = Ok index2 ->
      (_get_bm25_index (env5 200) store0 None w').1
        = Ok (Some index2, get_documents res2, get_metadatas res2)) /\
  (forall (w' : world Q) res2,
      bm25_cache_valid (now (env5 200)) (rag w') = false ->
      coll_get store0 None = Ok res2 -> get_documents res2 = [] ->
      (_get_bm25_index (env5 200) store0 None w').1 = Ok (None, [], []) /\
      rag (_get_bm25_index (env5 200) store0 None w').2 = rag w').
Proof.
  apply (bm25_cache_ignores_filter (env5 100) (env5 200) store5 store0
           (only_category "A") None fresh_world corpus5 index5).
  - reflexivity.
  - reflexivity.
  - discriminate.
  - reflexivity.
  - reflexivity.
Defined.

(** C7, as the specification words it, fails on an empty corpus: nothing
    is cached, and the second of two calls 100 seconds apart (the TTL is
    300) asks the store again. *)
Lemma bm25_index_empty_corpus_refetched :
  let first := _get_bm25_index (env0 100) store0 None fresh_world in
  let second := _get_bm25_index (env0 200) store0 None first.2 in
  first.1 = Ok (None, [], []) /\
  second.1 = Ok (None, [], []) /\
  flt (fsub (now (env0 200)) (now (env0 100))) (_bm25_cache_ttl (rag fresh_world)) = true /\
  trace first.2 = [CollectionGet None] /\
  trace second.2 = [CollectionGet None; CollectionGet None].
Proof. repeat split. Qed.

(** C10, as the specification words it, fails when the filter of the
    first call matches nothing: nothing is cached, and the second call,
    within the TTL and with no invalidation, builds the index under its
    own filter. *)
Lemma bm25_filter_after_empty_first_call :
  let first := _get_bm25_index (env5 100) store_without_b (only_category "B") fresh_world in
  let second := _get_bm25_index (env5 200) store_without_b None first.2 in
  first.1 = Ok (None, [], []) /\
  flt (fsub (now (env5 200)) (now (env5 100))) (_bm25_cache_ttl (rag fresh_world)) = true /\
  second.1 = Ok (Some index5, get_documents corpus5, get_metadatas corpus5) /\
  trace second.2 = [CollectionGet (only_category "B"); CollectionGet None] /\
  second.1 <> first.1.
Proof. repeat split. discriminate. Qed.

(** C9 (every text of the generator, streamed fragments included, has its
    markup removed). [generate_response] strips the tags of the answer of
    the model; [generate_response_stream] yields the fragments of the same
    answer as the model sends them, tags included. *)
Theorem generate_response_stream_keeps_tags :
  (generate_response env_tags (lit "q") (lit "ctx") None None fresh_world).1
    = Ok (lit "Xin chao") /\
  (generate_response_stream env_tags (lit "q") (lit "ctx") None None fresh_world).1
    = Ok [lit "<p>Xin "; lit "<b>chao</b></p>"].
Proof. split; vm_compute; reflexivity. Qed.

End Examples.

(** * Further properties of the services *)

(** ** Reranking *)

Section RerankFacts.
Context {F : Type} `{PyNumLaws F}.
Import Rag.

(** A list sorted by a key ascends along it. *)
Lemma sorted_by_sorted {A : Type} (key : A -> F) (l : list A) :
  StronglySorted (fun a b => fle (key a) (key b) = true) (sorted_by key l).
Proof.
  unfold sorted_by.
  pose proof (stable_sort_sorted (fun y x => flt (key y) (key x))) as Hs.
  eapply StronglySorted_weaken; [|apply Hs].
  - intros a b Hab. unfold in_order in Hab. unfold fle. rewrite Hab. reflexivity.
  - intros x y E. apply flt_asym, E.
  - intros x y z. unfold in_order. intros E1 E2.
    assert (fle (key x) (key z) = true) as E3.
    { apply (fle_trans _ (key y)); unfold fle; [rewrite E1|rewrite E2]; reflexivity. }
    unfold fle in E3. destruct (flt (key z) (key x)); [discriminate|reflexivity].
Qed.

(** X1: for a limit that is not negative, [rerank_results] returns the
    first [top_k] results of the list sorted by ascending distance: a
    rearrangement of the results, in ascending order of distance, cut to at
    most [top_k] of them. *)
Theorem rerank_results_sorted_prefix (query : str) (results : list (SearchResult F))
  (top_k : Z) :
  (0 <= top_k)%Z ->
  exists sorted : list (SearchResult F),
    sorted ≡ₚ results /\
    StronglySorted (fun a b => fle (distance a) (distance b) = true) sorted /\
    rerank_results query results top_k = take (Z.to_nat top_k) sorted /\
    (length (rerank_results query results top_k) <= Z.to_nat top_k)%nat /\
    (length (rerank_results query results top_k) <= length results)%nat.
Proof.
  intros Hk. exists (sorted_by distance results).
  assert (rerank_results query results top_k
          = take (Z.to_nat top_k) (sorted_by distance results)) as E.
  { unfold rerank_results, slice_to. destruct (Z.leb_spec 0 top_k); [|lia].
    destruct results; [|reflexivity]. cbn. rewrite take_nil. reflexivity. }
  split; [apply stable_sort_perm|]. split; [apply sorted_by_sorted|].
  split; [exact E|]. rewrite E, length_take.
  assert (length (sorted_by distance results) = length results) as ->.
  { apply Permutation_length, stable_sort_perm. }
  lia.
Qed.

End RerankFacts.

Section SortedAlready.
Context {A : Type} (before : A -> A -> bool).
Import Rag.

(** Sorting a list that is in order leaves it as it is. *)
Lemma stable_sort_sorted_id (l : list A) :
  StronglySorted (in_order before) l -> stable_sort before l = l.
Proof.
  induction 1 as [|x l Hs IH Hx]; [reflexivity|].
  simpl. rewrite IH. destruct Hx as [|y l' Hy Hl']; [reflexivity|].
  simpl. unfold in_order in Hy. rewrite Hy. reflexivity.
Qed.

Lemma StronglySorted_take (R : A -> A -> Prop) (n : nat) (l : list A) :
  StronglySorted R l -> StronglySorted R (take n l).
Proof.
  intros Hs. rewrite <- (take_drop n l) in Hs.
  apply StronglySorted_app_1_l in Hs. exact Hs.
Qed.

Lemma StronglySorted_slice_to (R : A -> A -> Prop) (k : Z) (l : list A) :
  StronglySorted R l -> StronglySorted R (slice_to l k).
Proof. unfold slice_to. destruct (0 <=? k)%Z; apply StronglySorted_take. Qed.

Lemma Forall_slice_to (P : A -> Prop) (k : Z) (l : list A) :
  Forall P l -> Forall P (slice_to l k).
Proof. unfold slice_to. destruct (0 <=? k)%Z; apply Forall_take. Qed.

End SortedAlready.

Section RetrievalShape.
Context {F : Type} `{PyNum F} `{Bm25Lib F} `{Unicode}.
Import Rag.

(** What [hybrid_search] returns is the empty list or the cut of the
    sorted list of the scored corpus. *)
Lemma hybrid_search_shape (e : env F) (query : str) (top_k : Z)
  (filter_metadata : option where_filter) (alpha : F)
  (query_embedding : option (list F)) (w : world F) :
  (hybrid_search e query top_k filter_metadata alpha query_embedding w).1 = Ok [] \/
  exists documents metadatas lexical dmap combined,
    combine_loop alpha documents metadatas lexical dmap 0 = Ok combined /\
    (hybrid_search e query top_k filter_metadata alpha query_embedding w).1
      = Ok (slice_to (sort_reverse score_key combined) top_k).
Proof.
  unfold hybrid_search, try_except, hybrid_search_body.
  unfold mbind, M_bind, bind, lift.
  destruct (get_collection e) as [coll|ex]; [|left; reflexivity].
  destruct (_get_bm25_index e coll filter_metadata w)
    as [[[[bm25_index documents] metadatas]|ex] w1]; [|left; reflexivity].
  destruct bm25_index as [bm25_index|]; [|left; reflexivity].
  destruct documents as [|doc documents]; [left; reflexivity|].
  destruct (get_scores bm25_index (split (lower query))) as [scores|ex];
    [|left; reflexivity].
  destruct (py_max scores) as [m|ex]; [|left; reflexivity].
  destruct (match query_embedding with Some q => ret q | None => _ end w1)
    as [[q|ex] w2]; [|left; reflexivity].
  unfold call. destruct (coll_query coll q _ filter_metadata) as [vres|ex];
    [|left; reflexivity].
  destruct (vector_distance_map vres) as [dmap|ex]; [|left; reflexivity].
  destruct (combine_loop alpha (doc :: documents) metadatas _ dmap 0)
    as [combined|ex] eqn:Hcomb; [|left; reflexivity].
  right. do 5 eexists. split; [exact Hcomb|reflexivity].
Qed.

(** Every scored chunk carries its fused score, and one minus it as its
    distance. *)
Lemma combine_loop_scores (alpha : F) (documents : list str)
  (metadatas : list metadata) (lexical : list F)
  (dmap : gmap str F) (i : nat) (results : list (SearchResult F)) :
  combine_loop alpha documents metadatas lexical dmap i = Ok results ->
  Forall (fun r => exists h, score r = Some h /\ distance r = fsub (of_Z 1) h) results.
Proof.
  revert i results. induction documents as [|doc docs IH]; intros i results; simpl.
  - intros [= <-]. constructor.
  - destruct (match metadatas with [] => _ | _ => _ end) as [md|ex]; [|discriminate].
    destruct (index lexical i) as [l|ex]; [|discriminate].
    destruct (combine_loop alpha docs metadatas lexical dmap (S i)) as [rs|ex] eqn:E;
      [|discriminate].
    intros [= <-]. constructor; [|eapply IH, E]. eexists. split; reflexivity.
Qed.

End RetrievalShape.

Section RerankAfterRetrieval.
Context {F : Type} `{PyNumMonotone F} `{Bm25Lib F} `{Unicode}.
Import Rag.

(** A list that descends along the fused score, each distance being one
    minus the score, ascends along the distance. *)
Lemma descending_score_ascending_distance (l : list (SearchResult F)) :
  Forall (fun r => exists h, score r = Some h /\ distance r = fsub (of_Z 1) h) l ->
  StronglySorted (fun a b => fle (score_key b) (score_key a) = true) l ->
  StronglySorted (in_order (fun y x : SearchResult F => flt (distance y) (distance x))) l.
Proof.
  intros Hall Hs. induction Hs as [|a l Hs IH Ha]; [constructor|].
  apply Forall_cons in Hall as [(ha & Hsa & Hda) Hall].
  constructor; [apply IH, Hall|].
  rewrite Forall_forall in *. intros b Hb. destruct (Hall b Hb) as (hb & Hsb & Hdb).
  specialize (Ha b Hb). unfold in_order.
  destruct (score_key_equiv a) as [Ha1 _]. destruct (score_key_equiv b) as [_ Hb2].
  unfold fused_score in Ha1, Hb2. rewrite Hsa in Ha1. rewrite Hsb in Hb2. simpl in *.
  assert (fle hb ha = true) as Hle.
  { eapply fle_trans; [exact Hb2|]. eapply fle_trans; [exact Ha|exact Ha1]. }
  apply one_minus_anti in Hle. rewrite Hda, Hdb. unfold fle in Hle.
  destruct (flt (fsub (of_Z 1) hb) (fsub (of_Z 1) ha)); [discriminate|reflexivity].
Qed.

(** X2: reranking what [hybrid_search] returned never changes the order:
    the results come sorted by descending fused score, their distance is
    one minus that score, so the sort by ascending distance leaves them in
    place and [rerank_results] only cuts the list to its first [k]. *)
Theorem rerank_keeps_retrieval_order (e : env F) (query : str) (top_k : Z)
  (filter_metadata : option where_filter) (alpha : F)
  (query_embedding : option (list F)) (w : world F) (k : Z) :
  exists results,
    (hybrid_search e query top_k filter_metadata alpha query_embedding w).1 = Ok results /\
    rerank_results query results k = slice_to results k.
Proof.
  destruct (hybrid_search_shape e query top_k filter_metadata alpha query_embedding w)
    as [E|(documents & metadatas & lexical & dmap & combined & Hcomb & E)];
    rewrite E; eexists; (split; [reflexivity|]).
  - unfold slice_to. destruct (0 <=? k)%Z; cbn; rewrite ?take_nil; reflexivity.
  - set (results := slice_to (sort_reverse score_key combined) top_k).
    assert (sorted_by distance results = results) as Hid.
    { apply stable_sort_sorted_id, descending_score_ascending_distance.
      - apply Forall_slice_to.
        pose proof (combine_loop_scores _ _ _ _ _ _ _ Hcomb) as Hall.
        rewrite Forall_forall in *. intros r Hr. apply Hall.
        unfold sort_reverse in Hr. rewrite stable_sort_perm in Hr. exact Hr.
      - apply StronglySorted_slice_to, sort_reverse_sorted. }
    unfold rerank_results. rewrite Hid. destruct results; [|reflexivity].
    unfold slice_to. destruct (0 <=? k)%Z; cbn; rewrite ?take_nil; reflexivity.
Qed.

End RerankAfterRetrieval.

(** ** The prompt and the sanitizer *)

Section PromptFacts.
Import Rag.

Lemma last_five_short {A : Type} (l : list A) : (length l <= 5)%nat -> last_five l = l.
Proof.
  intros Hl. unfold last_five. replace (length l - 5)%nat with 0%nat by lia. reflexivity.
Qed.

Lemma last_five_app {A : Type} (older recent : list A) :
  length recent = 5%nat -> last_five (older ++ recent) = recent.
Proof.
  intros Hl. unfold last_five. rewrite length_app, Hl.
  replace (length older + 5 - 5)%nat with (length older) by lia.
  apply drop_app_length.
Qed.

(** X3: only the last five messages of the history reach the prompt:
    whatever came before them changes nothing; and a history that is
    missing and one that is empty give the same prompt. *)
Theorem build_prompt_last_five (system_prompt : option str) (context query : str)
  (older recent : list message) :
  length recent = 5%nat ->
  build_prompt system_prompt context (Some (older ++ recent)) query
    = build_prompt system_prompt context (Some recent) query /\
  build_prompt system_prompt context (Some []) query
    = build_prompt system_prompt context None query.
Proof.
  intros Hl. split; [|reflexivity]. unfold build_prompt.
  destruct recent as [|m recent]; [discriminate|].
  destruct (older ++ m :: recent) as [|m' l'] eqn:E.
  - apply app_eq_nil in E as [_ E]. discriminate.
  - rewrite <- E, last_five_app by exact Hl.
    rewrite last_five_short by (rewrite Hl; lia). reflexivity.
Qed.

End PromptFacts.

Section StripFacts.
Context `{Unicode}.

Lemma lstrip_head (t : str) (c : char) : head (lstrip t) = Some c -> is_space c = false.
Proof.
  induction t as [|d t IH]; simpl; [discriminate|].
  destruct (is_space d) eqn:E; [exact IH|]. intros [= <-]. exact E.
Qed.

Lemma lstrip_suffix (t : str) : exists pre, t = pre ++ lstrip t.
Proof.
  induction t as [|d t [pre IH]]; simpl; [exists []; reflexivity|].
  destruct (is_space d).
  - exists (d :: pre). simpl. f_equal. exact IH.
  - exists []. reflexivity.
Qed.

Lemma lstrip_id (t : str) :
  match head t with Some c => is_space c = false | None => True end -> lstrip t = t.
Proof. destruct t as [|c t]; simpl; [reflexivity|]. intros ->. reflexivity. Qed.

Lemma head_reverse {A : Type} (l : list A) : head (reverse l) = last l.
Proof.
  induction l as [|x l IH] using rev_ind; [reflexivity|].
  rewrite reverse_app, last_snoc. reflexivity.
Qed.

Lemma last_reverse {A : Type} (l : list A) : last (reverse l) = head l.
Proof. rewrite <- head_reverse, reverse_involutive. reflexivity. Qed.

(** What [strip] returns neither begins nor ends with a space. *)
Lemma strip_edges (t : str) (c : char) :
  head (strip t) = Some c \/ last (strip t) = Some c -> is_space c = false.
Proof.
  unfold strip. rewrite head_reverse, last_reverse. intros [E|E].
  - destruct (lstrip_suffix (reverse (lstrip t))) as [pre Hpre].
    destruct (lstrip (reverse (lstrip t))) as [|d u] eqn:Eu; [discriminate|].
    assert (last (reverse (lstrip t)) = Some c) as E'.
    { rewrite Hpre. rewrite last_app. rewrite E. reflexivity. }
    rewrite last_reverse in E'. apply (lstrip_head t), E'.
  - apply (lstrip_head (reverse (lstrip t))), E.
Qed.

(** A text with no space at either end is left as it is. *)
Lemma strip_id (t : str) :
  (forall c, head t = Some c \/ last t = Some c -> is_space c = false) -> strip t = t.
Proof.
  intros Ht. unfold strip. rewrite (lstrip_id t).
  - rewrite lstrip_id; [apply reverse_involutive|].
    rewrite head_reverse. destruct (last t) eqn:E; [|exact I]. apply Ht. auto.
  - destruct (head t) eqn:E; [|exact I]. apply Ht. auto.
Qed.

(** A pattern that begins with a character the text does not hold matches
    nowhere, and the substitution returns the text. *)
Lemma sub_from_absent (p : char -> bool) (its : list item) (prev : option char) (t : str) :
  Forall (fun c => p c = false) t -> sub_from (One p :: its) O prev t = t.
Proof.
  revert prev. induction t as [|c t IH]; intros prev Hall; [reflexivity|].
  apply Forall_cons in Hall as [Hc Hall].
  cbn [sub_from match_here]. rewrite Hc. f_equal. apply IH, Hall.
Qed.

End StripFacts.

Section SanitizeFacts.
Context {F : Type} `{PyNum F} `{Bm25Lib F} `{CodecLib F} `{Unicode}.
Import Rag.

(** X4: the sanitizer does not touch plain text. A text without the
    character [<] comes back stripped of the spaces around it and otherwise
    unchanged, and unchanged altogether when it has no space at either end;
    and whatever the text, the result neither begins nor ends with a
    space. *)
Theorem sanitize_plain_text (text : str) :
  (60 ∉ text -> sanitize text = strip text) /\
  (60 ∉ text ->
   (forall c, head text = Some c \/ last text = Some c -> is_space c = false) ->
   sanitize text = text) /\
  (forall c, head (sanitize text) = Some c \/ last (sanitize text) = Some c ->
             is_space c = false).
Proof.
  assert (60 ∉ text -> sanitize text = strip text) as Hplain.
  { intros Hno. unfold sanitize, re_sub_empty, TAG_PATTERN, LOOSE_TAG_PATTERN.
    assert (Forall (fun c => is_char 60 c = false) text) as Hall.
    { rewrite Forall_forall. intros c Hc. unfold is_char.
      apply N.eqb_neq. intros <-. apply Hno, Hc. }
    rewrite (sub_from_absent _ _ None text Hall).
    rewrite (sub_from_absent _ _ None text Hall). reflexivity. }
  split; [exact Hplain|]. split.
  - intros Hno Hedges. rewrite Hplain by exact Hno. apply strip_id, Hedges.
  - intros c. unfold sanitize. apply strip_edges.
Qed.

End SanitizeFacts.

(** ** The streaming generator *)

Section StreamFacts.
Context {F : Type} `{PyNum F} `{Bm25Lib F} `{CodecLib F} `{Unicode}.
Import Rag.

Lemma keeps_globals_refl (w : world F) : keeps_globals w w.
Proof. repeat split. Qed.

Lemma keeps_globals_trans (w1 w2 w3 : world F) :
  keeps_globals w1 w2 -> keeps_globals w2 w3 -> keeps_globals w1 w3.
Proof.
  intros (A1 & A2 & A3 & A4) (B1 & B2 & B3 & B4). repeat split; congruence.
Qed.

Lemma keeps_globals_add_event (ev : event F) (w : world F) : keeps_globals w (add_event ev w).
Proof. repeat split. Qed.

Lemma stream_chunks_texts (texts : list str) :
  stream_chunks (map Ok texts) = (filter (fun t => t <> []) texts, None).
Proof.
  induction texts as [|t texts IH]; [reflexivity|].
  cbn [map stream_chunks]. rewrite IH. destruct t; reflexivity.
Qed.

Lemma stream_chunks_broken (texts : list str) (ex : exn) (tail : list (outcome str)) :
  stream_chunks (map Ok texts ++ Raise ex :: tail)
    = (filter (fun t => t <> []) texts, Some ex).
Proof.
  induction texts as [|t texts IH]; [reflexivity|].
  cbn [map app stream_chunks]. rewrite IH. destruct t; reflexivity.
Qed.

Lemma connect_stream_first_success e prompt failed m rest it (w : world F) :
  (forall m', m' ∈ failed -> fails (generate_content_stream e m' prompt)) ->
  generate_content_stream e m prompt = Ok it ->
  connect_stream e prompt (failed ++ m :: rest) w =
  (Ok (Some it), after_connections prompt (failed ++ [m]) w).
Proof.
  revert w. induction failed as [|m' failed IH]; intros w Hfail Hok.
  - simpl. unfold try_except, mbind, M_bind, bind, call, ret. rewrite Hok. reflexivity.
  - destruct (Hfail m') as [ex Hex]; [left|].
    simpl. unfold try_except at 1. unfold mbind, M_bind, bind, call.
    rewrite Hex. apply IH; [|exact Hok].
    intros m'' Hin. apply Hfail. right. exact Hin.
Qed.

(** Connecting never raises, and changes nothing but the list of calls. *)
Lemma connect_stream_frame e prompt ms (w : world F) :
  (exists r, (connect_stream e prompt ms w).1 = Ok r) /\
  keeps_globals w (connect_stream e prompt ms w).2 /\
  rag (connect_stream e prompt ms w).2 = rag w.
Proof.
  revert w. induction ms as [|m ms IH]; intros w.
  - split; [eexists; reflexivity|]. split; [apply keeps_globals_refl|reflexivity].
  - simpl. unfold try_except at 1 2 3. unfold mbind, M_bind, bind, call, ret.
    destruct (generate_content_stream e m prompt) as [it|ex].
    + split; [eexists; reflexivity|]. split; [apply keeps_globals_add_event|reflexivity].
    + destruct (IH (add_event (GenerateContentStream m prompt) w)) as (Hr & Hk & Hrag).
      split; [exact Hr|]. split; [|exact Hrag].
      eapply keeps_globals_trans; [apply keeps_globals_add_event|exact Hk].
Qed.

(** X5: the streaming generator never raises; it neither reads nor
    changes the remembered model (nor the index, the Redis keys or the
    cached system prompt); once a model is connected it yields the texts of
    the chunks that are not empty, in their order, and when the stream
    breaks on the way, the texts yielded so far are followed by the
    apology. *)
Theorem generate_response_stream_yields (e : env F) (query context : str)
  (chat_history : option (list message)) (system_prompt : option str) (w : world F) :
  let prompt := build_prompt system_prompt context chat_history query in
  let run := generate_response_stream e query context chat_history system_prompt w in
  (exists yielded, run.1 = Ok yielded) /\
  keeps_globals w run.2 /\
  rag run.2 = rag w /\
  (forall failed m rest texts,
      STREAM_CANDIDATE_MODELS = failed ++ m :: rest ->
      (forall m', m' ∈ failed -> fails (generate_content_stream e m' prompt)) ->
      (generate_content_stream e m prompt = Ok (map Ok texts) ->
       run = (Ok (filter (fun t => t <> []) texts),
              after_connections prompt (failed ++ [m]) w)) /\
      (forall ex tail,
          generate_content_stream e m prompt = Ok (map Ok texts ++ Raise ex :: tail) ->
          run = (Ok (filter (fun t => t <> []) texts ++ [APOLOGY]),
                 after_connections prompt (failed ++ [m]) w))).
Proof.
  intros prompt run.
  assert (forall it, (let '(yielded, ex) := stream_chunks it in
                      match ex with
                      | None => (ret yielded : M F (list str))
                      | Some _ => ret (yielded ++ [APOLOGY])
                      end) =
                     ret (match (stream_chunks it).2 with
                          | None => (stream_chunks it).1
                          | Some _ => (stream_chunks it).1 ++ [APOLOGY]
                          end)) as Hbody.
  { intros it. destruct (stream_chunks it) as [yielded [ex|]]; reflexivity. }
  subst run. unfold generate_response_stream. fold prompt.
  unfold mbind, M_bind, bind.
  destruct (connect_stream_frame e prompt STREAM_CANDIDATE_MODELS w) as ([r Hr] & Hk & Hrag).
  split; [|split; [|split]].
  - destruct (connect_stream e prompt STREAM_CANDIDATE_MODELS w) as [[[it|]|ex] w1];
      try discriminate; [rewrite Hbody|]; eexists; reflexivity.
  - destruct (connect_stream e prompt STREAM_CANDIDATE_MODELS w) as [[[it|]|ex] w1];
      try discriminate; [rewrite Hbody|]; exact Hk.
  - destruct (connect_stream e prompt STREAM_CANDIDATE_MODELS w) as [[[it|]|ex] w1];
      try discriminate; [rewrite Hbody|]; exact Hrag.
  - intros failed m rest texts Hms Hfail. rewrite Hms. split.
    + intros Hok. rewrite (connect_stream_first_success _ _ _ _ _ _ _ Hfail Hok).
      rewrite Hbody, stream_chunks_texts. reflexivity.
    + intros ex tail Hok. rewrite (connect_stream_first_success _ _ _ _ _ _ _ Hfail Hok).
      rewrite Hbody, stream_chunks_broken. reflexivity.
Qed.

End StreamFacts.

(** ** What a computation keeps *)

Section Frame.
Context {F : Type} `{PyNum F} `{Bm25Lib F}.
Context (R : world F -> world F -> Prop) `{!Reflexive R} `{!Transitive R}.

Lemma respects_run {A : Type} (m : M F A) w r w' :
  respects R m -> m w = (r, w') -> R w w'.
Proof. intros Hm E. specialize (Hm w). rewrite E in Hm. exact Hm. Qed.

Lemma respects_ret {A : Type} (a : A) : respects R (ret a).
Proof. intros w. reflexivity. Qed.

Lemma respects_lift {A : Type} (o : outcome A) : respects R (lift o).
Proof. intros w. reflexivity. Qed.

Lemma respects_gets {A : Type} (f : world F -> A) : respects R (gets f).
Proof. intros w. reflexivity. Qed.

Lemma respects_call {A : Type} (ev : event F) (o : outcome A) :
  (forall w, R w (add_event ev w)) -> respects R (call ev o).
Proof. intros Hev w. apply Hev. Qed.

Lemma respects_modify (f : world F -> world F) :
  (forall w, R w (f w)) -> respects R (modify f).
Proof. intros Hf w. apply Hf. Qed.

Lemma respects_bind {A B : Type} (m : M F A) (k : A -> M F B) :
  respects R m -> (forall a, respects R (k a)) -> respects R (bind m k).
Proof.
  intros Hm Hk w. unfold bind. specialize (Hm w).
  destruct (m w) as [[a|ex] w1]; simpl in Hm; [|exact Hm].
  etransitivity; [exact Hm|apply Hk].
Qed.

Lemma respects_mbind {A B : Type} (m : M F A) (k : A -> M F B) :
  respects R m -> (forall a, respects R (k a)) -> respects R (m ≫= k).
Proof. apply respects_bind. Qed.

Lemma respects_try_except {A : Type} (m : M F A) (h : exn -> M F A) :
  respects R m -> (forall ex, respects R (h ex)) -> respects R (try_except m h).
Proof.
  intros Hm Hh w. unfold try_except. specialize (Hm w).
  destruct (m w) as [[a|ex] w1]; simpl in Hm; [exact Hm|].
  etransitivity; [exact Hm|apply Hh].
Qed.

End Frame.

Section FrameRelations.
Context {F : Type} `{PyNum F} `{Bm25Lib F}.

#[global] Instance calls_only_refl (allowed : event F -> bool) :
  Reflexive (calls_only allowed).
Proof. intros w. exists []. rewrite app_nil_r. auto. Qed.

#[global] Instance calls_only_trans (allowed : event F -> bool) :
  Transitive (calls_only allowed).
Proof.
  intros w1 w2 w3 (new1 & E1 & N1) (new2 & E2 & N2).
  exists (new1 ++ new2). rewrite E2, E1, app_assoc. split; [reflexivity|].
  apply Forall_app; auto.
Qed.

#[global] Instance keeps_globals_reflexive : Reflexive (@keeps_globals F _).
Proof. intros w. repeat split. Qed.

#[global] Instance keeps_globals_transitive : Transitive (@keeps_globals F _).
Proof.
  intros w1 w2 w3 (A1 & A2 & A3 & A4) (B1 & B2 & B3 & B4). repeat split; congruence.
Qed.

#[global] Instance same_keys_refl : Reflexive (@same_keys F _).
Proof. intros w. reflexivity. Qed.

#[global] Instance same_keys_trans : Transitive (@same_keys F _).
Proof. intros w1 w2 w3 E1 E2. unfold same_keys in *. congruence. Qed.

Lemma calls_only_add_event (allowed : event F -> bool) (ev : event F) (w : world F) :
  allowed ev = true -> calls_only allowed w (add_event ev w).
Proof. intros E. exists [ev]. split; [reflexivity|]. auto. Qed.

Lemma calls_only_same_trace (allowed : event F -> bool) (w w' : world F) :
  trace w' = trace w -> calls_only allowed w w'.
Proof. intros E. exists []. rewrite app_nil_r. auto. Qed.

Lemma calls_only_weaken (allowed allowed' : event F -> bool) (w w' : world F) :
  (forall ev, allowed ev = true -> allowed' ev = true) ->
  calls_only allowed w w' -> calls_only allowed' w w'.
Proof.
  intros Hw (new & E & N). exists new. split; [exact E|].
  eapply Forall_impl; [exact N|]. exact Hw.
Qed.

End FrameRelations.

Ltac frame_step :=
  match goal with
  | |- respects _ (match ?x with _ => _ end) => destruct x
  | |- respects _ (if ?b then _ else _) => destruct b
  | |- respects _ (let '(_, _) := ?x in _) => destruct x
  | |- forall _, _ => intro
  | |- respects _ (_ ≫= _) => apply respects_mbind; [typeclasses eauto..| |]
  | |- respects _ (try_except _ _) => apply respects_try_except; [typeclasses eauto..| |]
  | |- respects _ (ret _) => apply respects_ret; typeclasses eauto
  | |- respects _ (mret _) => apply respects_ret; typeclasses eauto
  | |- respects _ (lift _) => apply respects_lift; typeclasses eauto
  | |- respects _ (gets _) => apply respects_gets; typeclasses eauto
  end.

(** ** The calls of the retrieval *)

Section RetrievalCalls.
Context {F : Type} `{PyNum F} `{Bm25Lib F} `{Unicode}.
Import Rag.

Lemma set_rag_keeps_globals (r : rag_service F) (w : world F) : keeps_globals w (set_rag r w).
Proof. repeat split. Qed.

Lemma get_bm25_index_globals e coll f : respects keeps_globals (_get_bm25_index e coll f).
Proof.
  unfold _get_bm25_index.
  repeat (frame_step
          || (apply respects_call; intros ?; apply keeps_globals_add_event)
          || (apply respects_modify; intros ?; apply set_rag_keeps_globals)).
Qed.

Lemma get_bm25_index_calls e coll f query embeds :
  respects (calls_only (retrieval_call f query embeds)) (_get_bm25_index e coll f).
Proof.
  unfold _get_bm25_index.
  repeat (frame_step
          || (apply respects_call; intros ?; apply calls_only_add_event; cbn;
              apply bool_decide_eq_true_2; reflexivity)
          || (apply respects_modify; intros ?; apply calls_only_same_trace; reflexivity)).
Qed.

Lemma hybrid_search_only_calls (e : env F) (query : str) (top_k : Z)
  (filter_metadata : option where_filter) (alpha : F)
  (query_embedding : option (list F)) :
  respects
    (calls_only (retrieval_call filter_metadata query
                   match query_embedding with None => true | Some _ => false end))
    (hybrid_search e query top_k filter_metadata alpha query_embedding).
Proof.
  unfold hybrid_search, hybrid_search_body, generate_embedding.
  repeat (frame_step
          || apply get_bm25_index_calls
          || (apply respects_call; intros ?; apply calls_only_add_event; cbn;
              apply bool_decide_eq_true_2; reflexivity)).
Qed.

Lemma hybrid_search_globals (e : env F) (query : str) (top_k : Z)
  (filter_metadata : option where_filter) (alpha : F)
  (query_embedding : option (list F)) :
  respects keeps_globals (hybrid_search e query top_k filter_metadata alpha query_embedding).
Proof.
  unfold hybrid_search, hybrid_search_body, generate_embedding.
  repeat (frame_step
          || apply get_bm25_index_globals
          || (apply respects_call; intros ?; apply keeps_globals_add_event)).
Qed.

(** X6: the calls of a retrieval. [hybrid_search] asks the document store
    only, always under the filter it was given, and the embedding model
    only for the query and only when no embedding was passed to it; it
    calls neither Redis nor a generation model, and it leaves the Redis
    keys, the remembered model and the cached system prompt as they
    were. *)
Theorem hybrid_search_calls (e : env F) (query : str) (top_k : Z)
  (filter_metadata : option where_filter) (alpha : F)
  (query_embedding : option (list F)) (w : world F) :
  let run := hybrid_search e query top_k filter_metadata alpha query_embedding w in
  let embeds := match query_embedding with None => true | Some _ => false end in
  calls_only (retrieval_call filter_metadata query embeds) w run.2 /\
  keeps_globals w run.2.
Proof.
  intros run embeds. split.
  - apply hybrid_search_only_calls.
  - apply hybrid_search_globals.
Qed.

End RetrievalCalls.

(** ** The cached system prompt *)

Section SysPromptFacts.
Context {F : Type} `{PyNum F} `{Bm25Lib F}.
Import Rag.

(** X7: the cache of the system prompt. [load_sys_prompt] never raises. A
    fresh cache answers without the database. Otherwise a configured prompt
    is stored with the time of the call and served for the next 300
    seconds whatever the database then holds; a missing or empty setting
    gives [None] and stores only the time, so that with no prompt cached
    the next call asks the database again; and an error of the database
    gives [None] and changes nothing. *)
Theorem load_sys_prompt_cache (e : env F) (db : db_session) (w : world F) :
  let run := load_sys_prompt e db w in
  (exists r, run.1 = Ok r) /\
  (sys_prompt_fresh (now e) w = true -> run = (Ok (_sys_prompt_cache w), w)) /\
  (sys_prompt_fresh (now e) w = false ->
   (forall c v, db = Ok (Some (c :: v)) ->
      run = (Ok (Some (c :: v)), set_sys_prompt_cache (Some (c :: v)) (Some (now e)) w) /\
      forall e2 db2, flt (fsub (now e2) (now e)) (of_Z 300) = true ->
        load_sys_prompt e2 db2 run.2 = (Ok (Some (c :: v)), run.2)) /\
   (db = Ok None \/ db = Ok (Some []) ->
      run = (Ok None, set_sys_prompt_cache (_sys_prompt_cache w) (Some (now e)) w) /\
      (_sys_prompt_cache w = None -> forall e2, sys_prompt_fresh (now e2) run.2 = false)) /\
   (forall ex, db = Raise ex -> run = (Ok None, w))).
Proof.
  intros run.
  assert (forall e' db' w',
             load_sys_prompt e' db' w' =
             if sys_prompt_fresh (now e') w' then (Ok (_sys_prompt_cache w'), w')
             else match db' with
                  | Ok (Some (c :: v)) =>
                    (Ok (Some (c :: v)),
                     set_sys_prompt_cache (Some (c :: v)) (Some (now e')) w')
                  | Ok _ =>
                    (Ok None, set_sys_prompt_cache (_sys_prompt_cache w') (Some (now e')) w')
                  | Raise _ => (Ok None, w')
                  end) as Heq.
  { intros e' db' w'. unfold load_sys_prompt, sys_prompt_fresh, try_except.
    unfold mbind, M_bind, bind, gets, lift, modify, ret.
    destruct (_sys_prompt_cache w') as [cache|]; destruct (_sys_prompt_cache_time w') as [t|];
      try destruct (flt (fsub (now e') t) (of_Z 300)); try reflexivity;
      destruct db' as [[[|c v]|]|ex]; reflexivity. }
  subst run. rewrite Heq. split; [|split].
  - destruct (sys_prompt_fresh (now e) w); [eauto|].
    destruct db as [[[|c v]|]|ex]; eauto.
  - intros ->. reflexivity.
  - intros ->. split; [|split].
    + intros c v ->. split; [reflexivity|]. intros e2 db2 Hfresh. cbn [snd].
      rewrite Heq. unfold sys_prompt_fresh. cbn. rewrite Hfresh. reflexivity.
    + intros [-> | ->]; (split; [reflexivity|]); intros Hnone e2; cbn [snd];
        unfold sys_prompt_fresh; cbn; rewrite Hnone; reflexivity.
    + intros ex ->. reflexivity.
Qed.

End SysPromptFacts.

(** ** The result cache when it cannot answer *)

Section CacheMissFacts.
Context {F : Type} `{PyNum F} `{Bm25Lib F} `{CodecLib F}.
Import SemanticCache.

(** X8: a read of the result cache never raises and never changes a key.
    With no Redis client it makes no call; with one it makes the one [GET]
    of its key. It answers [None] when Redis cannot be reached, when the
    key is absent or expired, when the value is empty and when the value
    cannot be decoded. *)
Theorem cache_get_degrades_to_miss (self : SemanticCache) (e : env F)
  (query_embedding : list F) (w : world F) :
  let key := _generate_cache_key self query_embedding in
  let run := get self e query_embedding w in
  (exists r, run.1 = Ok r) /\
  redis_client run.2 = redis_client w /\
  (redis_client w = None -> run = (Ok None, w)) /\
  (forall db, redis_client w = Some db ->
     trace run.2 = trace w ++ [RedisGet key] /\
     (redis_reachable e = false -> run.1 = Ok None) /\
     (db !! key = None -> run.1 = Ok None) /\
     (forall value expiry, db !! key = Some (value, expiry) ->
        (flt (now e) expiry = false -> run.1 = Ok None) /\
        (value = [] -> run.1 = Ok None) /\
        (forall ex, loads_cache_data value = Raise ex -> run.1 = Ok None))).
Proof.
  intros key run. subst run. unfold get, try_except, redis_get, get_redis.
  unfold mbind, M_bind, bind, call, lift, ret. fold key.
  destruct (redis_client w) as [db|] eqn:Hdb.
  - destruct (redis_reachable e) eqn:Hup.
    + destruct (db !! key) as [[value expiry]|] eqn:Hkey.
      * destruct (flt (now e) expiry) eqn:Hlive.
        -- destruct value as [|c cs].
           ++ cbn. split; [eauto|]. split; [exact Hdb|]. split; [discriminate|].
              intros db' [= <-]. rewrite Hkey. split; [reflexivity|].
              split; [discriminate|]. split; [discriminate|].
              intros value' expiry' [= <- <-]. rewrite Hlive. auto.
           ++ destruct (loads_cache_data (c :: cs)) as [data|ex] eqn:Hload.
              ** cbn. split; [eauto|]. split; [exact Hdb|]. split; [discriminate|].
                 intros db' [= <-]. rewrite Hkey. split; [reflexivity|].
                 split; [discriminate|]. split; [discriminate|].
                 intros value' expiry' [= <- <-]. rewrite Hlive, Hload.
                 split; [discriminate|]. split; [discriminate|]. intros ex. discriminate.
              ** cbn. split; [eauto|]. split; [exact Hdb|]. split; [discriminate|].
                 intros db' [= <-]. rewrite Hkey. split; [reflexivity|].
                 split; [discriminate|]. split; [discriminate|].
                 intros value' expiry' [= <- <-]. auto.
        -- cbn. split; [eauto|]. split; [exact Hdb|]. split; [discriminate|].
           intros db' [= <-]. rewrite Hkey. split; [reflexivity|]. auto.
      * cbn. split; [eauto|]. split; [exact Hdb|]. split; [discriminate|].
        intros db' [= <-]. rewrite Hkey. split; [reflexivity|].
        split; [auto|]. split; [auto|]. intros value expiry. discriminate.
    + cbn. split; [eauto|]. split; [exact Hdb|]. split; [discriminate|].
      intros db' [= <-]. split; [reflexivity|]. split; [auto|]. split; [auto|].
      intros value expiry _. auto.
  - cbn. split; [eauto|]. split; [exact Hdb|]. split; [auto|]. intros db. discriminate.
Qed.

(** X9: a write of the result cache never raises. Without a Redis client
    it answers [False] and does nothing; when Redis cannot be reached it
    answers [False] and no key changes; otherwise it answers [True], puts
    the entry under its key with a new time to live, and leaves every other
    key as it was. *)
Theorem cache_set_touches_its_key (self : SemanticCache) (e : env F)
  (query_embedding : list F) (response : str) (sources : list source_entry)
  (w : world F) :
  let key := _generate_cache_key self query_embedding in
  let run := set self e query_embedding response sources w in
  (exists r, run.1 = Ok r) /\
  (redis_client w = None -> run = (Ok false, w)) /\
  (redis_reachable e = false -> run.1 = Ok false /\ redis_client run.2 = redis_client w) /\
  (forall db, redis_client w = Some db -> redis_reachable e = true ->
     run.1 = Ok true /\
     exists db',
       redis_client run.2 = Some db' /\
       db' !! key = Some (dumps_cache_data (response, sources), fadd (now e) (ttl self)) /\
       forall other, other <> key -> db' !! other = db !! other).
Proof.
  intros key run. subst run. unfold set, try_except, redis_setex, get_redis.
  unfold mbind, M_bind, bind, call, modify, ret. fold key.
  destruct (redis_client w) as [db|] eqn:Hdb.
  - destruct (redis_reachable e) eqn:Hup; cbn.
    + split; [eauto|]. split; [discriminate|]. split; [discriminate|].
      intros db0 [= <-] _. split; [reflexivity|]. eexists. split; [reflexivity|].
      split; [apply lookup_insert_eq|]. intros other Hne. apply lookup_insert_ne. congruence.
    + split; [eauto|]. split; [discriminate|]. split; [auto|]. discriminate.
  - cbn. split; [eauto|]. split; [auto|]. split; [auto|]. discriminate.
Qed.

End CacheMissFacts.

(** ** The pipeline and its cache *)

Section PipelineFacts.
Context {F : Type} `{PyNum F} `{Bm25Lib F} `{CodecLib F} `{Unicode}.
Import Rag.

Lemma quiet_try_models e prompt ms : writes_no_cache (try_models e prompt ms).
Proof.
  induction ms as [|m ms IH]; simpl; [apply quiet_ret|].
  repeat (quiet_step || exact IH).
Qed.

Lemma quiet_generate_response e query context chat_history system_prompt :
  writes_no_cache (generate_response e query context chat_history system_prompt).
Proof. unfold generate_response. repeat (quiet_step || apply quiet_try_models). Qed.

Lemma cache_set_returns (self : SemanticCache.SemanticCache) (e : env F)
  (q : list F) (response : str) (sources : list source_entry) (w : world F) :
  exists b, (SemanticCache.set self e q response sources w).1 = Ok b.
Proof.
  unfold SemanticCache.set, try_except, SemanticCache.redis_setex, SemanticCache.get_redis.
  unfold mbind, M_bind, bind, call, modify, ret.
  destruct (redis_client w); [destruct (redis_reachable e)|]; cbn; eauto.
Qed.

(** The pipeline on a hit of the cache. *)
Lemma rag_query_on_hit (e : env F) (query : str) (chat_history : option (list message))
  (top_k : Z) (db : option db_session) (w w1 w2 : world F) (q : list F)
  (response : str) (sources : list source_entry) :
  generate_embedding e query w = (Ok q, w1) ->
  SemanticCache.get SemanticCache.semantic_cache e q w1 = (Ok (Some (response, sources)), w2) ->
  rag_query e query chat_history top_k true db w = (Ok (response, sources), w2).
Proof.
  intros Hemb Hget. unfold rag_query, try_except. unfold mbind, M_bind, bind.
  rewrite Hemb, Hget. reflexivity.
Qed.

(** The pipeline when the cache does not answer and a context is found. *)
Lemma rag_query_on_miss (e : env F) (query : str) (chat_history : option (list message))
  (top_k : Z) (use_cache : bool) (db : option db_session) (w w1 w2 w3 w4 w5 : world F)
  (q : list F) (results : list (SearchResult F)) (c : char) (ctx : str)
  (sources : list source_entry) (sp : option str) (response : str) :
  generate_embedding e query w = (Ok q, w1) ->
  (if use_cache return M F (option (str * list source_entry))
   then SemanticCache.get SemanticCache.semantic_cache e q
   else ret None) w1 = (Ok None, w2) ->
  hybrid_search e query 10 None (fdiv (of_Z 1) (of_Z 2)) (Some q) w2 = (Ok results, w3) ->
  build_context (rerank_results query results top_k) = (c :: ctx, sources) ->
  (match db with
   | Some session => load_sys_prompt e session
   | None => ret None
   end) w3 = (Ok sp, w4) ->
  generate_response e query (c :: ctx) chat_history sp w4 = (Ok response, w5) ->
  rag_query e query chat_history top_k use_cache db w =
  (Ok (response, sources),
   if use_cache
   then (SemanticCache.set SemanticCache.semantic_cache e q response sources w5).2
   else w5).
Proof.
  intros Hemb Hget Hsearch Hctx Hload Hgen.
  unfold rag_query, try_except. unfold mbind, M_bind, bind.
  rewrite Hemb, Hget, Hsearch, Hctx, Hload. unfold bind. rewrite Hgen.
  destruct use_cache; [|reflexivity].
  destruct (cache_set_returns SemanticCache.semantic_cache e q response sources w5) as [b Hb].
  destruct (SemanticCache.set SemanticCache.semantic_cache e q response sources w5)
    as [[b'|ex] w6] eqn:Hset; [|discriminate].
  unfold ret. cbv beta iota. rewrite Hset. reflexivity.
Qed.

Lemma cache_get_hit (self : SemanticCache.SemanticCache) (e : env F) (q : list F)
  (w : world F) (rdb : gmap str (str * F)) (value : str) (expiry : F)
  (data : str * list source_entry) :
  redis_client w = Some rdb ->
  redis_reachable e = true ->
  rdb !! SemanticCache._generate_cache_key self q = Some (value, expiry) ->
  flt (now e) expiry = true ->
  value <> [] ->
  loads_cache_data value = Ok data ->
  SemanticCache.get self e q w
    = (Ok (Some data), add_event (RedisGet (SemanticCache._generate_cache_key self q)) w).
Proof.
  intros Hdb Hup Hkey Hlive Hne Hload.
  unfold SemanticCache.get, try_except, SemanticCache.redis_get, SemanticCache.get_redis.
  unfold mbind, M_bind, bind, call, lift, ret.
  rewrite Hdb, Hup, Hkey, Hlive. destruct value as [|c cs]; [congruence|].
  rewrite Hload. reflexivity.
Qed.

Lemma cache_set_ok (self : SemanticCache.SemanticCache) (e : env F) (q : list F)
  (response : str) (sources : list source_entry) (w : world F) (rdb : gmap str (str * F)) :
  redis_client w = Some rdb ->
  redis_reachable e = true ->
  SemanticCache.set self e q response sources w =
  (Ok true,
   set_redis
     (Some (<[SemanticCache._generate_cache_key self q :=
                (dumps_cache_data (response, sources),
                 fadd (now e) (SemanticCache.ttl self))]> rdb))
     (add_event (RedisSetex (SemanticCache._generate_cache_key self q)
                            (SemanticCache.ttl self)
                            (dumps_cache_data (response, sources))) w)).
Proof.
  intros Hdb Hup.
  unfold SemanticCache.set, try_except, SemanticCache.redis_setex, SemanticCache.get_redis.
  unfold mbind, M_bind, bind, call, modify, ret.
  rewrite Hdb, Hup. reflexivity.
Qed.

Lemma generate_embedding_run (e : env F) (query : str) (w : world F) :
  generate_embedding e query w = (embed_content e query, add_event (EmbedContent query) w).
Proof. reflexivity. Qed.

(** The pipeline when the entry of the query is in the cache. *)
Lemma rag_query_hit_run (e : env F) (query : str)
  (chat_history : option (list message)) (top_k : Z) (db : option db_session)
  (w : world F) (q : list F) (rdb : gmap str (str * F)) (value : str) (expiry : F)
  (response : str) (sources : list source_entry) :
  embed_content e query = Ok q ->
  redis_client w = Some rdb ->
  redis_reachable e = true ->
  rdb !! SemanticCache._generate_cache_key SemanticCache.semantic_cache q
    = Some (value, expiry) ->
  flt (now e) expiry = true ->
  value <> [] ->
  loads_cache_data value = Ok (response, sources) ->
  rag_query e query chat_history top_k true db w =
  (Ok (response, sources),
   add_event (RedisGet (SemanticCache._generate_cache_key SemanticCache.semantic_cache q))
             (add_event (EmbedContent query) w)).
Proof.
  intros Hemb Hdb Hup Hkey Hlive Hne Hload.
  eapply rag_query_on_hit.
  - rewrite generate_embedding_run, Hemb. reflexivity.
  - eapply cache_get_hit; eauto.
Qed.

(** X10: a hit of the result cache ends the pipeline. When the entry of
    the embedding of the query is in Redis, has not expired and decodes,
    [rag_query] returns it after two calls, the embedding of the query and
    the [GET] of the key: the document store and the generation models are
    not called. *)
Theorem rag_query_cache_hit (e : env F) (query : str)
  (chat_history : option (list message)) (top_k : Z) (db : option db_session)
  (w : world F) (q : list F) (rdb : gmap str (str * F)) (value : str) (expiry : F)
  (response : str) (sources : list source_entry) :
  embed_content e query = Ok q ->
  redis_client w = Some rdb ->
  redis_reachable e = true ->
  rdb !! SemanticCache._generate_cache_key SemanticCache.semantic_cache q
    = Some (value, expiry) ->
  flt (now e) expiry = true ->
  value <> [] ->
  loads_cache_data value = Ok (response, sources) ->
  rag_query e query chat_history top_k true db w =
  (Ok (response, sources),
   add_event (RedisGet (SemanticCache._generate_cache_key SemanticCache.semantic_cache q))
             (add_event (EmbedContent query) w)).
Proof.
  apply rag_query_hit_run.
Qed.

Lemma no_redis_try_models e prompt ms :
  respects (calls_only (fun ev : event F => negb (is_redis_call ev))) (try_models e prompt ms).
Proof.
  induction ms as [|m ms IH]; simpl; [apply respects_ret; typeclasses eauto|].
  repeat (frame_step || exact IH
          || (apply respects_call; intros ?; apply calls_only_add_event; reflexivity)
          || (apply respects_modify; intros ?; apply calls_only_same_trace; reflexivity)).
Qed.

Lemma no_redis_rag_query e query chat_history top_k db :
  respects (calls_only (fun ev : event F => negb (is_redis_call ev)))
           (rag_query e query chat_history top_k false db).
Proof.
  unfold rag_query, generate_embedding, generate_response, load_sys_prompt.
  repeat (frame_step
          || apply no_redis_try_models
          || (apply respects_call; intros ?; apply calls_only_add_event; reflexivity)
          || (apply respects_modify; intros ?; apply calls_only_same_trace; reflexivity)
          || (intros w0; eapply calls_only_weaken; [|apply hybrid_search_only_calls];
              intros [] Hev; try discriminate Hev; reflexivity)).
Qed.

Lemma quiet_rag_query_without_cache e query chat_history top_k db :
  writes_no_cache (rag_query e query chat_history top_k false db).
Proof.
  unfold rag_query, generate_embedding.
  repeat (quiet_step || apply quiet_hybrid_search || apply quiet_load_sys_prompt
          || apply quiet_generate_response).
Qed.

(** X11: [rag_query] never raises. When the embedding of the query fails
    it returns its apology with no sources after this one call. With
    [use_cache] off it makes no call to Redis and changes no key. *)
Theorem rag_query_never_raises (e : env F) (query : str)
  (chat_history : option (list message)) (top_k : Z) (use_cache : bool)
  (db : option db_session) (w : world F) :
  let run := rag_query e query chat_history top_k use_cache db w in
  (exists r, run.1 = Ok r) /\
  (forall ex, embed_content e query = Raise ex ->
     run = (Ok (PIPELINE_APOLOGY, []), add_event (EmbedContent query) w)) /\
  (use_cache = false ->
     calls_only (fun ev => negb (is_redis_call ev)) w run.2 /\
     redis_client run.2 = redis_client w).
Proof.
  intros run. subst run. split; [|split].
  - unfold rag_query, try_except.
    match goal with |- context [match ?m w with _ => _ end] => destruct (m w) as [[r|ex] w'] end;
      eexists; reflexivity.
  - intros ex Hemb. unfold rag_query, try_except. unfold mbind, M_bind, bind.
    rewrite generate_embedding_run, Hemb. reflexivity.
  - intros ->. split.
    + apply no_redis_rag_query.
    + apply quiet_rag_query_without_cache.
Qed.

(** X12: the pipeline stores its answer, and the next identical question
    is answered from the store. When the cache is in use and does not
    answer, a context is found and Redis can be reached, [rag_query] ends
    with the [SETEX] of its answer under the key of the embedding; and a
    call with the same query within the 3600 seconds of the entry returns
    the same response and sources after the embedding of the query and one
    [GET], whatever the history, the limit and the state of the document
    store and of the models then are. *)
Theorem rag_query_caches_answer (e e2 : env F) (query : str)
  (chat_history chat_history2 : option (list message)) (top_k top_k2 : Z)
  (db db2 : option db_session) (w w1 w2 w3 w4 w5 : world F) (q : list F)
  (results : list (SearchResult F)) (c : char) (ctx : str)
  (sources : list source_entry) (sp : option str) (response : str)
  (rdb : gmap str (str * F)) :
  generate_embedding e query w = (Ok q, w1) ->
  SemanticCache.get SemanticCache.semantic_cache e q w1 = (Ok None, w2) ->
  hybrid_search e query 10 None (fdiv (of_Z 1) (of_Z 2)) (Some q) w2 = (Ok results, w3) ->
  build_context (rerank_results query results top_k) = (c :: ctx, sources) ->
  (match db with
   | Some session => load_sys_prompt e session
   | None => ret None
   end) w3 = (Ok sp, w4) ->
  generate_response e query (c :: ctx) chat_history sp w4 = (Ok response, w5) ->
  redis_client w = Some rdb ->
  redis_reachable e = true ->
  embed_content e2 query = Ok q ->
  redis_reachable e2 = true ->
  flt (now e2) (fadd (now e) (of_Z 3600)) = true ->
  loads_cache_data (dumps_cache_data (response, sources)) = Ok (response, sources) ->
  dumps_cache_data (response, sources) <> [] ->
  let key := SemanticCache._generate_cache_key SemanticCache.semantic_cache q in
  let first := rag_query e query chat_history top_k true db w in
  first.1 = Ok (response, sources) /\
  trace first.2
    = trace w5 ++ [RedisSetex key (of_Z 3600) (dumps_cache_data (response, sources))] /\
  rag_query e2 query chat_history2 top_k2 true db2 first.2 =
  (Ok (response, sources), add_event (RedisGet key) (add_event (EmbedContent query) first.2)).
Proof.
  intros Hemb Hget Hsearch Hctx Hload Hgen Hdb Hup Hemb2 Hup2 Hlive Hround Hne key first.
  assert (cache_untouched w w5) as Hframe.
  { eapply cache_untouched_trans; [|eapply cache_untouched_trans;
      [|eapply cache_untouched_trans; [|eapply cache_untouched_trans]]].
    - eapply writes_no_cache_run; [|exact Hemb]. unfold generate_embedding. quiet_step.
    - eapply writes_no_cache_run; [|exact Hget]. apply quiet_cache_get.
    - eapply writes_no_cache_run; [|exact Hsearch]. apply quiet_hybrid_search.
    - eapply writes_no_cache_run; [|exact Hload].
      destruct db; [apply quiet_load_sys_prompt|apply quiet_ret].
    - eapply writes_no_cache_run; [|exact Hgen]. apply quiet_generate_response. }
  destruct Hframe as [Hkeys _]. rewrite Hdb in Hkeys.
  assert (first = (Ok (response, sources),
                   (SemanticCache.set SemanticCache.semantic_cache e q response sources w5).2))
    as Hfirst.
  { subst first. apply (rag_query_on_miss e query chat_history top_k true db
                          w w1 w2 w3 w4 w5 q results c ctx sources sp response); assumption. }
  rewrite Hfirst. cbn [fst snd].
  rewrite (cache_set_ok _ _ _ _ _ _ _ Hkeys Hup). cbn [snd].
  split; [reflexivity|]. split; [reflexivity|].
  apply (rag_query_hit_run e2 query chat_history2 top_k2 db2 _ q
           (<[key := (dumps_cache_data (response, sources),
                      fadd (now e) (of_Z 3600))]> rdb)
           (dumps_cache_data (response, sources)) (fadd (now e) (of_Z 3600))
           response sources);
    [exact Hemb2|reflexivity|exact Hup2|apply lookup_insert_eq|exact Hlive|exact Hne
    |exact Hround].
Qed.

(** X13: when every generation model fails, the apology is what the
    pipeline stores: [rag_query] returns the apology of the generator with
    the sources of the context, writes both to the result cache, and a call
    with the same query within the next 3600 seconds returns the apology
    again without calling a model. *)
Theorem rag_query_caches_apology (e e2 : env F) (query : str)
  (chat_history chat_history2 : option (list message)) (top_k top_k2 : Z)
  (db db2 : option db_session) (w w1 w2 w3 w4 : world F) (q : list F)
  (results : list (SearchResult F)) (c : char) (ctx : str)
  (sources : list source_entry) (sp : option str)
  (rdb : gmap str (str * F)) :
  generate_embedding e query w = (Ok q, w1) ->
  SemanticCache.get SemanticCache.semantic_cache e q w1 = (Ok None, w2) ->
  hybrid_search e query 10 None (fdiv (of_Z 1) (of_Z 2)) (Some q) w2 = (Ok results, w3) ->
  build_context (rerank_results query results top_k) = (c :: ctx, sources) ->
  (match db with
   | Some session => load_sys_prompt e session
   | None => ret None
   end) w3 = (Ok sp, w4) ->
  (forall m, m ∈ CANDIDATE_MODELS ->
     fails (generate_content e m (build_prompt sp (c :: ctx) chat_history query))) ->
  redis_client w = Some rdb ->
  redis_reachable e = true ->
  embed_content e2 query = Ok q ->
  redis_reachable e2 = true ->
  flt (now e2) (fadd (now e) (of_Z 3600)) = true ->
  loads_cache_data (dumps_cache_data (APOLOGY, sources)) = Ok (APOLOGY, sources) ->
  dumps_cache_data (APOLOGY, sources) <> [] ->
  let key := SemanticCache._generate_cache_key SemanticCache.semantic_cache q in
  let first := rag_query e query chat_history top_k true db w in
  first.1 = Ok (APOLOGY, sources) /\
  (exists db', redis_client first.2 = Some db' /\
     db' !! key = Some (dumps_cache_data (APOLOGY, sources), fadd (now e) (of_Z 3600))) /\
  rag_query e2 query chat_history2 top_k2 true db2 first.2 =
  (Ok (APOLOGY, sources), add_event (RedisGet key) (add_event (EmbedContent query) first.2)).
Proof.
  intros Hemb Hget Hsearch Hctx Hload Hfail Hdb Hup Hemb2 Hup2 Hlive Hround Hne key first.
  set (prompt := build_prompt sp (c :: ctx) chat_history query) in *.
  set (order := prioritize (_last_working_model w4) CANDIDATE_MODELS).
  assert (generate_response e query (c :: ctx) chat_history sp w4
          = (Ok APOLOGY, after_attempts prompt order w4)) as Hgen.
  { unfold generate_response, try_except. unfold mbind, M_bind, bind, gets.
    fold prompt. fold order. rewrite (try_models_all_fail e prompt order w4); [reflexivity|].
    intros m Hm. apply Hfail. eapply prioritize_elem, Hm. }
  assert (cache_untouched w (after_attempts prompt order w4)) as Hframe.
  { eapply cache_untouched_trans; [|eapply cache_untouched_trans;
      [|eapply cache_untouched_trans; [|eapply cache_untouched_trans]]].
    - eapply writes_no_cache_run; [|exact Hemb]. unfold generate_embedding. quiet_step.
    - eapply writes_no_cache_run; [|exact Hget]. apply quiet_cache_get.
    - eapply writes_no_cache_run; [|exact Hsearch]. apply quiet_hybrid_search.
    - eapply writes_no_cache_run; [|exact Hload].
      destruct db; [apply quiet_load_sys_prompt|apply quiet_ret].
    - eapply writes_no_cache_run; [|exact Hgen]. apply quiet_generate_response. }
  destruct Hframe as [Hkeys _]. rewrite Hdb in Hkeys.
  assert (first = (Ok (APOLOGY, sources),
                   (SemanticCache.set SemanticCache.semantic_cache e q APOLOGY sources
                      (after_attempts prompt order w4)).2)) as Hfirst.
  { subst first. apply (rag_query_on_miss e query chat_history top_k true db
                          w w1 w2 w3 w4 _ q results c ctx sources sp APOLOGY); assumption. }
  rewrite Hfirst. cbn [fst snd].
  rewrite (cache_set_ok _ _ _ _ _ _ _ Hkeys Hup). cbn [snd].
  split; [reflexivity|]. split.
  - eexists. split; [reflexivity|]. apply lookup_insert_eq.
  - apply (rag_query_hit_run e2 query chat_history2 top_k2 db2 _ q
             (<[key := (dumps_cache_data (APOLOGY, sources),
                        fadd (now e) (of_Z 3600))]> rdb)
             (dumps_cache_data (APOLOGY, sources)) (fadd (now e) (of_Z 3600))
             APOLOGY sources);
      [exact Hemb2|reflexivity|exact Hup2|apply lookup_insert_eq|exact Hlive|exact Hne
      |exact Hround].
Qed.

End PipelineFacts.

(** ** The settings of the safety gate *)

Section SplitFacts.
Context `{Unicode}.

Lemma split_on_nonempty (sep : char) (t : str) : split_on sep t <> [].
Proof.
  destruct t as [|c t]; simpl; [discriminate|].
  destruct (c =? sep); [discriminate|]. destruct (split_on sep t); discriminate.
Qed.

(** No piece holds the separator, and every character of a piece is one
    of the text. *)
Lemma split_on_pieces (sep : char) (t : str) :
  Forall (fun piece => sep ∉ piece /\ forall c, c ∈ piece -> c ∈ t) (split_on sep t).
Proof.
  induction t as [|c t IH]; simpl.
  - constructor; [|constructor]. split; [apply not_elem_of_nil|auto].
  - destruct (N.eqb_spec c sep) as [->|Hne].
    + constructor.
      * split; [apply not_elem_of_nil|]. intros c Hc. inversion Hc.
      * eapply Forall_impl; [exact IH|]. intros piece [Hs Hin].
        split; [exact Hs|]. intros c Hc. right. auto.
    + destruct (split_on sep t) as [|piece pieces].
      * constructor; [|constructor]. split.
        -- intros Hin. apply list_elem_of_singleton in Hin. congruence.
        -- intros c' Hc'. apply list_elem_of_singleton in Hc' as ->. left.
      * apply Forall_cons in IH as [[Hs Hin] IH]. constructor.
        -- split.
           ++ intros Hc. apply elem_of_cons in Hc as [Hc|Hc]; [congruence|auto].
           ++ intros c' Hc'. apply elem_of_cons in Hc' as [->|Hc']; [left|right; auto].
        -- eapply Forall_impl; [exact IH|]. intros p [Hs' Hin'].
           split; [exact Hs'|]. intros c' Hc'. right. auto.
Qed.

Lemma lstrip_elem (t : str) (c : char) : c ∈ lstrip t -> c ∈ t.
Proof.
  destruct (lstrip_suffix t) as [pre E]. intros Hc. rewrite E.
  apply elem_of_app. right. exact Hc.
Qed.

Lemma strip_elem (t : str) (c : char) : c ∈ strip t -> c ∈ t.
Proof.
  unfold strip. intros Hc. rewrite elem_of_reverse in Hc.
  apply lstrip_elem in Hc. rewrite elem_of_reverse in Hc. apply lstrip_elem, Hc.
Qed.

Lemma filter_none {A : Type} (P : A -> Prop) `{forall x, Decision (P x)} (l : list A) :
  Forall (fun x => ~ P x) l -> filter P l = [].
Proof.
  induction 1 as [|x l Hx Hl IH]; [reflexivity|].
  rewrite filter_cons. destruct (decide (P x)); [contradiction|exact IH].
Qed.

Lemma lstrip_spaces (t : str) : Forall (fun c => is_space c = true) t -> lstrip t = [].
Proof.
  induction 1 as [|c t Hc Ht IH]; simpl; [reflexivity|]. rewrite Hc. exact IH.
Qed.

Lemma strip_spaces (t : str) : Forall (fun c => is_space c = true) t -> strip t = [].
Proof. intros Ht. unfold strip. rewrite (lstrip_spaces t Ht). reflexivity. Qed.

Lemma filter_all {A : Type} (P : A -> Prop) `{forall x, Decision (P x)} (l : list A) :
  Forall P l -> filter P l = l.
Proof.
  induction 1 as [|x l Hx Hl IH]; [reflexivity|].
  rewrite filter_cons. destruct (decide (P x)); [f_equal; exact IH|contradiction].
Qed.

End SplitFacts.

Section SafetySettingsFacts.
Context {F : Type} `{PyNum F} `{Unicode} `{JsonLib}.
Import Safety SafetySettings.

(** The loader without a fresh cache. *)
Lemma load_sos_keywords_stale (current_time : F) (db : settings_db) (s : safety_state F) :
  sos_keywords_fresh current_time s = false ->
  load_sos_keywords current_time db s =
  match db (lit "sos_keywords") with
  | Ok setting =>
    let keywords :=
      match setting with
      | Some (c :: value) =>
        map strip (filter (fun kw => strip kw <> []) (split_on 44 (c :: value)))
      | _ => DEFAULT_SOS_KEYWORDS
      end in
    (keywords, set_sos_keywords_cache keywords current_time (ask (lit "sos_keywords") s))
  | Raise _ => (DEFAULT_SOS_KEYWORDS, ask (lit "sos_keywords") s)
  end.
Proof.
  unfold sos_keywords_fresh, load_sos_keywords.
  destruct (_sos_keywords_cache s); [destruct (_sos_keywords_cache_time s)|];
    [intros ->| |]; reflexivity.
Qed.

Lemma load_sos_keywords_fresh (current_time : F) (db : settings_db) (s : safety_state F) :
  sos_keywords_fresh current_time s = true ->
  load_sos_keywords current_time db s = (default [] (_sos_keywords_cache s), s).
Proof.
  unfold sos_keywords_fresh, load_sos_keywords.
  destruct (_sos_keywords_cache s); [destruct (_sos_keywords_cache_time s)|];
    [intros ->| |]; (reflexivity || discriminate).
Qed.

(** X14: the keywords read from the setting. Without a fresh cache, a
    setting that is not empty is cut at its commas and the fields
    stripped, the blank ones dropped: every keyword loaded is not empty,
    holds no comma and has no space at either end. A setting made of
    commas and spaces only gives the empty list, not the defaults, and with
    it the gate reports no message at all. *)
Theorem load_sos_keywords_fields (current_time : F) (db : settings_db)
  (s : safety_state F) (c : char) (value : str) :
  sos_keywords_fresh current_time s = false ->
  db (lit "sos_keywords") = Ok (Some (c :: value)) ->
  let keywords := (load_sos_keywords current_time db s).1 in
  Forall (fun kw =>
            kw <> [] /\ 44 ∉ kw /\
            forall ch, head kw = Some ch \/ last kw = Some ch -> is_space ch = false)
         keywords /\
  (Forall (fun ch => ch = 44 \/ is_space ch = true) (c :: value) ->
   keywords = [] /\ forall text, check_sos_keywords text (Some keywords) = false).
Proof.
  intros Hstale Hdb keywords. subst keywords.
  rewrite (load_sos_keywords_stale _ _ _ Hstale), Hdb. cbn [fst].
  split.
  - rewrite Forall_map. rewrite Forall_forall. intros piece Hp.
    apply list_elem_of_filter in Hp as [Hne Hp]. split; [exact Hne|]. split.
    + intros Hin. apply strip_elem in Hin.
      pose proof (split_on_pieces 44 (c :: value)) as Hall.
      rewrite Forall_forall in Hall. destruct (Hall piece Hp) as [Hno _]. auto.
    + apply strip_edges.
  - intros Hblank.
    assert (filter (fun kw => strip kw <> []) (split_on 44 (c :: value)) = []) as ->.
    { apply filter_none.
      pose proof (split_on_pieces 44 (c :: value)) as Hall.
      eapply Forall_impl; [exact Hall|]. intros piece [Hno Hin] Hne. apply Hne.
      apply strip_spaces. rewrite Forall_forall. intros ch Hch.
      rewrite Forall_forall in Hblank. destruct (Hblank ch (Hin ch Hch)) as [->|Hsp];
        [contradiction|exact Hsp]. }
    split; [reflexivity|]. intros text. reflexivity.
Qed.

(** X15: the cache of the keywords. A call that asks the database and
    gets an answer stores the keywords with the time of the call, and for
    the next 300 seconds every call returns them without asking, whatever
    the database then holds. An error of the database gives the default
    keywords and stores nothing: the next call asks again. *)
Theorem load_sos_keywords_cache (current_time : F) (db : settings_db) (s : safety_state F) :
  sos_keywords_fresh current_time s = false ->
  let run := load_sos_keywords current_time db s in
  asked run.2 = asked s ++ [lit "sos_keywords"] /\
  (forall setting, db (lit "sos_keywords") = Ok setting ->
     forall t2 db2, flt (fsub t2 current_time) _SOS_CACHE_TTL = true ->
       load_sos_keywords t2 db2 run.2 = (run.1, run.2)) /\
  (forall ex, db (lit "sos_keywords") = Raise ex ->
     run.1 = DEFAULT_SOS_KEYWORDS /\
     forall t2, sos_keywords_fresh t2 run.2 = sos_keywords_fresh t2 s) /\
  (db (lit "sos_keywords") = Ok None \/ db (lit "sos_keywords") = Ok (Some []) ->
     run.1 = DEFAULT_SOS_KEYWORDS).
Proof.
  intros Hstale run. subst run. rewrite (load_sos_keywords_stale _ _ _ Hstale).
  destruct (db (lit "sos_keywords")) as [setting|ex] eqn:Hdb.
  - cbn [fst snd]. split; [reflexivity|]. split; [|split].
    + intros setting' _ t2 db2 Hfresh. rewrite load_sos_keywords_fresh; [reflexivity|].
      unfold sos_keywords_fresh. cbn. exact Hfresh.
    + intros ex. discriminate.
    + intros [E|E]; injection E as ->; reflexivity.
  - cbn [fst snd]. split; [reflexivity|]. split; [|split].
    + intros setting. discriminate.
    + intros ex' _. split; reflexivity.
    + intros [E|E]; discriminate.
Qed.

(** The loader of the hotlines without a fresh cache. *)
Lemma load_crisis_hotlines_stale (current_time : F) (db : settings_db) (s : safety_state F) :
  crisis_hotlines_fresh current_time s = false ->
  load_crisis_hotlines current_time db s =
  let s' := ask (lit "crisis_hotlines") s in
  match db (lit "crisis_hotlines") with
  | Ok (Some (c :: value)) =>
    match json_loads (c :: value) with
    | Loaded hotlines =>
      (match py_len hotlines with
       | Ok _ => hotlines
       | Raise _ => DEFAULT_CRISIS_HOTLINES
       end, set_crisis_hotlines_cache hotlines current_time s')
    | _ => (DEFAULT_CRISIS_HOTLINES, s')
    end
  | Ok _ =>
    (DEFAULT_CRISIS_HOTLINES,
     set_crisis_hotlines_cache DEFAULT_CRISIS_HOTLINES current_time s')
  | Raise _ => (DEFAULT_CRISIS_HOTLINES, s')
  end.
Proof.
  unfold crisis_hotlines_fresh, load_crisis_hotlines. intros Hstale.
  assert (match _crisis_hotlines_cache s, _crisis_hotlines_cache_time s with
          | JNull, _ => None
          | cache, Some t =>
            if flt (fsub current_time t) _HOTLINES_CACHE_TTL then Some cache else None
          | _, None => None
          end = None) as ->.
  { destruct (_crisis_hotlines_cache s); try reflexivity;
      destruct (_crisis_hotlines_cache_time s); try reflexivity; rewrite Hstale; reflexivity. }
  cbv zeta. destruct (db (lit "crisis_hotlines")) as [[[|c value]|]|ex]; try reflexivity.
  destruct (json_loads (c :: value)) as [hotlines| |]; try reflexivity.
  destruct (py_len hotlines); reflexivity.
Qed.

Lemma load_crisis_hotlines_fresh (current_time : F) (db : settings_db) (s : safety_state F) :
  crisis_hotlines_fresh current_time s = true ->
  load_crisis_hotlines current_time db s = (_crisis_hotlines_cache s, s).
Proof.
  unfold crisis_hotlines_fresh, load_crisis_hotlines.
  destruct (_crisis_hotlines_cache s); try discriminate;
    destruct (_crisis_hotlines_cache_time s); try discriminate; intros ->; reflexivity.
Qed.

(** X16: the hotlines of the crisis response. [load_crisis_hotlines] never
    returns [None], and [get_crisis_response] passes on what it returned.
    Without a fresh cache: a setting that decodes to a list is returned,
    stored, and served for the next 300 seconds without asking the
    database; a setting that does not decode gives the default hotlines
    and stores nothing, as does an error of the database; a missing or
    empty setting gives the default hotlines and stores them. *)
Theorem load_crisis_hotlines_cache (current_time : F) (db : settings_db)
  (s : safety_state F) :
  let run := load_crisis_hotlines current_time db s in
  run.1 <> JNull /\
  hotlines (get_crisis_response run.1) = run.1 /\
  (crisis_hotlines_fresh current_time s = true -> run = (_crisis_hotlines_cache s, s)) /\
  (crisis_hotlines_fresh current_time s = false ->
   (forall c value items,
      db (lit "crisis_hotlines") = Ok (Some (c :: value)) ->
      json_loads (c :: value) = Loaded (JArray items) ->
      run.1 = JArray items /\
      forall t2 db2, flt (fsub t2 current_time) _HOTLINES_CACHE_TTL = true ->
        load_crisis_hotlines t2 db2 run.2 = (JArray items, run.2)) /\
   (forall c value msg,
      db (lit "crisis_hotlines") = Ok (Some (c :: value)) ->
      json_loads (c :: value) = JSONDecodeError msg ->
      run = (DEFAULT_CRISIS_HOTLINES, ask (lit "crisis_hotlines") s)) /\
   (forall ex, db (lit "crisis_hotlines") = Raise ex ->
      run = (DEFAULT_CRISIS_HOTLINES, ask (lit "crisis_hotlines") s)) /\
   (db (lit "crisis_hotlines") = Ok None \/ db (lit "crisis_hotlines") = Ok (Some []) ->
      run = (DEFAULT_CRISIS_HOTLINES,
             set_crisis_hotlines_cache DEFAULT_CRISIS_HOTLINES current_time
               (ask (lit "crisis_hotlines") s)))).
Proof.
  intros run.
  assert (run.1 <> JNull) as Hnn.
  { subst run. destruct (crisis_hotlines_fresh current_time s) eqn:Hf.
    - rewrite (load_crisis_hotlines_fresh _ _ _ Hf). cbn [fst].
      unfold crisis_hotlines_fresh in Hf. destruct (_crisis_hotlines_cache s); discriminate.
    - rewrite (load_crisis_hotlines_stale _ _ _ Hf). cbv zeta.
      destruct (db (lit "crisis_hotlines")) as [[[|c value]|]|ex]; try discriminate.
      destruct (json_loads (c :: value)) as [hotlines| |]; try discriminate.
      destruct hotlines; discriminate. }
  split; [exact Hnn|]. split.
  { unfold get_crisis_response. destruct run.1; [congruence|reflexivity..]. }
  split.
  { intros Hf. apply load_crisis_hotlines_fresh, Hf. }
  intros Hf. subst run. rewrite (load_crisis_hotlines_stale _ _ _ Hf). cbv zeta.
  split; [|split; [|split]].
  - intros c value items -> ->. cbn [fst snd py_len]. split; [reflexivity|].
    intros t2 db2 Hfresh. rewrite load_crisis_hotlines_fresh; [reflexivity|].
    unfold crisis_hotlines_fresh. cbn. exact Hfresh.
  - intros c value msg -> ->. reflexivity.
  - intros ex ->. reflexivity.
  - intros [-> | ->]; reflexivity.
Qed.

End SafetySettingsFacts.

(** ** The validation of the settings *)

Section AdminConfigFacts.
Context {F : Type} `{PyNum F} `{Unicode} `{JsonLib}.
Import Safety SafetySettings AdminConfig.

Lemma check_hotlines_well_formed (items : list json) :
  check_hotlines items = None -> Forall well_formed_hotline items.
Proof.
  induction items as [|hotline items IH]; simpl; [constructor|].
  destruct hotline as [| | | | |members]; try discriminate.
  destruct (has_key (lit "name") members) eqn:E1; [|discriminate].
  destruct (has_key (lit "number") members) eqn:E2; [|discriminate].
  simpl. intros Hrest. constructor; [|apply IH, Hrest].
  exists members. auto.
Qed.

(** X17: hotlines that passed the validation load as they were validated.
    A value that [_validate_config_value] accepts for the key
    [crisis_hotlines] decodes to a list of objects that each have a name
    and a number; and when that value is the setting of the database,
    [load_crisis_hotlines] without a fresh cache returns this very list. *)
Theorem validated_hotlines_load (c : char) (value : str) (current_time : F)
  (db : settings_db) (s : safety_state F) :
  _validate_config_value (lit "crisis_hotlines") (c :: value) = Returns tt ->
  exists items,
    json_loads (c :: value) = Loaded (JArray items) /\
    Forall well_formed_hotline items /\
    (crisis_hotlines_fresh current_time s = false ->
     db (lit "crisis_hotlines") = Ok (Some (c :: value)) ->
     (load_crisis_hotlines current_time db s).1 = JArray items).
Proof.
  unfold _validate_config_value.
  rewrite bool_decide_eq_true_2 by reflexivity.
  destruct (json_loads (c :: value)) as [hotlines|msg|ex] eqn:Hload; try discriminate.
  destruct hotlines as [| | | |items|]; try discriminate.
  destruct (check_hotlines items) eqn:Hcheck; [discriminate|]. intros _.
  exists items. split; [reflexivity|]. split; [apply check_hotlines_well_formed, Hcheck|].
  intros Hf Hdb. rewrite (load_crisis_hotlines_stale _ _ _ Hf). cbv zeta.
  rewrite Hdb, Hload. reflexivity.
Qed.

(** X18: keywords that passed the validation. A value that
    [_validate_config_value] accepts for the key [sos_keywords] is not
    blank and has at least three fields between its commas; blank fields
    count for the validation and are dropped by the loader, so when no
    field of the value is blank, [load_sos_keywords] without a fresh cache
    loads as many keywords as the value has fields, at least three. *)
Theorem validated_keywords_load (value : str) (current_time : F)
  (db : settings_db) (s : safety_state F) :
  _validate_config_value (lit "sos_keywords") value = Returns tt ->
  strip value <> [] /\
  (3 <= length (split_on 44 value))%nat /\
  (sos_keywords_fresh current_time s = false ->
   db (lit "sos_keywords") = Ok (Some value) ->
   Forall (fun field => strip field <> []) (split_on 44 value) ->
   length (load_sos_keywords current_time db s).1 = length (split_on 44 value)).
Proof.
  unfold _validate_config_value.
  rewrite bool_decide_eq_false_2 by (intros E; vm_compute in E; discriminate E).
  rewrite bool_decide_eq_true_2 by reflexivity.
  destruct value as [|c value]; [discriminate|].
  destruct (strip (c :: value)) as [|c' stripped] eqn:Hstrip; [discriminate|].
  rewrite length_map.
  destruct (Nat.ltb_spec (length (split_on 44 (c :: value))) 3); [discriminate|].
  intros _. split; [discriminate|]. split; [lia|].
  intros Hf Hdb Hfields. rewrite (load_sos_keywords_stale _ _ _ Hf), Hdb. cbn [fst].
  rewrite length_map. f_equal. apply filter_all, Hfields.
Qed.

End AdminConfigFacts.

(** ** The audit record of an alarm *)

Section ChatFacts.
Context `{Unicode}.
Import Safety Chat.

Lemma contains_prefix (t k : str) : k `prefix_of` t -> contains t k = true.
Proof. intros Hp. destruct t; simpl; rewrite (bool_decide_eq_true_2 _ Hp); reflexivity. Qed.

Lemma contains_infix (pre k post : str) : contains (pre ++ k ++ post) k = true.
Proof.
  induction pre as [|c pre IH].
  - apply contains_prefix. exists post. reflexivity.
  - cbn [app contains]. rewrite IH. apply orb_true_r.
Qed.

(** X19: an alarm always names a keyword. The gate matches a keyword
    between word boundaries and the audit record lists the keywords that
    occur anywhere in the message; a keyword that makes the gate report a
    message is among those listed, so the list of an alarm is never
    empty. *)
Theorem alarm_names_a_keyword (content : str) (sos_keywords : list str) :
  check_sos_keywords content (Some sos_keywords) = true ->
  exists kw,
    kw ∈ detected_keywords sos_keywords content /\
    re_search (keyword_pattern kw) (lower content) = true.
Proof.
  unfold check_sos_keywords. rewrite check_loop_true.
  intros (kw & Hkw & Hsearch). exists kw. split; [|exact Hsearch].
  unfold detected_keywords. apply list_elem_of_filter. split; [|exact Hkw].
  unfold re_search, keyword_pattern in Hsearch.
  apply search_from_true in Hsearch as (pre & post & E & Hm).
  apply match_here_keyword in Hm as (_ & post' & -> & _).
  rewrite E. apply contains_infix.
Qed.

End ChatFacts.

(** ** The gate over its list of keywords *)

Section GateFacts.
Context `{Unicode}.
Import Safety.

Lemma check_loop_app (text_lower : str) (ks1 ks2 : list str) :
  check_loop text_lower (ks1 ++ ks2) = check_loop text_lower ks1 || check_loop text_lower ks2.
Proof.
  induction ks1 as [|k ks1 IH]; simpl; [reflexivity|].
  destruct (re_search (keyword_pattern k) text_lower); [reflexivity|exact IH].
Qed.

(** X20: the gate reports a message exactly when one of the keywords
    alone makes it report the message. So the empty list reports nothing,
    the answer for two lists put together is the disjunction of the
    answers for each, and the order of the keywords does not matter. *)
Theorem check_sos_keywords_any_keyword (text : str) (keywords : list str) :
  (check_sos_keywords text (Some keywords) = true <->
   exists kw, kw ∈ keywords /\ check_sos_keywords text (Some [kw]) = true) /\
  check_sos_keywords text (Some []) = false /\
  (forall more,
     check_sos_keywords text (Some (keywords ++ more))
     = check_sos_keywords text (Some keywords) || check_sos_keywords text (Some more)) /\
  (forall keywords', keywords ≡ₚ keywords' ->
     check_sos_keywords text (Some keywords) = check_sos_keywords text (Some keywords')).
Proof.
  assert (forall ks, check_sos_keywords text (Some ks) = true <->
                     exists kw, kw ∈ ks /\ check_sos_keywords text (Some [kw]) = true) as Hany.
  { intros ks. unfold check_sos_keywords. rewrite check_loop_true.
    split; intros (kw & Hkw & E); exists kw; (split; [exact Hkw|]).
    - simpl. rewrite E. reflexivity.
    - simpl in E. destruct (re_search (keyword_pattern kw) (lower text)); [reflexivity|exact E]. }
  split; [apply Hany|]. split; [reflexivity|]. split.
  - intros more. unfold check_sos_keywords. apply check_loop_app.
  - intros keywords' Hperm.
    destruct (check_sos_keywords text (Some keywords)) eqn:E1;
      destruct (check_sos_keywords text (Some keywords')) eqn:E2; try reflexivity.
    + apply Hany in E1 as (kw & Hkw & E). rewrite Hperm in Hkw.
      assert (check_sos_keywords text (Some keywords') = true) by (apply Hany; eauto).
      congruence.
    + apply Hany in E2 as (kw & Hkw & E). rewrite <- Hperm in Hkw.
      assert (check_sos_keywords text (Some keywords) = true) by (apply Hany; eauto).
      congruence.
Qed.

End GateFacts.

(** ** More of the retrieval *)

Section RetrievalBounds.
Context {F : Type} `{PyNumLaws F} `{Bm25Lib F} `{Unicode}.
Import Rag.

(** X21: whatever the store, the index and the models do, [hybrid_search]
    with a limit that is not negative returns at most [top_k] results,
    sorted by descending fused score, each with its fused score and one
    minus it as its distance. *)
Theorem hybrid_search_bounds (e : env F) (query : str) (top_k : Z)
  (filter_metadata : option where_filter) (alpha : F)
  (query_embedding : option (list F)) (w : world F) :
  (0 <= top_k)%Z ->
  exists results,
    (hybrid_search e query top_k filter_metadata alpha query_embedding w).1 = Ok results /\
    (length results <= Z.to_nat top_k)%nat /\
    StronglySorted (fun a b => fle (score_key b) (score_key a) = true) results /\
    Forall (fun r => exists h, score r = Some h /\ distance r = fsub (of_Z 1) h) results.
Proof.
  intros Hk.
  destruct (hybrid_search_shape e query top_k filter_metadata alpha query_embedding w)
    as [E|(documents & metadatas & lexical & dmap & combined & Hcomb & E)];
    rewrite E; eexists; (split; [reflexivity|]).
  - split; [simpl; lia|]. split; constructor.
  - split; [|split].
    + unfold slice_to. destruct (Z.leb_spec 0 top_k); [|lia]. rewrite length_take. lia.
    + apply StronglySorted_slice_to, sort_reverse_sorted.
    + apply Forall_slice_to.
      pose proof (combine_loop_scores _ _ _ _ _ _ _ Hcomb) as Hall.
      rewrite Forall_forall in *. intros r Hr. apply Hall.
      unfold sort_reverse in Hr. rewrite stable_sort_perm in Hr. exact Hr.
Qed.

End RetrievalBounds.

Section IndexExpiry.
Context {F : Type} `{PyNum F} `{Bm25Lib F} `{Unicode}.
Import Rag.

(** X22: the index expires. When a first call has built the index and a
    second call comes when the time to live has passed, the second call
    asks the store again under its own filter, returns the index built from
    the new answer and stores it with the time of the second call. *)
Theorem bm25_index_rebuilt_after_ttl (e1 e2 : env F) (coll1 coll2 : collection F)
  (f1 f2 : option where_filter) (w : world F) (res res2 : get_result)
  (index index2 : bm25) :
  bm25_cache_valid (now e1) (rag w) = false ->
  coll_get coll1 f1 = Ok res ->
  get_documents res <> [] ->
  BM25Okapi (tokenize_corpus (get_documents res)) = Ok index ->
  flt (fsub (now e2) (now e1)) (_bm25_cache_ttl (rag w)) = false ->
  coll_get coll2 f2 = Ok res2 ->
  get_documents res2 <> [] ->
  BM25Okapi (tokenize_corpus (get_documents res2)) = Ok index2 ->
  let first := _get_bm25_index e1 coll1 f1 w in
  let second := _get_bm25_index e2 coll2 f2 first.2 in
  second.1 = Ok (Some index2, get_documents res2, get_metadatas res2) /\
  trace second.2 = trace w ++ [CollectionGet f1; CollectionGet f2] /\
  _bm25_cache (rag second.2) = Some index2 /\
  _bm25_cache_time (rag second.2) = Some (now e2).
Proof.
  intros Hinvalid Hget Hne Hbuild Hexpired Hget2 Hne2 Hbuild2 first second.
  assert (first = (Ok (Some index, get_documents res, get_metadatas res),
                   rebuilt (now e1) f1 res index w)) as Hfirst.
  { subst first. rewrite get_bm25_index_miss by exact Hinvalid. rewrite Hget.
    destruct (get_documents res) eqn:Hd; [congruence|]. rewrite Hbuild. reflexivity. }
  subst second. rewrite Hfirst. cbn [snd].
  rewrite get_bm25_index_miss.
  - rewrite Hget2. destruct (get_documents res2) eqn:Hd; [congruence|].
    rewrite Hbuild2. cbn. rewrite <- app_assoc. repeat split.
  - unfold bm25_cache_valid. cbn. exact Hexpired.
Qed.

End IndexExpiry.

(** ** Clearing the result cache *)

Section ClearFacts.
Context {F : Type} `{PyNumLaws F} `{Bm25Lib F} `{CodecLib F} `{CacheAdmin.RedisLib}.
Import SemanticCache CacheAdmin.

Lemma delete_keys_lookup (e : env F) (keys : list str) (db : gmap str (str * F)) (k : str) :
  (delete_keys e keys db).2 !! k = if bool_decide (k ∈ keys) then None else db !! k.
Proof.
  revert db. induction keys as [|a keys IH]; intros db; cbn [delete_keys].
  - rewrite bool_decide_eq_false_2 by apply not_elem_of_nil. reflexivity.
  - specialize (IH (delete a db)).
    destruct (delete_keys e keys (delete a db)) as [m db'] eqn:E. cbn [snd] in *.
    rewrite IH. destruct (decide (k ∈ keys)) as [Hin|Hnin].
    + rewrite (bool_decide_eq_true_2 _ Hin).
      rewrite bool_decide_eq_true_2 by (right; exact Hin). reflexivity.
    + rewrite (bool_decide_eq_false_2 _ Hnin). destruct (decide (k = a)) as [->|Hne].
      * rewrite bool_decide_eq_true_2 by left. apply lookup_delete_eq.
      * rewrite bool_decide_eq_false_2.
        -- apply lookup_delete_ne. congruence.
        -- intros Hin. apply elem_of_cons in Hin as [?|?]; contradiction.
Qed.

Lemma delete_keys_count (e : env F) (keys : list str) (db : gmap str (str * F)) :
  NoDup keys ->
  Forall (fun k => exists entry, db !! k = Some entry /\ live e entry = true) keys ->
  (delete_keys e keys db).1 = Z.of_nat (length keys).
Proof.
  revert db. induction keys as [|a keys IH]; intros db Hnd Hall; [reflexivity|].
  apply NoDup_cons in Hnd as [Ha Hnd]. apply Forall_cons in Hall as [(entry & Hentry & Hlive) Hall].
  cbn [delete_keys]. rewrite Hentry, Hlive.
  specialize (IH (delete a db) Hnd).
  destruct (delete_keys e keys (delete a db)) as [m db'] eqn:E. cbn [fst] in *.
  rewrite IH; [cbn [length]; lia|].
  rewrite Forall_forall in *. intros k Hk. destruct (Hall k Hk) as (entry' & He' & Hl').
  exists entry'. split; [|exact Hl']. rewrite lookup_delete_ne; [exact He'|].
  intros ->. contradiction.
Qed.

(** A key that is absent or expired is a miss. *)
Lemma cache_get_dead (self : SemanticCache) (e : env F) (q : list F) (w : world F)
  (db : gmap str (str * F)) :
  redis_client w = Some db ->
  match db !! _generate_cache_key self q with
  | Some entry => live e entry = false
  | None => True
  end ->
  (get self e q w).1 = Ok None.
Proof.
  intros Hdb Hdead. unfold get, try_except, redis_get, get_redis.
  unfold mbind, M_bind, bind, call, lift, ret. rewrite Hdb.
  destruct (redis_reachable e); [|reflexivity].
  destruct (db !! _generate_cache_key self q) as [[value expiry]|]; [|reflexivity].
  unfold live in Hdead. cbn in Hdead. rewrite Hdead. reflexivity.
Qed.

(** X23: clearing the cache. [clear_all] never raises, and answers 0
    and changes nothing when there is no Redis client or Redis cannot be
    reached. Otherwise, with a pattern that matches exactly the keys that
    begin with the prefix of the cache, it removes every entry of the cache
    that has not expired and returns their number, leaves the keys that do
    not begin with the prefix as they were, and from then on every read of
    the cache is a miss, whatever the embedding. *)
Theorem clear_all_empties_cache (self : SemanticCache) (e : env F) (w : world F) :
  let run := clear_all self e w in
  (exists n, run.1 = Ok n) /\
  (redis_client w = None \/ redis_reachable e = false -> run = (Ok 0%Z, w)) /\
  (forall rdb,
     redis_client w = Some rdb ->
     redis_reachable e = true ->
     (forall key, glob_match (cache_prefix self ++ lit "*") key = true <->
                  exists rest, key = cache_prefix self ++ rest) ->
     exists rdb',
       redis_client run.2 = Some rdb' /\
       run.1 = Ok (Z.of_nat (length (filter
                 (fun kv => live e kv.2 = true /\
                            glob_match (cache_prefix self ++ lit "*") kv.1 = true)
                 (map_to_list rdb)))) /\
       (forall key, (forall rest, key <> cache_prefix self ++ rest) ->
                    rdb' !! key = rdb !! key) /\
       (forall e2 q, fle (now e) (now e2) = true -> (get self e2 q run.2).1 = Ok None)).
Proof.
  intros run. subst run. unfold clear_all, try_except, get_redis, redis_keys.
  unfold mbind, M_bind, bind, lift.
  destruct (redis_client w) as [rdb|] eqn:Hdb.
  2: { cbn. split; [eauto|]. split; [auto|]. intros rdb'. discriminate. }
  destruct (redis_reachable e) eqn:Hup.
  2: { cbn. split; [eauto|]. split; [auto|]. intros rdb' _. discriminate. }
  set (pattern := cache_prefix self ++ lit "*").
  set (matching := filter (fun kv : str * (str * F) =>
                             live e kv.2 = true /\ glob_match pattern kv.1 = true)
                          (map_to_list rdb)).
  assert (NoDup matching.*1) as Hnd.
  { eapply sublist_NoDup; [apply (NoDup_fst_map_to_list rdb)|].
    apply fmap_sublist, sublist_filter. }
  assert (forall k, k ∈ matching.*1 <->
                    exists entry, rdb !! k = Some entry /\ live e entry = true /\
                                  glob_match pattern k = true) as Hkeys.
  { intros k. rewrite list_elem_of_fmap. split.
    - intros ([k' entry] & -> & Hin). apply list_elem_of_filter in Hin as [[Hl Hg] Hin].
      apply elem_of_map_to_list in Hin. exists entry. auto.
    - intros (entry & Hentry & Hl & Hg). exists (k, entry). split; [reflexivity|].
      apply list_elem_of_filter. split; [auto|]. apply elem_of_map_to_list, Hentry. }
  assert ((delete_keys e matching.*1 rdb).1 = Z.of_nat (length matching)) as Hcount.
  { rewrite delete_keys_count; [rewrite length_fmap; reflexivity|exact Hnd|].
    rewrite Forall_forall. intros k Hk. apply Hkeys in Hk as (entry & ? & ? & ?). eauto. }
  assert (exists rdb',
             (match matching.*1 with
              | [] => (ret 0%Z : M F Z)
              | _ :: _ =>
                fun w0 => match redis_delete e rdb matching.*1 w0 with
                          | (Ok a, w') => ret a w'
                          | (Raise e0, w') => (Raise e0, w')
                          end
              end) w = (Ok (Z.of_nat (length matching)), set_redis (Some rdb') w) /\
             forall k, rdb' !! k = if bool_decide (k ∈ matching.*1) then None else rdb !! k)
    as (rdb' & Hrun & Hlookup).
  { destruct (matching.*1) as [|k ks] eqn:Hm.
    - exists rdb. split.
      + destruct matching; [|discriminate]. unfold ret, set_redis. rewrite <- Hdb.
        destruct w; reflexivity.
      + intros k. rewrite bool_decide_eq_false_2 by apply not_elem_of_nil. reflexivity.
    - exists (delete_keys e (k :: ks) rdb).2. split.
      + unfold redis_delete. rewrite Hup.
        destruct (delete_keys e (k :: ks) rdb) as [deleted db'] eqn:Hdel.
        unfold mbind, M_bind, bind, modify, ret. cbn [fst snd] in *. rewrite Hcount.
        reflexivity.
      + intros k'. apply delete_keys_lookup. }
  unfold bind, ret in *. rewrite Hrun. cbn [fst snd].
  split; [eauto|]. split; [intros [?|?]; discriminate|].
  intros rdb0 [= <-] _ Hglob. exists rdb'. split; [reflexivity|]. split; [reflexivity|].
  split.
  - intros key Hno. rewrite Hlookup. rewrite bool_decide_eq_false_2; [reflexivity|].
    intros Hin. apply Hkeys in Hin as (entry & _ & _ & Hg).
    apply Hglob in Hg as [rest ->]. apply (Hno rest). reflexivity.
  - intros e2 q Hlater. apply (cache_get_dead self e2 q _ rdb'); [reflexivity|].
    rewrite Hlookup. case_bool_decide as Hin; [exact I|].
    destruct (rdb !! _generate_cache_key self q) as [entry|] eqn:Hentry; [|exact I].
    destruct (live e entry) eqn:Hl.
    + exfalso. apply Hin, Hkeys. exists entry. split; [exact Hentry|]. split; [exact Hl|].
      apply Hglob. eexists. reflexivity.
    + unfold live in *.
      assert (fle entry.2 (now e2) = true) as Hle.
      { apply (fle_trans _ (now e)); [|exact Hlater]. unfold fle. rewrite Hl. reflexivity. }
      unfold fle in Hle. destruct (flt (now e2) entry.2); [discriminate|reflexivity].
Qed.

End ClearFacts.

(** ** The connection to the document store *)

Section VectorStoreFacts.
Context {F : Type} `{PyNum F} {client coll : Type}.
Import VectorStore.

Lemma connections_app (l1 l2 : list chroma_event) :
  connections (l1 ++ l2) = (connections l1 + connections l2)%nat.
Proof. unfold connections. rewrite omap_app, length_app. reflexivity. Qed.

Lemma sleeps_app (l1 l2 : list chroma_event) : sleeps (l1 ++ l2) = sleeps l1 ++ sleeps l2.
Proof. apply omap_app. Qed.

(** One attempt makes one client and no pause. *)
Lemma attempt_once_spec (e : chroma_env F client coll) (attempt : nat)
  (s : chroma_state F client) :
  let run := attempt_once e attempt s in
  exists new,
    calls run.2 = calls s ++ new /\
    connections new = 1%nat /\
    sleeps new = [] /\
    (forall c, run.1 = Ok c ->
       _chroma_client run.2 = Some c /\ _chroma_client_last_check run.2 = time e).
Proof.
  intros run. subst run. unfold attempt_once.
  destruct (new_client e attempt) as [c|ex].
  - destruct (heartbeat_new e attempt c) as [u|ex].
    + exists [HttpClient; Heartbeat]. cbn [fst snd calls record set_client set_last_check].
      rewrite <- app_assoc. split; [reflexivity|]. split; [reflexivity|].
      split; [reflexivity|]. intros c' [= <-]. split; reflexivity.
    + exists [HttpClient; Heartbeat]. cbn [fst snd calls record set_client set_last_check].
      rewrite <- app_assoc. split; [reflexivity|]. split; [reflexivity|].
      split; [reflexivity|]. intros c'. discriminate.
  - exists [HttpClient]. split; [reflexivity|]. split; [reflexivity|].
    split; [reflexivity|]. intros c'. discriminate.
Qed.

(** The three attempts, from a state [s] on: what is added to the calls,
    and how they end. *)
Lemma connect_attempts_spec (e : chroma_env F client coll) (s : chroma_state F client) :
  let run := connect_attempts e 0 2 2 s in
  exists new,
    calls run.2 = calls s ++ new /\
    (connections new <= 3)%nat /\
    (sleeps new = [] \/ sleeps new = [2%Z] \/ sleeps new = [2%Z; 4%Z]) /\
    (forall c, run.1 = Ok c ->
       _chroma_client run.2 = Some c /\ _chroma_client_last_check run.2 = time e) /\
    (forall ex, run.1 = Raise ex ->
       (exists msg, ex = VectorStoreError msg) /\
       connections new = 3%nat /\ sleeps new = [2%Z; 4%Z]).
Proof.
  intros run. subst run. cbn [connect_attempts].
  destruct (attempt_once_spec e 0 s) as (n0 & C0 & K0 & S0 & O0).
  destruct (attempt_once e 0 s) as [[c0|ex0] s0]; cbn [fst snd] in *.
  { exists n0. split; [exact C0|]. split; [lia|]. split; [auto|].
    split; [intros c [= <-]; apply O0; reflexivity|intros ex; discriminate]. }
  destruct (attempt_once_spec e 1 (record (Sleep 2) s0)) as (n1 & C1 & K1 & S1 & O1).
  destruct (attempt_once e 1 (record (Sleep 2) s0)) as [[c1|ex1] s1]; cbn [fst snd] in *.
  { exists (n0 ++ [Sleep 2] ++ n1). cbn [calls record] in C1. rewrite C1, C0, <- !app_assoc.
    split; [reflexivity|]. rewrite !connections_app, !sleeps_app, K0, K1, S0, S1.
    split; [cbn; lia|]. split; [auto|].
    split; [intros c [= <-]; apply O1; reflexivity|intros ex; discriminate]. }
  change (2 * 2)%Z with 4%Z.
  destruct (attempt_once_spec e 2 (record (Sleep 4) s1)) as (n2 & C2 & K2 & S2 & O2).
  destruct (attempt_once e 2 (record (Sleep 4) s1)) as [[c2|ex2] s2]; cbn [fst snd] in *.
  { exists (n0 ++ [Sleep 2] ++ n1 ++ [Sleep 4] ++ n2). cbn [calls record] in C1, C2.
    rewrite C2, C1, C0, <- !app_assoc.
    split; [reflexivity|]. rewrite !connections_app, !sleeps_app, K0, K1, K2, S0, S1, S2.
    split; [cbn; lia|]. split; [auto|].
    split; [intros c [= <-]; apply O2; reflexivity|intros ex; discriminate]. }
  exists (n0 ++ [Sleep 2] ++ n1 ++ [Sleep 4] ++ n2). cbn [calls record] in C1, C2.
  rewrite C2, C1, C0, <- !app_assoc.
  split; [reflexivity|]. rewrite !connections_app, !sleeps_app, K0, K1, K2, S0, S1, S2.
  split; [cbn; lia|]. split; [auto|].
  split; [intros c; discriminate|]. intros ex [= <-]. split; [eauto|]. split; reflexivity.
Qed.

(** X24: connecting to the document store. A client that was checked
    less than 60 seconds ago is returned as it is, with no call to the
    server. Otherwise at most three clients are made, with a pause of 2
    seconds after the first failure and of 4 seconds after the second; a
    client that is returned is the one kept for the next call; and the only
    exception raised is [VectorStoreError], after three failed attempts. *)
Theorem get_chroma_client_retries (e : chroma_env F client coll) (s : chroma_state F client) :
  let run := get_chroma_client e s in
  (forall c, _chroma_client s = Some c ->
     flt (fsub (time e) (_chroma_client_last_check s)) _CHROMA_HEARTBEAT_INTERVAL = true ->
     run = (Ok c, s)) /\
  exists new,
    calls run.2 = calls s ++ new /\
    (connections new <= 3)%nat /\
    (sleeps new = [] \/ sleeps new = [2%Z] \/ sleeps new = [2%Z; 4%Z]) /\
    (forall c, run.1 = Ok c -> _chroma_client run.2 = Some c) /\
    (forall ex, run.1 = Raise ex ->
       (exists msg, ex = VectorStoreError msg) /\
       connections new = 3%nat /\ sleeps new = [2%Z; 4%Z]).
Proof.
  intros run. subst run. unfold get_chroma_client. split.
  - intros c -> ->. reflexivity.
  - destruct (_chroma_client s) as [c|] eqn:Hc.
    + destruct (flt _ _).
      * exists []. rewrite app_nil_r. cbn [fst snd]. split; [reflexivity|].
        split; [cbn; lia|]. split; [auto|].
        split; [intros c' [= <-]; exact Hc|intros ex; discriminate].
      * destruct (heartbeat_cached e c).
        -- exists [Heartbeat]. cbn [fst snd]. split; [reflexivity|]. split; [cbn; lia|].
           split; [auto|]. split; [intros c' [= <-]; exact Hc|intros ex; discriminate].
        -- destruct (connect_attempts_spec e (set_client None (record Heartbeat s)))
             as (new & Hcalls & Hconn & Hsleeps & Hok & Hraise).
           exists ([Heartbeat] ++ new). cbn [calls set_client record] in Hcalls.
           rewrite <- app_assoc in Hcalls.
           split; [exact Hcalls|]. rewrite connections_app, sleeps_app.
           split; [exact Hconn|]. split; [exact Hsleeps|].
           split; [intros c' E; apply Hok, E|exact Hraise].
    + destruct (connect_attempts_spec e s) as (new & Hcalls & Hconn & Hsleeps & Hok & Hraise).
      exists new. split; [exact Hcalls|]. split; [exact Hconn|]. split; [exact Hsleeps|].
      split; [intros c' E; apply Hok, E|exact Hraise].
Qed.

(** X25: the errors of the document store, and the deletion of a
    document. [get_collection] and [delete_document] raise nothing but
    [VectorStoreError], with their own prefix before the message of the
    cause. Once the collection is there, [delete_document] asks for the
    chunks of the file and then sends the deletion, whether or not the
    first call answered; when the deletion succeeds it returns the number
    of chunks the first call listed, or 0 when that call failed. *)
Theorem delete_document_deletes (e : chroma_env F client coll)
  (filename collection_name : str) (s : chroma_state F client) :
  (forall ex, (get_collection e collection_name s).1 = Raise ex ->
     exists msg, ex = VectorStoreError (lit "Collection operation failed: " ++ msg)) /\
  (forall ex, (delete_document e filename collection_name s).1 = Raise ex ->
     exists msg, ex = VectorStoreError (lit "Document deletion failed: " ++ msg)) /\
  (forall collection s1,
     get_collection e collection_name s = (Ok collection, s1) ->
     calls (delete_document e filename collection_name s).2
       = calls s1 ++ [CollectionGetWhere filename; CollectionDeleteWhere filename] /\
     (forall u, delete_where_source e collection filename = Ok u ->
        (delete_document e filename collection_name s).1 =
        Ok match get_where_source e collection filename with
           | Ok ids => Z.of_nat (length ids)
           | Raise _ => 0%Z
           end)).
Proof.
  assert (forall ex, (get_collection e collection_name s).1 = Raise ex ->
            exists msg, ex = VectorStoreError (lit "Collection operation failed: " ++ msg))
    as Hcoll.
  { intros ex. unfold get_collection. cbv zeta.
    destruct (get_chroma_client e s) as [[c|ex0] s0].
    - destruct (get_or_create_collection e c collection_name) as [collection|ex1].
      + destruct (count e collection) as [n|ex2]; cbn [fst].
        * intros E. discriminate E.
        * intros E. exists (exn_str ex2). congruence.
      + cbn [fst]. intros E. exists (exn_str ex1). congruence.
    - cbn [fst]. intros E. exists (exn_str ex0). congruence. }
  split; [exact Hcoll|]. split.
  - intros ex. unfold delete_document. cbv zeta.
    destruct (get_collection e collection_name s) as [[collection|ex0] s0].
    + destruct (delete_where_source e collection filename) as [u|ex1]; cbn [fst].
      * intros E. discriminate E.
      * intros E. exists (exn_str ex1). congruence.
    + cbn [fst]. intros E. exists (exn_str ex0). congruence.
  - intros collection s1 Hc. unfold delete_document. cbv zeta. rewrite Hc. split.
    + destruct (delete_where_source e collection filename);
        cbn [fst snd calls record]; rewrite <- app_assoc; reflexivity.
    + intros u Hu. rewrite Hu. reflexivity.
Qed.

End VectorStoreFacts.

(** ** The emotion tagger *)

Section EmotionFacts.
Context `{Unicode}.
Import Emotion.

(** The fold of [max] keeps the first of the greatest values. *)
Lemma foldl_best (rest : list (str * nat)) (best : str * nat)
  (before after : list (str * nat)) :
  Forall (fun y => (y.2 < best.2)%nat) before ->
  Forall (fun y => (y.2 <= best.2)%nat) after ->
  exists pre x post,
    before ++ best :: after ++ rest = pre ++ x :: post /\
    foldl (fun best x => if (best.2 <? x.2)%nat then x else best) best rest = x /\
    Forall (fun y => (y.2 < x.2)%nat) pre /\
    Forall (fun y => (y.2 <= x.2)%nat) post.
Proof.
  revert best before after. induction rest as [|y rest IH]; intros best before after Hb Ha.
  - exists before, best, after. rewrite app_nil_r. auto.
  - cbn [foldl]. destruct (Nat.ltb_spec best.2 y.2) as [Hlt|Hge].
    + destruct (IH y (before ++ best :: after) []) as (pre & x & post & E & Hx & Hpre & Hpost).
      * apply Forall_app. split; [|constructor].
        -- eapply Forall_impl; [exact Hb|]. intros z Hz. simpl in *. lia.
        -- exact Hlt.
        -- eapply Forall_impl; [exact Ha|]. intros z Hz. simpl in *. lia.
      * constructor.
      * exists pre, x, post. split; [|auto]. rewrite <- E. rewrite <- !app_assoc. reflexivity.
    + destruct (IH best before (after ++ [y])) as (pre & x & post & E & Hx & Hpre & Hpost).
      * exact Hb.
      * apply Forall_app. split; [exact Ha|]. constructor; [exact Hge|constructor].
      * exists pre, x, post. split; [|auto]. rewrite <- E. rewrite <- !app_assoc. reflexivity.
Qed.

Lemma max_by_value_first (d : list (str * nat)) (k : str) :
  max_by_value d = Some k ->
  exists pre v post,
    d = pre ++ (k, v) :: post /\
    Forall (fun y => (y.2 < v)%nat) pre /\
    Forall (fun y => (y.2 <= v)%nat) post.
Proof.
  destruct d as [|first rest]; [discriminate|]. unfold max_by_value. intros [= <-].
  destruct (foldl_best rest first [] []) as (pre & x & post & E & Hx & Hpre & Hpost);
    [constructor|constructor|].
  rewrite Hx. exists pre, x.2, post. split; [|auto].
  cbn [app] in E. rewrite E. destruct x; reflexivity.
Qed.

(** An entry of the scores comes from an entry of the table that is not
    [neutral] and has a positive score. *)
Lemma score_emotions_split (table : list (str * list str)) (text_lower : str)
  (pre post : list (str * nat)) (emotion : str) (v : nat) :
  score_emotions table text_lower = pre ++ (emotion, v) :: post ->
  exists before keywords after,
    table = before ++ (emotion, keywords) :: after /\
    emotion <> lit "neutral" /\
    v = emotion_score keywords text_lower /\
    (0 < v)%nat /\
    score_emotions before text_lower = pre /\
    score_emotions after text_lower = post.
Proof.
  revert pre. induction table as [|[e0 k0] table IH]; intros pre; cbn [score_emotions].
  - intros E. destruct pre; discriminate.
  - case_bool_decide as Hn.
    + intros E. destruct (IH pre E) as (before & keywords & after & -> & ? & ? & ? & Hb & Ha).
      exists ((e0, k0) :: before), keywords, after. repeat split; auto.
      cbn [score_emotions]. rewrite bool_decide_eq_true_2 by exact Hn. exact Hb.
    + destruct (Nat.ltb_spec 0 (emotion_score k0 text_lower)) as [Hpos|Hzero].
      * destruct pre as [|p pre].
        -- intros [= <- <- <-]. exists [], k0, table. repeat split; auto.
        -- intros [= <- E].
           destruct (IH pre E) as (before & keywords & after & -> & ? & ? & ? & Hb & Ha).
           exists ((e0, k0) :: before), keywords, after. repeat split; auto.
           cbn [score_emotions]. rewrite bool_decide_eq_false_2 by exact Hn.
           destruct (Nat.ltb_spec 0 (emotion_score k0 text_lower)); [|lia].
           rewrite Hb. reflexivity.
      * intros E. destruct (IH pre E) as (before & keywords & after & -> & ? & ? & ? & Hb & Ha).
        exists ((e0, k0) :: before), keywords, after. repeat split; auto.
        cbn [score_emotions]. rewrite bool_decide_eq_false_2 by exact Hn.
        destruct (Nat.ltb_spec 0 (emotion_score k0 text_lower)); [lia|]. exact Hb.
Qed.

(** What holds of the scores kept holds of the table, where an entry is
    passed when it is [neutral] or scores nothing. *)
Lemma score_emotions_all (P : nat -> Prop) (table : list (str * list str))
  (text_lower : str) :
  P 0%nat ->
  Forall (fun y => P y.2) (score_emotions table text_lower) ->
  Forall (fun entry => entry.1 = lit "neutral" \/ P (emotion_score entry.2 text_lower)) table.
Proof.
  intros P0. induction table as [|[e0 k0] table IH]; cbn [score_emotions]; [constructor|].
  case_bool_decide as Hn.
  - intros Hall. constructor; [left; exact Hn|apply IH, Hall].
  - destruct (Nat.ltb_spec 0 (emotion_score k0 text_lower)) as [Hpos|Hzero].
    + intros Hall. apply Forall_cons in Hall as [H0 Hall].
      constructor; [right; exact H0|apply IH, Hall].
    + intros Hall. constructor; [|apply IH, Hall].
      right. cbn [snd]. assert (emotion_score k0 text_lower = 0%nat) as -> by lia. exact P0.
Qed.

Lemma score_emotions_nil (table : list (str * list str)) (text_lower : str) :
  score_emotions table text_lower = [] <->
  Forall (fun entry => entry.1 = lit "neutral" \/ emotion_score entry.2 text_lower = 0%nat)
         table.
Proof.
  induction table as [|[e0 k0] table IH]; cbn [score_emotions].
  - split; [constructor|reflexivity].
  - case_bool_decide as Hn.
    + rewrite IH. split.
      * intros Hall. constructor; [left; exact Hn|exact Hall].
      * intros Hall. apply Forall_cons in Hall as [_ Hall]. exact Hall.
    + destruct (Nat.ltb_spec 0 (emotion_score k0 text_lower)) as [Hpos|Hzero].
      * split; [discriminate|]. intros Hall. apply Forall_cons in Hall as [[E|E] _].
        -- contradiction.
        -- cbn [snd] in E. lia.
      * rewrite IH. split.
        -- intros Hall. constructor; [right; cbn [snd]; lia|exact Hall].
        -- intros Hall. apply Forall_cons in Hall as [_ Hall]. exact Hall.
Qed.

(** X26: the emotion of a message. [detect_emotion] returns the emotion
    whose keywords occur most often in the lowered message, as whole
    words, provided they occur at all; among emotions that occur equally
    often the first of the table wins; the entry [neutral] never wins. It
    returns [None] for the empty message, and for a message in which no
    keyword of an emotion occurs. *)
Theorem detect_emotion_highest_score (text : str) :
  let score := fun keywords => emotion_score keywords (lower text) in
  detect_emotion [] = None /\
  (forall emotion, detect_emotion text = Some emotion ->
     exists before keywords after,
       EMOTION_KEYWORDS = before ++ (emotion, keywords) :: after /\
       emotion <> lit "neutral" /\
       (0 < score keywords)%nat /\
       Forall (fun entry => entry.1 = lit "neutral" \/ (score entry.2 < score keywords)%nat)
              before /\
       Forall (fun entry => entry.1 = lit "neutral" \/ (score entry.2 <= score keywords)%nat)
              after) /\
  (detect_emotion text = None <->
   text = [] \/
   Forall (fun entry => entry.1 = lit "neutral" \/ score entry.2 = 0%nat) EMOTION_KEYWORDS).
Proof.
  intros score. subst score. cbv beta. split; [reflexivity|]. split.
  - intros emotion. unfold detect_emotion. destruct text as [|c text']; [discriminate|].
    set (text := c :: text') in *. intros Hmax.
    apply max_by_value_first in Hmax as (pre & v & post & E & Hpre & Hpost).
    apply score_emotions_split in E
      as (before & keywords & after & Etable & Hn & -> & Hpos & Hb & Ha).
    exists before, keywords, after. split; [exact Etable|]. split; [exact Hn|].
    split; [exact Hpos|]. split.
    + apply (score_emotions_all (fun n => (n < emotion_score keywords (lower text))%nat));
        [exact Hpos|]. rewrite Hb. exact Hpre.
    + apply (score_emotions_all (fun n => (n <= emotion_score keywords (lower text))%nat));
        [lia|]. rewrite Ha. exact Hpost.
  - unfold detect_emotion. destruct text as [|c text']; [split; auto|].
    set (text := c :: text') in *. rewrite <- score_emotions_nil.
    destruct (score_emotions EMOTION_KEYWORDS (lower text)) as [|first rest].
    + split; auto.
    + split; [discriminate|]. intros [E|E]; discriminate.
Qed.

End EmotionFacts.

(** ** The screen against prompt injection *)

Section PromptInjectionFacts.
Context `{PromptInjection.RegexLib}.
Import PromptInjection.

Lemma first_match_spec (patterns : list str) (text : str) :
  match first_match patterns text with
  | Some pattern =>
    exists pre post,
      patterns = pre ++ pattern :: post /\
      Forall (fun p => search_ignorecase p text = false) pre /\
      search_ignorecase pattern text = true
  | None => Forall (fun p => search_ignorecase p text = false) patterns
  end.
Proof.
  induction patterns as [|p patterns IH]; simpl; [constructor|].
  destruct (search_ignorecase p text) eqn:E.
  - exists [], patterns. auto.
  - destruct (first_match patterns text) as [pattern|].
    + destruct IH as (pre & post & -> & Hpre & Hm). exists (p :: pre), post. auto.
    + constructor; assumption.
Qed.

(** X27: what passes the screen. [validate_prompt_injection] returns the
    body exactly when the message is not empty, has at most 5000
    characters and none of the patterns is found in it. Otherwise it
    raises [HTTPException] with the status 400, naming the limit of length
    for a message that is empty or too long, and else the first pattern of
    the list that is found. *)
Theorem validate_prompt_injection_screen (content : str) :
  (validate_prompt_injection content = Accepted content <->
   content <> [] /\ (length content <= 5000)%nat /\
   Forall (fun p => search_ignorecase p content = false) INJECTION_PATTERNS) /\
  (forall body, validate_prompt_injection content = Accepted body -> body = content) /\
  (forall status_code error message pattern,
     validate_prompt_injection content = Refused status_code error message pattern ->
     status_code = 400%Z /\
     ((content = [] \/ (5000 < length content)%nat) /\
      pattern = lit "Input too long (max 5000 characters)" \/
      content <> [] /\ (length content <= 5000)%nat /\
      exists pre post,
        INJECTION_PATTERNS = pre ++ pattern :: post /\
        Forall (fun p => search_ignorecase p content = false) pre /\
        search_ignorecase pattern content = true)).
Proof.
  assert (Forall (fun p : str => p <> []) INJECTION_PATTERNS) as Hne.
  { unfold INJECTION_PATTERNS. repeat constructor; intros E; vm_compute in E; discriminate E. }
  unfold validate_prompt_injection, detect_prompt_injection.
  destruct content as [|c content'].
  { split; [|split].
    - split; [discriminate|]. intros [Hc _]. congruence.
    - intros body. discriminate.
    - intros st er ms pt [= <- _ _ <-]. split; [reflexivity|]. left. auto. }
  set (content := c :: content') in *.
  destruct (Nat.ltb_spec 5000 (length content)) as [Hlong|Hshort].
  { split; [|split].
    - split; [discriminate|]. intros (_ & Hl & _). lia.
    - intros body. discriminate.
    - intros st er ms pt [= <- _ _ <-]. split; [reflexivity|]. left. auto. }
  pose proof (first_match_spec INJECTION_PATTERNS content) as Hfm.
  destruct (first_match INJECTION_PATTERNS content) as [pattern|].
  - destruct Hfm as (pre & post & E & Hpre & Hm). split; [|split].
    + split; [discriminate|]. intros (_ & _ & Hall). rewrite E in Hall.
      apply Forall_app in Hall as [_ Hall]. apply Forall_cons in Hall as [Hp _]. congruence.
    + intros body. discriminate.
    + intros st er ms pt [= <- _ _ Hpt]. split; [reflexivity|]. right.
      split; [discriminate|]. split; [exact Hshort|].
      assert (pattern <> []) as Hpn.
      { rewrite Forall_forall in Hne. apply Hne. rewrite E. apply elem_of_app. right. left. }
      destruct pattern as [|c0 p0]; [congruence|]. subst pt. eauto.
  - split; [|split].
    + split; [|reflexivity]. intros _. split; [discriminate|]. auto.
    + intros body [= <-]. reflexivity.
    + intros st er ms pt. discriminate.
Qed.

End PromptInjectionFacts.

(** ** The ingestion of a file *)

Section CleanTextFacts.
Context `{Unicode} `{Ingest.UnicodeData}.
Import Ingest.

(** A pattern that begins with a character the text does not hold matches
    nowhere, and the substitution returns the text. *)
Lemma sub_with_absent (p : char -> bool) (its : list item) (repl : str)
  (prev : option char) (t : str) :
  Forall (fun c => p c = false) t -> sub_with (One p :: its) repl O prev t = t.
Proof.
  revert prev. induction t as [|c t IH]; intros prev Hall; [reflexivity|].
  apply Forall_cons in Hall as [Hc Hall].
  cbn [sub_with match_here]. rewrite Hc. f_equal. apply IH, Hall.
Qed.

(** A greedy run followed by nothing always matches. *)
Lemma star_then_total (p : char -> bool) (prev : option char) (t : str) :
  exists n, star_then p (fun _ _ => Some O) prev t = Some n.
Proof.
  revert prev. induction t as [|c t IH]; intros prev; cbn [star_then].
  - eauto.
  - destruct (p c); [|eauto].
    destruct (IH (Some c)) as [n ->]. eauto.
Qed.

(** After [\s+] is replaced by a space, a space is the only whitespace
    left. *)
Lemma whitespace_replaced (skip : nat) (prev : option char) (t : str) :
  Forall (fun c => is_space c = true -> c = 32)
         (sub_with WHITESPACE (lit " ") skip prev t).
Proof.
  revert skip prev. induction t as [|c t IH]; intros skip prev.
  - cbn [sub_with]. destruct skip; cbn; constructor.
  - cbn [sub_with]. destruct skip as [|k]; [|apply IH].
    unfold WHITESPACE at 1. cbn [match_here].
    destruct (is_space c) eqn:Hc.
    + destruct (star_then_total is_space (Some c) t) as [n ->].
      cbn [fmap option_fmap option_map].
      apply Forall_app. split; [|apply IH]. repeat constructor.
    + constructor; [|apply IH]. congruence.
Qed.

(** X28: the text of a file is one line. When the newline is a
    whitespace character, as it is in Python, what [clean_text] returns
    holds no newline, and no whitespace but the plain space: every run of
    whitespace has become one space before the three substitutions for
    blank lines, page numbers and page headers, which all look for a
    newline, so these three change nothing. *)
Theorem clean_text_single_line (text : str) :
  is_space 10 = true ->
  clean_text text
    = strip (re_sub WHITESPACE (lit " ") (re_sub DOTS [] (normalize_nfc text))) /\
  10 ∉ clean_text text /\
  Forall (fun c => is_space c = true -> c = 32) (clean_text text).
Proof.
  intros Hnl. unfold clean_text.
  set (spaced := re_sub WHITESPACE (lit " ") (re_sub DOTS [] (normalize_nfc text))).
  assert (Forall (fun c => is_space c = true -> c = 32) spaced) as Hsp.
  { apply whitespace_replaced. }
  assert (Forall (fun c => newline c = false) spaced) as Hno.
  { eapply Forall_impl; [exact Hsp|]. intros c Hc. unfold newline.
    apply N.eqb_neq. intros <-. specialize (Hc Hnl). discriminate Hc. }
  assert (re_sub PAGE_HEADER [10] (re_sub PAGE_NUMBER [10] (re_sub BLANK_LINES [10; 10] spaced))
          = spaced) as ->.
  { unfold re_sub, BLANK_LINES, PAGE_NUMBER, PAGE_HEADER. cbn [app].
    rewrite (sub_with_absent newline _ _ None spaced Hno).
    rewrite (sub_with_absent newline _ _ None spaced Hno).
    apply (sub_with_absent newline _ _ None spaced Hno). }
  split; [reflexivity|]. split.
  - intros Hin. apply strip_elem in Hin. rewrite Forall_forall in Hno.
    specialize (Hno 10 Hin). discriminate Hno.
  - rewrite Forall_forall in *. intros c Hc. apply Hsp, strip_elem, Hc.
Qed.

End CleanTextFacts.

Section IngestFacts.
Context {F : Type} `{Unicode} `{Ingest.UnicodeData}.
Import Ingest.

Lemma upserted_ids_app (a b : list (ingest_event F)) :
  upserted_ids (a ++ b) = upserted_ids a ++ upserted_ids b.
Proof. apply omap_app. Qed.

Lemma upserted_documents_app (a b : list (ingest_event F)) :
  upserted_documents (a ++ b) = upserted_documents a ++ upserted_documents b.
Proof. apply omap_app. Qed.

Lemma upserted_ids_embeds (l : list str) :
  upserted_ids (map (@EmbedDocument F) l) = [].
Proof. induction l as [|c l IH]; [reflexivity|exact IH]. Qed.

Lemma upserted_documents_embeds (l : list str) :
  upserted_documents (map (@EmbedDocument F) l) = [].
Proof. induction l as [|c l IH]; [reflexivity|exact IH]. Qed.

(** The inner loop when every embedding is obtained: one id per chunk, in
    order. *)
Lemma embed_batch_ok (e : ingest_env F) (filename category : str) (num_pages i : nat)
  (batch_chunks : list str) :
  (forall chunk, chunk ∈ batch_chunks -> exists emb, embed_document e chunk = Ok emb) ->
  forall (j : nat) (b : batch F) (tr : list (ingest_event F)),
  exists b',
    embed_batch e filename category num_pages i j batch_chunks b tr
      = (b', tr ++ map EmbedDocument batch_chunks) /\
    batch_ids b'
      = batch_ids b ++ imap (fun k _ => chunk_id filename (i + j + k)) batch_chunks.
Proof.
  induction batch_chunks as [|chunk rest IH]; intros Hemb j b tr.
  - exists b. cbn [embed_batch map imap]. rewrite !app_nil_r. done.
  - cbn [embed_batch].
    destruct (Hemb chunk) as [emb ->]; [left|].
    edestruct IH as [b' [-> Hids]]; [intros c Hc; apply Hemb; right; exact Hc|].
    exists b'. split.
    + cbn [map]. rewrite <- app_assoc. reflexivity.
    + rewrite Hids. cbn [batch_ids imap]. rewrite <- app_assoc. cbn [app].
      unfold chunk_id. rewrite Nat.add_0_r. do 2 f_equal.
      apply imap_ext. intros k c _. cbn. do 3 f_equal. lia.
Qed.

(** One round of the outer loop when nothing fails. *)
Lemma ingest_batch_ok (e : ingest_env F) (filename category : str) (num_pages : nat)
  (chunks : list str) (total i : nat) (tr : list (ingest_event F)) :
  (forall chunk, chunk ∈ chunks -> exists emb, embed_document e chunk = Ok emb) ->
  (forall ids docs embs mds, upsert e ids docs embs mds = Ok tt) ->
  let batch_chunks := take 10 (drop i chunks) in
  exists new,
    ingest_batch e filename category num_pages chunks (total, tr) i
      = ((total + length batch_chunks)%nat, tr ++ new) /\
    concat (upserted_documents new) = batch_chunks /\
    concat (upserted_ids new) = imap (fun k _ => chunk_id filename (i + k)) batch_chunks /\
    Forall (fun ids => (length ids <= 10)%nat) (upserted_ids new).
Proof.
  intros Hemb Hup batch_chunks. unfold ingest_batch. fold batch_chunks.
  destruct (embed_batch_ok e filename category num_pages i batch_chunks) with
    (j := O) (b := {| batch_ids := []; batch_embeddings := @nil (list F);
                      batch_metadatas := [] |}) (tr := tr)
    as [b' [-> Hids]].
  { intros c Hc. apply Hemb. subst batch_chunks.
    eapply elem_of_sublist; [exact Hc|].
    etransitivity; [apply sublist_take|apply sublist_drop]. }
  cbn [batch_ids app] in Hids.
  assert (imap (fun k (_ : str) => chunk_id filename (i + 0 + k)) batch_chunks
          = imap (fun k _ => chunk_id filename (i + k)) batch_chunks) as Hsame.
  { apply imap_ext. intros k c _. cbn. rewrite Nat.add_0_r. reflexivity. }
  rewrite Hsame in Hids. clear Hsame.
  assert (length (batch_ids b') = length batch_chunks) as Hlen.
  { rewrite Hids. apply length_imap. }
  destruct (batch_ids b') as [|id0 ids] eqn:Hb.
  - exists (map EmbedDocument batch_chunks).
    destruct batch_chunks as [|c l]; [|discriminate Hlen].
    cbn. rewrite Nat.add_0_r. repeat split; constructor.
  - rewrite Hup. rewrite Hlen. rewrite firstn_all.
    exists (map EmbedDocument batch_chunks
            ++ [Upsert (id0 :: ids) batch_chunks (batch_embeddings b') (batch_metadatas b')]).
    rewrite app_assoc. split; [reflexivity|].
    rewrite upserted_documents_app, upserted_ids_app,
      upserted_documents_embeds, upserted_ids_embeds.
    unfold upserted_documents, upserted_ids.
    cbn [app omap list_omap concat]. rewrite ?app_nil_r.
    split; [reflexivity|]. split; [exact Hids|].
    constructor; [|constructor]. rewrite Hlen. subst batch_chunks.
    rewrite length_take. lia.
Qed.

(** The outer loop over [m] batches from the batch of index [b0] on, when
    nothing fails. *)
Lemma ingest_loop_ok (e : ingest_env F) (filename category : str) (num_pages : nat)
  (chunks : list str) :
  (forall chunk, chunk ∈ chunks -> exists emb, embed_document e chunk = Ok emb) ->
  (forall ids docs embs mds, upsert e ids docs embs mds = Ok tt) ->
  forall (m b0 total : nat) (tr : list (ingest_event F)),
  (length (drop (b0 * 10) chunks) <= m * 10)%nat ->
  exists new,
    foldl (ingest_batch e filename category num_pages chunks) (total, tr)
          (map (fun b => b * 10)%nat (seq b0 m))
      = ((total + length (drop (b0 * 10) chunks))%nat, tr ++ new) /\
    concat (upserted_documents new) = drop (b0 * 10) chunks /\
    concat (upserted_ids new)
      = imap (fun k _ => chunk_id filename (b0 * 10 + k)) (drop (b0 * 10) chunks) /\
    Forall (fun ids => (length ids <= 10)%nat) (upserted_ids new).
Proof.
  intros Hemb Hup. induction m as [|m IH]; intros b0 total tr Hlen.
  - exists []. destruct (drop (b0 * 10) chunks) as [|c l]; [|cbn in Hlen; lia].
    cbn. rewrite Nat.add_0_r, app_nil_r. repeat split; constructor.
  - cbn [seq map foldl].
    destruct (ingest_batch_ok e filename category num_pages chunks total (b0 * 10) tr
                Hemb Hup) as [new1 [-> [Hd1 [Hi1 Hf1]]]].
    assert (drop (S b0 * 10) chunks = drop 10 (drop (b0 * 10) chunks)) as Hrest.
    { rewrite drop_drop. f_equal. lia. }
    destruct (IH (S b0) (total + length (take 10 (drop (b0 * 10) chunks)))%nat
                 (tr ++ new1)) as [new2 [-> [Hd2 [Hi2 Hf2]]]].
    { rewrite Hrest, length_drop. lia. }
    exists (new1 ++ new2). rewrite app_assoc.
    rewrite upserted_documents_app, upserted_ids_app, !concat_app, Hd1, Hd2, Hi1, Hi2, Hrest.
    set (rest := drop (b0 * 10) chunks) in *.
    split; [|split; [|split]].
    + f_equal. rewrite <- (take_drop 10 rest) at 3. rewrite length_app. lia.
    + apply take_drop.
    + rewrite <- (take_drop 10 rest) at 3. rewrite imap_app. f_equal.
      destruct (decide (length rest <= 10)%nat) as [Hshort|Hlong].
      * rewrite (drop_ge rest 10 Hshort). reflexivity.
      * apply imap_ext. intros k c _. cbn. rewrite length_take. do 4 f_equal. lia.
    + apply Forall_app. split; assumption.
Qed.

(** X29: a file that is read, split and embedded without a failure is
    stored whole. [ingest_pdf] returns the number of chunks; the batches
    sent to the store hold, one after the other, all the chunks in order; the
    id of the chunk of index [k] is the file name, an underscore and [k];
    and no batch holds more than 10 chunks. *)
Theorem ingest_pdf_stores_every_chunk (e : ingest_env F) (pdf_path category : str)
  (tr : list (ingest_event F)) (pages : list (outcome str)) (text_parts chunks : list str) :
  read_pdf e pdf_path = Ok pages ->
  page_texts pages = Ok text_parts ->
  (100 <= length (clean_text (Rag.join [10%N] text_parts)))%nat ->
  split_text e (clean_text (Rag.join [10] text_parts)) = Ok chunks ->
  (forall chunk, chunk ∈ chunks -> exists emb, embed_document e chunk = Ok emb) ->
  (forall ids docs embs mds, upsert e ids docs embs mds = Ok tt) ->
  exists new,
    ingest_pdf e pdf_path category tr = (length chunks, tr ++ new) /\
    concat (upserted_documents new) = chunks /\
    concat (upserted_ids new) = imap (fun k _ => chunk_id (basename pdf_path) k) chunks /\
    Forall (fun ids => (length ids <= 10)%nat) (upserted_ids new).
Proof.
  intros Hread Hpages Hlong Hsplit Hemb Hup.
  unfold ingest_pdf, extract_text_from_pdf. rewrite Hread, Hpages.
  cbv zeta. cbv beta iota.
  destruct (Nat.ltb_spec (length (clean_text (Rag.join [10] text_parts))) 100) as [Hlt|_];
    [lia|].
  rewrite Hsplit.
  destruct chunks as [|c0 cs] eqn:Hchunks.
  { exists []. rewrite app_nil_r. repeat split; constructor. }
  rewrite <- Hchunks in *. clear Hchunks.
  destruct (ingest_loop_ok e (basename pdf_path) category (length pages) chunks Hemb Hup
              ((length chunks + 10 - 1) / 10) 0 0 tr) as [new [Hrun Hrest]].
  { change (drop (0 * 10) chunks) with chunks.
    pose proof (Nat.div_mod_eq (length chunks + 10 - 1) 10) as Hd.
    pose proof (Nat.mod_upper_bound (length chunks + 10 - 1) 10 ltac:(lia)). lia. }
  exists new. change (drop (0 * 10) chunks) with chunks in Hrun, Hrest.
  cbn [Nat.mul Nat.add] in Hrun, Hrest.
  split; [|exact Hrest]. exact Hrun.
Qed.

(** The inner loop with the embeddings named. *)
Lemma embed_batch_emb (e : ingest_env F) (filename category : str) (num_pages i : nat)
  (emb : str -> list F) (batch_chunks : list str) :
  (forall chunk, chunk ∈ batch_chunks -> embed_document e chunk = Ok (emb chunk)) ->
  forall (j : nat) (b : batch F) (tr : list (ingest_event F)),
  exists b',
    embed_batch e filename category num_pages i j batch_chunks b tr
      = (b', tr ++ map EmbedDocument batch_chunks) /\
    batch_ids b'
      = batch_ids b ++ imap (fun k _ => chunk_id filename (i + j + k)) batch_chunks /\
    batch_embeddings b' = batch_embeddings b ++ map emb batch_chunks.
Proof.
  induction batch_chunks as [|chunk rest IH]; intros Hemb j b tr.
  - exists b. cbn [embed_batch map imap]. rewrite !app_nil_r. done.
  - cbn [embed_batch].
    rewrite (Hemb chunk) by left.
    edestruct IH as [b' [-> [Hids Hembs]]]; [intros c Hc; apply Hemb; right; exact Hc|].
    exists b'. split; [|split].
    + cbn [map]. rewrite <- app_assoc. reflexivity.
    + rewrite Hids. cbn [batch_ids imap]. rewrite <- app_assoc. cbn [app].
      unfold chunk_id. rewrite Nat.add_0_r. do 2 f_equal.
      apply imap_ext. intros k c _. cbn. do 3 f_equal. lia.
    + rewrite Hembs. cbn [batch_embeddings map]. rewrite <- app_assoc. reflexivity.
Qed.

(** X30: a chunk that cannot be embedded shifts the texts that are
    stored. When the embedding of the first chunk of a batch fails and the
    other chunks are embedded, the batch sent to the store holds the ids
    and the embeddings of the other chunks, but its documents are the
    first chunks of the batch, the failed one included: the id and the
    embedding of a chunk go with the text of the chunk before it. *)
Theorem ingest_batch_shifts_documents (e : ingest_env F) (filename category : str)
  (num_pages : nat) (chunks : list str) (total i : nat) (tr : list (ingest_event F))
  (chunk0 : str) (rest : list str) (emb : str -> list F) (ex : exn) :
  take 10 (drop i chunks) = chunk0 :: rest ->
  rest <> [] ->
  embed_document e chunk0 = Raise ex ->
  (forall chunk, chunk ∈ rest -> embed_document e chunk = Ok (emb chunk)) ->
  exists metadatas,
    (ingest_batch e filename category num_pages chunks (total, tr) i).2
      = tr ++ map EmbedDocument (chunk0 :: rest)
           ++ [Upsert (imap (fun k _ => chunk_id filename (i + 1 + k)) rest)
                      (take (length rest) (chunk0 :: rest))
                      (map emb rest) metadatas].
Proof.
  intros Hbatch Hrest Hfail Hemb. unfold ingest_batch. rewrite Hbatch.
  cbn [embed_batch]. rewrite Hfail.
  destruct (embed_batch_emb e filename category num_pages i emb rest Hemb 1
              {| batch_ids := []; batch_embeddings := @nil (list F);
                 batch_metadatas := [] |} (tr ++ [EmbedDocument chunk0]))
    as [b' [-> [Hids Hembs]]].
  cbn [batch_ids batch_embeddings app] in Hids, Hembs.
  exists (batch_metadatas b').
  assert (length (batch_ids b') = length rest) as Hlen.
  { rewrite Hids. apply length_imap. }
  destruct (batch_ids b') as [|id0 ids] eqn:Hb.
  { destruct rest; [congruence|discriminate Hlen]. }
  rewrite Hlen, Hembs, Hids.
  assert (forall a b : nat * list (ingest_event F), a.2 = b.2 ->
          (match upsert e (imap (fun k (_ : str) => chunk_id filename (i + 1 + k)) rest)
                   (take (length rest) (chunk0 :: rest)) (map emb rest)
                   (batch_metadatas b') with
           | Ok _ => a | Raise _ => b end).2 = a.2) as Hsame.
  { intros a b Hab. destruct (upsert _ _ _ _ _); [reflexivity|symmetry; exact Hab]. }
  rewrite Hsame by reflexivity. cbn [snd map].
  rewrite <- !app_assoc. reflexivity.
Qed.

End IngestFacts.

(** ** The further properties on concrete inputs *)

Module Runs.
Import Standin Inputs MoreInputs Rag.

#[local] Existing Instance Q_num.
#[local] Existing Instance count_bm25.
#[local] Existing Instance plain_codec.
#[local] Existing Instance Examples.Q_laws.

#[global] Instance Q_monotone : PyNumMonotone Q.
Proof.
  split. intros x y. rewrite !Examples.Qle_flag. intros Hxy. cbn [fsub of_Z Q_num].
  apply Qplus_le_r, Qopp_le_compat, Hxy.
Qed.

(** Three results at the distances 3/4, 1/4 and 1/2, cut to two. *)
Lemma rerank_results_sorted_prefix_witness :
  exists sorted : list (SearchResult Q),
    sorted ≡ₚ three_results /\
    StronglySorted (fun a b => fle (distance a) (distance b) = true) sorted /\
    rerank_results (lit "q") three_results 2 = take (Z.to_nat 2) sorted /\
    (length (rerank_results (lit "q") three_results 2) <= Z.to_nat 2)%nat /\
    (length (rerank_results (lit "q") three_results 2) <= length three_results)%nat.
Proof.
  apply (rerank_results_sorted_prefix (lit "q") three_results 2). lia.
Defined.

(** The retrieval over the five chunks, reranked to three. *)
Lemma rerank_keeps_retrieval_order_witness :
  exists results,
    (hybrid_search (env5 100) (lit "a x") 10 None (1 # 2)%Q (Some [1 # 2]%Q) fresh_world).1
      = Ok results /\
    rerank_results (lit "a x") results 3 = slice_to results 3.
Proof.
  apply (rerank_keeps_retrieval_order (env5 100) (lit "a x") 10 None (1 # 2)%Q
           (Some [1 # 2]%Q) fresh_world 3).
Defined.

(** Two older messages before the last five. *)
Lemma build_prompt_last_five_witness :
  build_prompt None (lit "ctx") (Some ([said "user" "a"; said "assistant" "b"] ++ five_messages))
               (lit "q")
    = build_prompt None (lit "ctx") (Some five_messages) (lit "q") /\
  build_prompt None (lit "ctx") (Some []) (lit "q")
    = build_prompt None (lit "ctx") None (lit "q").
Proof.
  apply (build_prompt_last_five None (lit "ctx") (lit "q")
           [said "user" "a"; said "assistant" "b"] five_messages).
  reflexivity.
Defined.

(** An entry of the cache, written at second 100 and read at second 200. *)
Lemma rag_query_cache_hit_witness :
  let key := SemanticCache._generate_cache_key SemanticCache.semantic_cache [1 # 2]%Q in
  let w := set_redis (Some {[ key := (dumps_cache_data (lit "hi", [entry1]), 3700%Q) ]})
                     fresh_world in
  rag_query (env5 200) (lit "a x") None 3 true None w =
  (Ok (lit "hi", [entry1]), add_event (RedisGet key) (add_event (EmbedContent (lit "a x")) w)).
Proof.
  intros key w.
  apply (rag_query_cache_hit (env5 200) (lit "a x") None 3 None w [1 # 2]%Q
           {[ key := (dumps_cache_data (lit "hi", [entry1]), 3700%Q) ]}
           (dumps_cache_data (lit "hi", [entry1])) 3700%Q (lit "hi") [entry1]).
  - reflexivity.
  - reflexivity.
  - reflexivity.
  - apply lookup_singleton_eq.
  - reflexivity.
  - discriminate.
  - reflexivity.
Defined.

(** A question asked at second 100 and again at second 200. *)
Lemma rag_query_caches_answer_witness :
  let key := SemanticCache._generate_cache_key SemanticCache.semantic_cache [1 # 2]%Q in
  let first := rag_query (env_reply 100) (lit "a x") None 3 true None fresh_world in
  exists (sources : list source_entry) (w5 : world Q),
    first.1 = Ok (lit "Xin chao", sources) /\
    trace first.2
      = trace w5 ++ [RedisSetex key (of_Z 3600)
                       (dumps_cache_data (lit "Xin chao", sources))] /\
    rag_query (env_reply 200) (lit "a x") (Some five_messages) 5 true None first.2 =
    (Ok (lit "Xin chao", sources),
     add_event (RedisGet key) (add_event (EmbedContent (lit "a x")) first.2)).
Proof.
  intros key first. do 2 eexists.
  eapply (rag_query_caches_answer (env_reply 100) (env_reply 200) (lit "a x")
            None (Some five_messages) 3 5 None None fresh_world).
  - reflexivity.
  - reflexivity.
  - vm_compute. reflexivity.
  - vm_compute. reflexivity.
  - reflexivity.
  - vm_compute. reflexivity.
  - reflexivity.
  - reflexivity.
  - reflexivity.
  - reflexivity.
  - reflexivity.
  - vm_compute. reflexivity.
  - vm_compute. discriminate.
Defined.

(** The same question when every model fails. *)
Lemma rag_query_caches_apology_witness :
  let key := SemanticCache._generate_cache_key SemanticCache.semantic_cache [1 # 2]%Q in
  let first := rag_query (env5 100) (lit "a x") None 3 true None fresh_world in
  exists sources : list source_entry,
    first.1 = Ok (APOLOGY, sources) /\
    (exists db', redis_client first.2 = Some db' /\
       db' !! key = Some (dumps_cache_data (APOLOGY, sources), fadd (now (env5 100)) (of_Z 3600))) /\
    rag_query (env_reply 200) (lit "a x") None 3 true None first.2 =
    (Ok (APOLOGY, sources),
     add_event (RedisGet key) (add_event (EmbedContent (lit "a x")) first.2)).
Proof.
  intros key first. eexists.
  eapply (rag_query_caches_apology (env5 100) (env_reply 200) (lit "a x")
            None None 3 3 None None fresh_world).
  - reflexivity.
  - reflexivity.
  - vm_compute. reflexivity.
  - vm_compute. reflexivity.
  - reflexivity.
  - intros m _. eexists. reflexivity.
  - reflexivity.
  - reflexivity.
  - reflexivity.
  - reflexivity.
  - reflexivity.
  - vm_compute. reflexivity.
  - vm_compute. discriminate.
Defined.

(** A setting with a blank field and spaces around the keywords. *)
Lemma load_sos_keywords_fields_witness :
  let db := db_with (lit "sos_keywords") (lit "help, sos ,, panic") in
  let keywords := (SafetySettings.load_sos_keywords 100%Q db fresh_safety).1 in
  Forall (fun kw =>
            kw <> [] /\ 44 ∉ kw /\
            forall ch, head kw = Some ch \/ last kw = Some ch -> is_space ch = false)
         keywords /\
  (Forall (fun ch => ch = 44 \/ is_space ch = true) (lit "help, sos ,, panic") ->
   keywords = [] /\
   forall text, Safety.check_sos_keywords text (Some keywords) = false).
Proof.
  intros db.
  apply (load_sos_keywords_fields 100%Q db fresh_safety 104 (lit "elp, sos ,, panic")).
  - reflexivity.
  - reflexivity.
Defined.

(** The keywords asked at second 100 and again at second 200, of a
    database that is down by then. *)
Lemma load_sos_keywords_cache_witness :
  let db := db_with (lit "sos_keywords") (lit "help, sos ,, panic") in
  let run := SafetySettings.load_sos_keywords 100%Q db fresh_safety in
  SafetySettings.asked run.2 = SafetySettings.asked fresh_safety ++ [lit "sos_keywords"] /\
  (forall setting, db (lit "sos_keywords") = Ok setting ->
     forall t2 db2, flt (fsub t2 100%Q) SafetySettings._SOS_CACHE_TTL = true ->
       SafetySettings.load_sos_keywords t2 db2 run.2 = (run.1, run.2)) /\
  (forall ex, db (lit "sos_keywords") = Raise ex ->
     run.1 = Safety.DEFAULT_SOS_KEYWORDS /\
     forall t2, sos_keywords_fresh t2 run.2 = sos_keywords_fresh t2 fresh_safety) /\
  (db (lit "sos_keywords") = Ok None \/ db (lit "sos_keywords") = Ok (Some []) ->
     run.1 = Safety.DEFAULT_SOS_KEYWORDS).
Proof.
  intros db.
  apply (load_sos_keywords_cache 100%Q db fresh_safety). reflexivity.
Defined.

(** Two hotlines that pass the validation, then loaded. *)
Lemma validated_hotlines_load_witness :
  exists items,
    json_loads two_hotlines_text = Loaded (JArray items) /\
    Forall well_formed_hotline items /\
    (crisis_hotlines_fresh 100%Q fresh_safety = false ->
     db_with (lit "crisis_hotlines") two_hotlines_text (lit "crisis_hotlines")
       = Ok (Some two_hotlines_text) ->
     (SafetySettings.load_crisis_hotlines 100%Q
        (db_with (lit "crisis_hotlines") two_hotlines_text) fresh_safety).1 = JArray items).
Proof.
  apply (validated_hotlines_load 91 (drop 1 two_hotlines_text) 100%Q
           (db_with (lit "crisis_hotlines") two_hotlines_text) fresh_safety).
  vm_compute. reflexivity.
Defined.

(** Three keywords that pass the validation, then loaded. *)
Lemma validated_keywords_load_witness :
  strip (lit "help, sos , panic") <> [] /\
  (3 <= length (split_on 44 (lit "help, sos , panic")))%nat /\
  (sos_keywords_fresh 100%Q fresh_safety = false ->
   db_with (lit "sos_keywords") (lit "help, sos , panic") (lit "sos_keywords")
     = Ok (Some (lit "help, sos , panic")) ->
   Forall (fun field => strip field <> []) (split_on 44 (lit "help, sos , panic")) ->
   length (SafetySettings.load_sos_keywords 100%Q
             (db_with (lit "sos_keywords") (lit "help, sos , panic")) fresh_safety).1
   = length (split_on 44 (lit "help, sos , panic"))).
Proof.
  apply (validated_keywords_load (lit "help, sos , panic") 100%Q
           (db_with (lit "sos_keywords") (lit "help, sos , panic")) fresh_safety).
  vm_compute. reflexivity.
Defined.

(** A message that holds a keyword in capitals. *)
Lemma alarm_names_a_keyword_witness :
  exists kw,
    kw ∈ Chat.detected_keywords [lit "sos"; lit "Help"] (lit "please HELP me") /\
    re_search (Safety.keyword_pattern kw) (lower (lit "please HELP me")) = true.
Proof.
  apply (alarm_names_a_keyword (lit "please HELP me") [lit "sos"; lit "Help"]).
  vm_compute. reflexivity.
Defined.

(** The retrieval over the five chunks, cut to two. *)
Lemma hybrid_search_bounds_witness :
  exists results,
    (hybrid_search (env5 100) (lit "a x") 2 None (1 # 2)%Q (Some [1 # 2]%Q) fresh_world).1
      = Ok results /\
    (length results <= Z.to_nat 2)%nat /\
    StronglySorted (fun a b => fle (score_key b) (score_key a) = true) results /\
    Forall (fun r => exists h, score r = Some h /\ distance r = fsub (of_Z 1) h) results.
Proof.
  apply (hybrid_search_bounds (env5 100) (lit "a x") 2 None (1 # 2)%Q
           (Some [1 # 2]%Q) fresh_world).
  lia.
Defined.

(** The index built at second 100 and asked again at second 500, under
    another filter. *)
Lemma bm25_index_rebuilt_after_ttl_witness :
  let first := _get_bm25_index (env5 100) store5 None fresh_world in
  let second := _get_bm25_index (env5 500) store5 (only_category "A") first.2 in
  second.1 = Ok (Some index5, get_documents corpus5, get_metadatas corpus5) /\
  trace second.2 = trace fresh_world ++ [CollectionGet None; CollectionGet (only_category "A")] /\
  _bm25_cache (rag second.2) = Some index5 /\
  _bm25_cache_time (rag second.2) = Some (now (env5 500)).
Proof.
  apply (bm25_index_rebuilt_after_ttl (env5 100) (env5 500) store5 store5
           None (only_category "A") fresh_world corpus5 corpus5 index5 index5).
  - reflexivity.
  - reflexivity.
  - discriminate.
  - reflexivity.
  - reflexivity.
  - reflexivity.
  - discriminate.
  - reflexivity.
Defined.

Lemma prefix_glob_prefix (key : str) :
  CacheAdmin.glob_match (SemanticCache.cache_prefix (@SemanticCache.semantic_cache Q _)
                         ++ lit "*") key = true <->
  exists rest, key = SemanticCache.cache_prefix (@SemanticCache.semantic_cache Q _) ++ rest.
Proof.
  change (CacheAdmin.glob_match
            (SemanticCache.cache_prefix (@SemanticCache.semantic_cache Q _) ++ lit "*") key)
    with (bool_decide (lit "rag_cache:" `prefix_of` key)).
  rewrite bool_decide_eq_true. reflexivity.
Qed.

(** Redis with a live entry of the cache, an expired one and a key of
    another application, cleared at second 100: one key is removed, the
    key of the other application stays, and every read is a miss. *)
Lemma clear_all_empties_cache_witness :
  let run := CacheAdmin.clear_all SemanticCache.semantic_cache (env5 100) world_with_keys in
  exists rdb',
    redis_client run.2 = Some rdb' /\
    run.1 = Ok 1%Z /\
    rdb' !! lit "session:1" = Some (lit "z", 500%Q) /\
    (forall e2 q, fle (now (env5 100)) (now e2) = true ->
       (SemanticCache.get SemanticCache.semantic_cache e2 q run.2).1 = Ok None).
Proof.
  intros run.
  destruct (clear_all_empties_cache SemanticCache.semantic_cache (env5 100) world_with_keys)
    as (_ & _ & Hclear).
  destruct (Hclear _ eq_refl eq_refl prefix_glob_prefix) as (rdb' & Hdb & Hn & Hother & Hmiss).
  exists rdb'. split; [exact Hdb|]. split; [|split].
  - etransitivity; [exact Hn|]. vm_compute. reflexivity.
  - rewrite Hother; [vm_compute; reflexivity|].
    intros rest E. vm_compute in E. discriminate E.
  - exact Hmiss.
Defined.

(** A text with dots, blank lines and a page number. *)
Lemma clean_text_single_line_witness :
  let text := lit "Lo au ......
  
 12 
Trang 1 / 2
  het. " in
  Ingest.clean_text text
    = strip (Ingest.re_sub Ingest.WHITESPACE (lit " ")
               (Ingest.re_sub Ingest.DOTS [] (Ingest.normalize_nfc text))) /\
  10 ∉ Ingest.clean_text text /\
  Forall (fun c => is_space c = true -> c = 32) (Ingest.clean_text text).
Proof.
  intros text. apply (clean_text_single_line text). reflexivity.
Defined.

(** The file of three pages, cut into pieces of 10 characters: 13 chunks in
    two batches. *)
Lemma ingest_pdf_stores_every_chunk_witness :
  exists chunks new,
    length chunks = 13%nat /\
    Ingest.ingest_pdf (ingest_with []) (lit "data/lo_au.pdf") (lit "General") []
      = (length chunks, [] ++ new) /\
    concat (upserted_documents new) = chunks /\
    concat (upserted_ids new)
      = imap (fun k _ => chunk_id (Ingest.basename (lit "data/lo_au.pdf")) k) chunks /\
    Forall (fun ids => (length ids <= 10)%nat) (upserted_ids new).
Proof.
  set (text := Ingest.clean_text (join [10] [page_one; page_three])).
  assert (Ingest.page_texts three_pages = Ok [page_one; page_three]) as Hpages.
  { vm_compute. reflexivity. }
  assert (100 <= length text)%nat as Hlong.
  { apply Nat.leb_le. vm_compute. reflexivity. }
  assert (forall chunk, chunk ∈ pieces_of 10 (length text) text ->
          exists emb, Ingest.embed_document (ingest_with []) chunk = Ok emb) as Hemb.
  { intros chunk _. eexists. cbn [Ingest.embed_document ingest_with].
    rewrite bool_decide_eq_false_2; [reflexivity|]. apply not_elem_of_nil. }
  destruct (ingest_pdf_stores_every_chunk (ingest_with []) (lit "data/lo_au.pdf")
              (lit "General") [] three_pages [page_one; page_three]
              (pieces_of 10 (length text) text) eq_refl Hpages Hlong eq_refl Hemb
              (fun _ _ _ _ => eq_refl)) as [new Hnew].
  exists (pieces_of 10 (length text) text), new.
  split; [|exact Hnew]. vm_compute. reflexivity.
Defined.

(** A batch of three chunks, the first of which cannot be embedded. *)
Lemma ingest_batch_shifts_documents_witness :
  exists metadatas,
    (Ingest.ingest_batch (ingest_with [lit "mot"]) (lit "lo_au.pdf") (lit "General") 3
       [lit "mot"; lit "hai"; lit "ba"] (0%nat, []) 0).2
    = [Ingest.EmbedDocument (lit "mot"); Ingest.EmbedDocument (lit "hai");
       Ingest.EmbedDocument (lit "ba");
       Ingest.Upsert [lit "lo_au.pdf_1"; lit "lo_au.pdf_2"] [lit "mot"; lit "hai"]
                     [[3%Q]; [2%Q]] metadatas].
Proof.
  assert (take 10 (drop 0 [lit "mot"; lit "hai"; lit "ba"])
          = lit "mot" :: [lit "hai"; lit "ba"]) as Hbatch.
  { vm_compute. reflexivity. }
  assert (Ingest.embed_document (ingest_with [lit "mot"]) (lit "mot")
          = Raise (Exception (lit "quota"))) as Hfail.
  { vm_compute. reflexivity. }
  assert (forall chunk, chunk ∈ [lit "hai"; lit "ba"] ->
          Ingest.embed_document (ingest_with [lit "mot"]) chunk
          = Ok [inject_Z (Z.of_nat (length chunk))]) as Hemb.
  { intros chunk Hin.
    apply elem_of_cons in Hin as [->|Hin]; [vm_compute; reflexivity|].
    apply elem_of_cons in Hin as [->|Hin]; [vm_compute; reflexivity|].
    inversion Hin. }
  destruct (ingest_batch_shifts_documents (ingest_with [lit "mot"]) (lit "lo_au.pdf")
              (lit "General") 3 [lit "mot"; lit "hai"; lit "ba"] 0 0 [] (lit "mot")
              [lit "hai"; lit "ba"] (fun chunk => [inject_Z (Z.of_nat (length chunk))])
              (Exception (lit "quota")) Hbatch ltac:(discriminate) Hfail Hemb)
    as [metadatas Hrun].
  exists metadatas. etransitivity; [exact Hrun|]. vm_compute. reflexivity.
Defined.

End Runs.
